(** * Primecare collection-center client: order lifecycle and delivery tracking

    A shallow embedding of the order-status vocabulary (types), the timeline
    derivation and map region of the active-delivery screen, the snapshot
    handlers of the two polling screens and the tracking, QR, dashboard,
    activity and contact transformations of the order service.

    JavaScript values are modelled as follows.
    - A nullable string field ([string | null | undefined]) is an
      [option string]; it is falsy when absent or empty.
    - A number that the code only tests for truthiness or stores, and the
      ratio of two counts that the dashboard rounds, is an exact rational
      ([Q]) or [NaN].
    - The numbers of the map region, on which the code computes with
      [+ - * /], [Math.min] and [Math.max], are IEEE-754 binary64 values:
      the primitive floats with their specification, the value of a finite
      one being an exact rational where a property speaks of distances.
    - A call that may throw returns an [option] or a sum. *)

From Stdlib Require Import String Ascii List Bool Arith ZArith Lia.
From Stdlib Require Import DecimalString.
From Stdlib Require Import QArith Qminmax Qround Qabs Qpower Lqa.
From Stdlib Require Import Sorted.
From Stdlib Require Floats.
Import ListNotations.
Close Scope Q_scope.
Close Scope Z_scope.
Open Scope string_scope.
Set Warnings "-inexact-float".

(** ** JavaScript truthiness of nullable strings *)

Definition truthy (v : option string) : bool :=
  match v with
  | None => false
  | Some s => negb (s =? EmptyString)
  end.

(** [a || b] on nullable strings. *)
Definition or_else (a b : option string) : option string :=
  if truthy a then a else b.

(** [a || fallback] where the fallback is a string literal or a stored
    string. *)
Definition text_or (a : option string) (fallback : string) : string :=
  match a with
  | Some s => if s =? EmptyString then fallback else s
  | None => fallback
  end.

(** [xs.includes(x)] on an array of strings. *)
Definition includes (xs : list string) (x : string) : bool :=
  existsb (String.eqb x) xs.

(** A call that returns or throws. *)
Inductive Outcome (A : Type) : Type :=
| Returned (a : A)
| Threw (message : string).
Arguments Returned {A} a.
Arguments Threw {A} message.

(** ** JavaScript numbers as the tracking code tests them *)

Inductive number : Type :=
| NaN
| Num (q : Q).

(** A JSON scalar: absent ([null] or [undefined]), a number or a string. *)
Inductive JsVal : Type :=
| JAbsent
| JNum (n : number)
| JStr (s : string).

Definition truthy_num (n : number) : bool :=
  match n with
  | NaN => false
  | Num q => negb (Qeq_bool q 0%Q)
  end.

Definition truthy_val (v : JsVal) : bool :=
  match v with
  | JAbsent => false
  | JNum n => truthy_num n
  | JStr s => negb (s =? EmptyString)
  end.

(** A numeric field that may be missing; falsy when missing, [NaN] or zero. *)
Definition truthy_opt (v : option number) : bool :=
  match v with
  | None => false
  | Some n => truthy_num n
  end.

(** [a || b] on optional numbers. *)
Definition num_or (a b : option number) : option number :=
  if truthy_opt a then a else b.

(** [v !== 0] *)
Definition not_zero (v : option number) : bool :=
  match v with
  | Some (Num q) => negb (Qeq_bool q 0%Q)
  | _ => true
  end.

(** ** Types (the shared type declarations) *)

Module Types.

(** The fields of [Order] that the tracking screens read.  The flattened
    timestamp and coordinate fields are the ones the screens read through
    [order as any].  A field named after a path holds the value of the
    optional chain: [rider_info_name] is [order.rider_info?.name],
    [locations_pickup_lat] is [order.locations?.pickup?.lat],
    [timing_estimated_delivery_time] is
    [order.timing?.estimated_delivery_time]. *)
Record Order : Type := mkOrder {
  id : string;
  status : string;
  rider_id : option string;
  rider_name : option string;
  rider_phone : option string;
  rider_info_name : option string;
  rider_info_phone : option string;
  rider_info_vehicle_type : option string;
  rider_info_vehicle_registration : option string;
  sample_type : string;
  sample_quantity : nat;
  created_at : option string;
  updated_at : option string;
  assigned_at : option string;
  pickup_started_at : option string;
  picked_up_at : option string;
  delivered_at : option string;
  estimated_delivery_time : option string;
  timing_estimated_delivery_time : option string;
  locations_pickup_lat : option number;
  locations_pickup_lng : option number;
  locations_delivery_lat : option number;
  locations_delivery_lng : option number;
  pickup_location_lat : option number;
  pickup_location_lng : option number;
  delivery_location_lat : option number;
  delivery_location_lng : option number
}.

Record ApiResponse (T : Type) : Type := mkResponse {
  success : bool;
  message : string;
  data : option T
}.
Arguments mkResponse {T} _ _ _.
Arguments success {T} _.
Arguments message {T} _.
Arguments data {T} _.

(** [ORDER_STATUSES], in declaration order. *)
Definition ORDER_STATUSES : list string :=
  [ "pending_rider_assignment";
    "assigned";
    "pickup_started";
    "picked_up";
    "delivery_started";
    "delivered";
    "cancelled";
    "handover_pending";
    "handover_accepted";
    "handover_confirmed" ].

(** The union type of [RiderStatus.status] in the delivery-created
    screen. *)
Definition RIDER_STATUSES : list string :=
  [ "pending_rider_assignment";
    "assigned";
    "pickup_started";
    "picked_up";
    "delivery_started";
    "delivered";
    "cancelled" ].

(** The status vocabulary as the specification words it (eight values). *)
Definition spec_status_vocabulary : list string :=
  [ "created";
    "pending_rider_assignment";
    "assigned";
    "pickup_started";
    "picked_up";
    "delivery_started";
    "delivered";
    "cancelled" ].

End Types.

(** ** Timeline derivation of the active-delivery screen *)

Module Timeline.
Import Types.

Inductive StepStatus : Type := completed | current | pending.

(** An element of [timelineSteps]: a [TimelineItem] plus the
    [orderStatus] tag the lookup uses. *)
Record TimelineStep : Type := mkStep {
  step_id : string;
  title : string;
  subtitle : string;
  time : string;
  step_status : StepStatus;
  orderStatus : string
}.

Definition set_status (s : TimelineStep) (st : StepStatus) : TimelineStep :=
  {| step_id := step_id s; title := title s; subtitle := subtitle s;
     time := time s; step_status := st; orderStatus := orderStatus s |}.

(** [order.sample_quantity || 1] printed inside the template literal. *)
Definition show_quantity (n : nat) : string :=
  NilZero.string_of_uint (Nat.to_uint (if Nat.eqb n 0 then 1 else n)).

(** [timelineSteps.find(p)] followed by [currentStep.status = 'current']:
    the first element satisfying [p] is updated in place. *)
Fixpoint mark_first_current (p : TimelineStep -> bool)
    (steps : list TimelineStep) : list TimelineStep :=
  match steps with
  | [] => []
  | s :: rest =>
      if p s then set_status s current :: rest
      else s :: mark_first_current p rest
  end.

Definition currentOrderStatuses : list string :=
  [ "pending_rider_assignment"; "assigned"; "pickup_started";
    "picked_up"; "delivery_started" ].

(** The [switch (order.status)] inside the [find] callback. *)
Definition is_current_step (order_status : string) (s : TimelineStep) : bool :=
  if order_status =? "pending_rider_assignment" then orderStatus s =? "assigned"
  else if order_status =? "assigned" then orderStatus s =? "pickup_started"
  else if order_status =? "pickup_started" then orderStatus s =? "pickup_started"
  else if order_status =? "picked_up" then orderStatus s =? "picked_up"
  else if order_status =? "delivery_started" then orderStatus s =? "delivered"
  else false.

Section WithLocale.

(** [new Date(ts).toLocaleTimeString('en-US', ...)]; [None] stands for a
    thrown exception. *)
Variable toLocaleTimeString : string -> option string.

Definition formatTime (timestamp : option string) : string :=
  if negb (truthy timestamp) then "Pending"
  else match timestamp with
       | None => "Pending"
       | Some ts =>
           match toLocaleTimeString ts with
           | Some label => label
           | None => "Pending"
           end
       end.

(** The conditional of steps two to four:
    [ts ? 'completed' : (order.status === own ? 'current' : 'pending')]. *)
Definition initial_status (ts : option string) (is_own : bool) : StepStatus :=
  if truthy ts then completed else if is_own then current else pending.

Definition timelineSteps (order : Order) : list TimelineStep :=
  [ {| step_id := "1";
       title := "Order Created";
       subtitle := "Delivery created with " ++ show_quantity (sample_quantity order)
                     ++ " " ++ sample_type order ++ " sample(s)";
       time := formatTime (created_at order);
       step_status := completed;
       orderStatus := "created" |};
    {| step_id := "2";
       title := "Rider Assignment";
       subtitle := if truthy (rider_id order) then "Rider assigned successfully"
                   else "Waiting for rider assignment";
       time := formatTime (assigned_at order);
       step_status := initial_status (assigned_at order)
                        (status order =? "pending_rider_assignment");
       orderStatus := "assigned" |};
    {| step_id := "3";
       title := "En Route to Pickup";
       subtitle := "Rider traveling to collection center";
       time := formatTime (pickup_started_at order);
       step_status := initial_status (pickup_started_at order)
                        (status order =? "pickup_started");
       orderStatus := "pickup_started" |};
    {| step_id := "4";
       title := "Samples Collected";
       subtitle := "QR code scanned and samples picked up";
       time := formatTime (picked_up_at order);
       step_status := initial_status (picked_up_at order)
                        (status order =? "picked_up");
       orderStatus := "picked_up" |};
    {| step_id := "5";
       title := "Delivered to Hospital";
       subtitle := if truthy (delivered_at order)
                   then "Successfully delivered to hospital lab"
                   else "En route to hospital";
       time := formatTime (delivered_at order);
       step_status := initial_status (delivered_at order)
                        ((status order =? "delivery_started")
                         || (status order =? "delivered"));
       orderStatus := "delivered" |} ].

Definition buildTimelineFromOrder {H : Type} (order : Order)
    (statusHistory : list H) : list TimelineStep :=
  let steps := timelineSteps order in
  if includes currentOrderStatuses (status order)
  then mark_first_current (is_current_step (status order)) steps
  else steps.

End WithLocale.

(** The timeline rule as the specification words it: a step is completed
    iff its timestamp is set, current iff it is the first step without a
    timestamp and its predecessor is completed, pending otherwise. *)
Fixpoint spec_states_from (prev_completed : bool) (seen_unset : bool)
    (stamps : list (option string)) : list StepStatus :=
  match stamps with
  | [] => []
  | ts :: rest =>
      if truthy ts then completed :: spec_states_from true seen_unset rest
      else (if negb seen_unset && prev_completed then current else pending)
             :: spec_states_from false true rest
  end.

Definition step_stamps (order : Order) : list (option string) :=
  [ created_at order; assigned_at order; pickup_started_at order;
    picked_up_at order; delivered_at order ].

Definition spec_states (order : Order) : list StepStatus :=
  spec_states_from true false (step_stamps order).

(** The step, counted from one, that the status lookup points at. *)
Definition lookup_step (order_status : string) : option nat :=
  if order_status =? "pending_rider_assignment" then Some 2
  else if order_status =? "assigned" then Some 3
  else if order_status =? "pickup_started" then Some 3
  else if order_status =? "picked_up" then Some 4
  else if order_status =? "delivery_started" then Some 5
  else None.

(** What the code yields for step [k] of two to five, given the step's
    timestamp. *)
Definition code_state (order : Order) (k : nat) (ts : option string) : StepStatus :=
  if match lookup_step (status order) with
     | Some j => Nat.eqb j k
     | None => false
     end
  then current
  else if truthy ts then completed
  else if Nat.eqb k 5 && (status order =? "delivered") then current
  else pending.

End Timeline.

(** ** Order service: tracking and QR transformations *)

Module OrderService.
Import Types.

(** An element of [location_tracking]. *)
Record TrackPoint : Type := mkTrackPoint {
  location_lat : JsVal;
  location_lng : JsVal;
  recorded_at : option string
}.

(** [order.rider_current_location] of the operations endpoint. *)
Record CurrentLocation : Type := mkCurrentLocation {
  cur_lat : JsVal;
  cur_lng : JsVal;
  cur_updated_at : option string
}.

(** The order object of [/operations/orders/:id/details]. *)
Record DetailsOrder : Type := mkDetailsOrder {
  d_status : string;
  d_rider_current_location : option CurrentLocation;
  d_timing_estimated_delivery_time : option string;
  d_estimated_delivery_time : option string
}.

Record DetailsData : Type := mkDetailsData {
  d_order : option DetailsOrder;
  d_location_tracking : option (list TrackPoint)
}.

Record RiderLocation : Type := mkRiderLocation {
  lat : number;
  lng : number;
  timestamp : option string
}.

(** The tracking payload as the screen reads it: both location fields are
    read through optional chains. *)
Record TrackingData : Type := mkTrackingData {
  rider_location : option RiderLocation;
  rider_current_location : option RiderLocation;
  estimated_arrival : option string;
  t_status : string
}.

(** [xs.length > 0 ? xs[xs.length - 1] : null] *)
Definition latest {A : Type} (xs : list A) : option A :=
  if Nat.ltb 0 (length xs) then nth_error xs (length xs - 1) else None.

(** [order.rider_current_location?.lat] *)
Definition current_lat (o : DetailsOrder) : JsVal :=
  match d_rider_current_location o with
  | Some c => cur_lat c
  | None => JAbsent
  end.

Definition current_lng (o : DetailsOrder) : JsVal :=
  match d_rider_current_location o with
  | Some c => cur_lng c
  | None => JAbsent
  end.

Definition current_updated_at (o : DetailsOrder) : option string :=
  match d_rider_current_location o with
  | Some c => cur_updated_at c
  | None => None
  end.

Section WithRuntime.

(** [parseFloat] on a string. *)
Variable parseFloat_string : string -> number.

Definition parseFloat (v : JsVal) : number :=
  match v with
  | JAbsent => NaN
  | JNum n => n
  | JStr s => parseFloat_string s
  end.

(** [getOrderTracking]; [now] is [new Date().toISOString()] and
    [response] the outcome of the request. *)
Definition getOrderTracking (now : string)
    (response : Outcome (ApiResponse DetailsData))
    : Outcome (ApiResponse TrackingData) :=
  match response with
  | Threw e => Threw e
  | Returned r =>
      match (if success r then data r else None) with
      | Some {| d_order := Some order; d_location_tracking := tracking |} =>
          let locationTracking :=
            match tracking with Some l => l | None => [] end in
          let latestLocation := latest locationTracking in
          let riderCurrentLat := current_lat order in
          let riderCurrentLng := current_lng order in
          Returned
            {| success := true;
               message := "Order tracking retrieved successfully";
               data := Some
                 {| rider_location := Some
                      match latestLocation with
                      | Some p =>
                          {| lat := parseFloat (location_lat p);
                             lng := parseFloat (location_lng p);
                             timestamp := recorded_at p |}
                      | None =>
                          if truthy_val riderCurrentLat && truthy_val riderCurrentLng
                          then {| lat := parseFloat riderCurrentLat;
                                  lng := parseFloat riderCurrentLng;
                                  timestamp :=
                                    or_else (current_updated_at order) (Some now) |}
                          else {| lat := Num 0%Q;
                                  lng := Num 0%Q;
                                  timestamp := Some now |}
                      end;
                    rider_current_location := None;
                    estimated_arrival :=
                      or_else
                        (or_else (d_timing_estimated_delivery_time order)
                                 (d_estimated_delivery_time order))
                        (Some "N/A");
                    t_status := d_status order |} |}
      | _ => Threw "Order not found"
      end
  end.

End WithRuntime.

(** The JSON the QR endpoint returns and what [getOrderQR] makes of it. *)
Record QrCode : Type := mkQrCode {
  qr_code_id : string;
  qr_type : string;
  qr_created_at : string
}.

Record QrListing : Type := mkQrListing {
  listing_order_id : string;
  qr_codes : option (list QrCode)
}.

Record OrderQR : Type := mkOrderQR {
  qr_id : string;
  qr_data : string
}.

Section WithStringify.

(** [JSON.stringify] of the object [{qr_id, type, order_id, created_at}]. *)
Variable stringify : string -> string -> string -> string -> string.

(** [getOrderQR]: a response whose [data] is missing makes the property
    access throw. *)
Definition getOrderQR (response : Outcome (ApiResponse QrListing))
    : Outcome (ApiResponse OrderQR) :=
  match response with
  | Threw e => Threw e
  | Returned r =>
      if success r then
        match data r with
        | None => Threw "TypeError"
        | Some d =>
            let codes := match qr_codes d with Some l => l | None => [] end in
            match find (fun qr => qr_type qr =? "pickup") codes with
            | Some pickupQR =>
                Returned
                  {| success := true;
                     message := "QR code retrieved successfully";
                     data := Some
                       {| qr_id := qr_code_id pickupQR;
                          qr_data := stringify (qr_code_id pickupQR) "pickup"
                                       (listing_order_id d)
                                       (qr_created_at pickupQR) |} |}
            | None => Threw "No pickup QR code found for order"
            end
        end
      else Threw "No pickup QR code found for order"
  end.

End WithStringify.

End OrderService.

(** ** Active-delivery screen: state, snapshot handlers and map region *)

Module ActiveDelivery.
Import Types.
Import Timeline.

Record LocationCoordinates : Type := mkCoord {
  latitude : Q;
  longitude : Q
}.

Record LocationState : Type := mkLocationState {
  collectionCenter : LocationCoordinates;
  hospital : LocationCoordinates;
  riderLocation : option LocationCoordinates;
  isRiderLocationActive : bool;
  routeCoordinates : list LocationCoordinates;
  estimatedTimeToPickup : string;
  estimatedTimeToDelivery : string
}.

Record StatusHistoryItem : Type := mkHistory {
  h_status : string;
  h_changed_at : string
}.

Record OrderDetails : Type := mkOrderDetails {
  order : Order;
  status_history : option (list StatusHistoryItem)
}.

(** The component state the handlers write. *)
Record ScreenState : Type := mkScreen {
  orderData : option Order;
  isLoading : bool;
  qrData : option string;
  timeline : list TimelineStep;
  locationState : LocationState
}.

(** The [useState] initial values. *)
Definition initialLocationState : LocationState :=
  {| collectionCenter := {| latitude := 69147 # 10000; longitude := 798731 # 10000 |};
     hospital := {| latitude := 69236 # 10000; longitude := 798581 # 10000 |};
     riderLocation := None;
     isRiderLocationActive := false;
     routeCoordinates := [];
     estimatedTimeToPickup := "N/A";
     estimatedTimeToDelivery := "N/A" |}.

Definition initialState : ScreenState :=
  {| orderData := None;
     isLoading := true;
     qrData := None;
     timeline := [];
     locationState := initialLocationState |}.

(** [v || prev] where [prev] is a stored coordinate. *)
Definition coord_or (v : option number) (prev : Q) : Q :=
  match v with
  | Some (Num q) => if Qeq_bool q 0%Q then prev else q
  | _ => prev
  end.

Definition set_loading (b : bool) (st : ScreenState) : ScreenState :=
  {| orderData := orderData st; isLoading := b; qrData := qrData st;
     timeline := timeline st; locationState := locationState st |}.

Section WithLocale.

Variable toLocaleTimeString : string -> option string.

(** The state writes of the success branch of [loadOrderData], before the
    QR request. *)
Definition apply_order (details : OrderDetails) (st : ScreenState) : ScreenState :=
  let order := order details in
  let statusHistory :=
    match status_history details with Some h => h | None => [] end in
  let pickupLat := num_or (locations_pickup_lat order) (pickup_location_lat order) in
  let pickupLng := num_or (locations_pickup_lng order) (pickup_location_lng order) in
  let deliveryLat := num_or (locations_delivery_lat order) (delivery_location_lat order) in
  let deliveryLng := num_or (locations_delivery_lng order) (delivery_location_lng order) in
  let prev := locationState st in
  {| orderData := Some order;
     isLoading := isLoading st;
     qrData := qrData st;
     timeline := buildTimelineFromOrder toLocaleTimeString order statusHistory;
     locationState :=
       {| collectionCenter :=
            {| latitude := coord_or pickupLat (latitude (collectionCenter prev));
               longitude := coord_or pickupLng (longitude (collectionCenter prev)) |};
          hospital :=
            {| latitude := coord_or deliveryLat (latitude (hospital prev));
               longitude := coord_or deliveryLng (longitude (hospital prev)) |};
          riderLocation := riderLocation prev;
          isRiderLocationActive := truthy (rider_id order);
          routeCoordinates := routeCoordinates prev;
          estimatedTimeToPickup := estimatedTimeToPickup prev;
          estimatedTimeToDelivery :=
            text_or (or_else (timing_estimated_delivery_time order)
                             (estimated_delivery_time order)) "N/A" |} |}.

Definition set_qr (qr : string) (st : ScreenState) : ScreenState :=
  {| orderData := orderData st; isLoading := isLoading st; qrData := Some qr;
     timeline := timeline st; locationState := locationState st |}.

(** [loadOrderData]: [orderResponse] and [qrResponse] are the outcomes of
    [getOrderById] and [getOrderQR]; the second is only awaited when the
    order has a rider.  The result is the state after the [finally]
    block and the alerts raised by the [catch] block. *)
Definition loadOrderData
    (orderResponse : Outcome (ApiResponse OrderDetails))
    (qrResponse : Outcome (ApiResponse OrderService.OrderQR))
    (st : ScreenState) : ScreenState * list string :=
  let st := set_loading true st in
  match orderResponse with
  | Threw _ => (set_loading false st, ["Failed to load delivery details"])
  | Returned r =>
      match (if success r then data r else None) with
      | Some details =>
          let st1 := apply_order details st in
          if truthy (rider_id (order details)) then
            match qrResponse with
            | Threw _ => (set_loading false st1, ["Failed to load delivery details"])
            | Returned q =>
                match (if success q then data q else None) with
                | Some qr => (set_loading false (set_qr (OrderService.qr_data qr) st1), [])
                | None => (set_loading false st1, [])
                end
            end
          else (set_loading false st1, [])
      | None => (set_loading false st, [])
      end
  end.

End WithLocale.

(** [trackingData.rider_location?.lat || trackingData.rider_current_location?.lat] *)
Definition tracked_lat (d : OrderService.TrackingData) : option number :=
  num_or (option_map OrderService.lat (OrderService.rider_location d))
         (option_map OrderService.lat (OrderService.rider_current_location d)).

Definition tracked_lng (d : OrderService.TrackingData) : option number :=
  num_or (option_map OrderService.lng (OrderService.rider_location d))
         (option_map OrderService.lng (OrderService.rider_current_location d)).

(** The updater passed to [setLocationState] when the location is valid. *)
Definition with_rider (la lo : Q) (eta : option string) (prev : LocationState)
    : LocationState :=
  {| collectionCenter := collectionCenter prev;
     hospital := hospital prev;
     riderLocation := Some {| latitude := la; longitude := lo |};
     isRiderLocationActive := true;
     routeCoordinates := routeCoordinates prev;
     estimatedTimeToPickup := estimatedTimeToPickup prev;
     estimatedTimeToDelivery := text_or eta (estimatedTimeToDelivery prev) |}.

(** [pollRiderLocation], from the outcome of [getOrderTracking] on: a
    thrown request is logged and leaves the state alone.  The map animation
    that the updater schedules is not part of the state. *)
Definition pollRiderLocation
    (trackingResponse : Outcome (ApiResponse OrderService.TrackingData))
    (prev : LocationState) : LocationState :=
  match trackingResponse with
  | Threw _ => prev
  | Returned r =>
      match (if success r then data r else None) with
      | Some trackingData =>
          let riderLat := tracked_lat trackingData in
          let riderLng := tracked_lng trackingData in
          if truthy_opt riderLat && truthy_opt riderLng
             && not_zero riderLat && not_zero riderLng
          then match riderLat, riderLng with
               | Some (Num la), Some (Num lo) =>
                   with_rider la lo (OrderService.estimated_arrival trackingData) prev
               | _, _ => prev
               end
          else prev
      | None => prev
      end
  end.

End ActiveDelivery.

(** ** Active-delivery screen: the map region of [renderMap]

    The region is computed in double arithmetic, so the coordinates are
    primitive floats here. *)

Module MapRegion.
Import Floats.
Local Open Scope float_scope.

(** A marker position as [renderMap] computes with it: two doubles. *)
Record LocationCoordinates : Type := mkCoordinates {
  latitude : float;
  longitude : float
}.

(** The [region] object handed to the map view. *)
Record Region : Type := mkRegion {
  r_latitude : float;
  r_longitude : float;
  latitudeDelta : float;
  longitudeDelta : float
}.

(** The two zeros, which [Math.min] and [Math.max] tell apart. *)
Definition is_positive_zero (x : float) : bool :=
  match classify x with PZero => true | _ => false end.

Definition is_negative_zero (x : float) : bool :=
  match classify x with NZero => true | _ => false end.

(** [Math.min(...values)]: NaN if any value is NaN; otherwise the least
    value, -0 counting as less than +0; [Infinity] for no value. *)
Fixpoint Math_min_from (lowest : float) (values : list float) : float :=
  match values with
  | [] => lowest
  | x :: rest =>
    if is_nan x then nan
    else if is_positive_zero lowest && is_negative_zero x
    then Math_min_from x rest
    else if x <? lowest then Math_min_from x rest
    else Math_min_from lowest rest
  end.

Definition Math_min (values : list float) : float :=
  Math_min_from infinity values.

(** [Math.max(...values)]: NaN if any value is NaN; otherwise the greatest
    value, +0 counting as greater than -0; [-Infinity] for no value. *)
Fixpoint Math_max_from (highest : float) (values : list float) : float :=
  match values with
  | [] => highest
  | x :: rest =>
    if is_nan x then nan
    else if is_negative_zero highest && is_positive_zero x
    then Math_max_from x rest
    else if highest <? x then Math_max_from x rest
    else Math_max_from highest rest
  end.

Definition Math_max (values : list float) : float :=
  Math_max_from neg_infinity values.

(** The markers of the map: the collection center, the hospital and, when
    there is one, the rider. *)
Definition allCoordinates (collectionCenter hospital : LocationCoordinates)
    (riderLocation : option LocationCoordinates) : list LocationCoordinates :=
  collectionCenter :: hospital ::
  match riderLocation with Some rider => [rider] | None => [] end.

(** The region that [renderMap] computes from the markers, for any list of
    them. *)
Definition region_of (coordinates : list LocationCoordinates) : Region :=
  let minLat := Math_min (map latitude coordinates) in
  let maxLat := Math_max (map latitude coordinates) in
  let minLng := Math_min (map longitude coordinates) in
  let maxLng := Math_max (map longitude coordinates) in
  {| r_latitude := (minLat + maxLat) / 2;
     r_longitude := (minLng + maxLng) / 2;
     latitudeDelta := Math_max [0.01; (maxLat - minLat) * 1.5];
     longitudeDelta := Math_max [0.01; (maxLng - minLng) * 1.5] |}.

Definition renderMap_region (collectionCenter hospital : LocationCoordinates)
    (riderLocation : option LocationCoordinates) : Region :=
  region_of (allCoordinates collectionCenter hospital riderLocation).

(** No coordinate is NaN or infinite. *)
Definition all_finite (coordinates : list LocationCoordinates) : bool :=
  forallb (fun c => is_finite (latitude c) && is_finite (longitude c))
          coordinates.

(** The value of a finite double, as an exact rational. *)
Definition SF2Q (x : spec_float) : Q :=
  match x with
  | S754_finite s m e => (inject_Z (if s then Zneg m else Zpos m) * 2 ^ e)%Q
  | _ => 0%Q
  end.

Definition exact (x : float) : Q := SF2Q (Prim2SF x).

(** The value [x] lies within half of [span] of [centre], both of them
    finite; the distance is taken between the exact values. *)
Definition within_half_span (centre span x : float) : Prop :=
  is_finite centre = true /\ is_finite span = true
  /\ (Qabs (exact x - exact centre) <= exact span / 2)%Q.

(** The region covers a marker on both axes. *)
Definition covers (r : Region) (c : LocationCoordinates) : Prop :=
  within_half_span (r_latitude r) (latitudeDelta r) (latitude c)
  /\ within_half_span (r_longitude r) (longitudeDelta r) (longitude c).

(** The rounding error allowed for one operation on the value [x]: a
    relative part of [2 ^ -48] and an absolute part of [2 ^ -1070], which
    bound the error of a correctly rounded double with room to spare. *)
Definition rounding_error (x : Q) : Q :=
  (2 ^ (-48) * Qabs x + 2 ^ (-1070))%Q.

(** The value [v] is a rounding of [x]. *)
Definition near (v x : Q) : Prop :=
  (Qabs (v - x) <= rounding_error x)%Q.

(** The coordinate lies within [-2^32, 2^32], which every latitude and
    longitude does. *)
Definition in_range (x : float) : bool :=
  (-4294967296 <=? x) && (x <=? 4294967296).

Definition all_in_range (coordinates : list LocationCoordinates) : bool :=
  forallb (fun c => in_range (latitude c) && in_range (longitude c))
          coordinates.

(** The [useState] initial markers. *)
Definition initialCollectionCenter : LocationCoordinates :=
  {| latitude := 6.9147; longitude := 79.8731 |}.

Definition initialHospital : LocationCoordinates :=
  {| latitude := 6.9236; longitude := 79.8581 |}.

(** A spec value that is zero or finite. *)
Definition finite_sf (x : spec_float) : bool :=
  match x with
  | S754_zero _ | S754_finite _ _ _ => true
  | _ => false
  end.

(** The magnitude of a finite double with mantissa [m] and exponent [e]. *)
Definition magnitude (m : positive) (e : Z) : Q :=
  (inject_Z (Zpos m) * 2 ^ e)%Q.

End MapRegion.

(** ** Delivery-created screen: rider status polling *)

Module DeliveryCreated.
Import Types.

Record Rider : Type := mkRider {
  r_id : string;
  r_rider_name : string;
  r_phone : string;
  r_vehicle_type : string;
  r_vehicle_registration : string
}.

Record RiderStatus : Type := mkRiderStatus {
  rs_status : string;
  rs_rider : option Rider;
  rs_last_updated : option string
}.

Record ScreenState : Type := mkScreen {
  riderStatus : RiderStatus;
  isLoadingRider : bool
}.

Definition initialState : ScreenState :=
  {| riderStatus := {| rs_status := "pending_rider_assignment";
                       rs_rider := None;
                       rs_last_updated := None |};
     isLoadingRider := true |}.

(** [pollRiderStatus], from the outcome of [getOrderById] on. *)
Definition pollRiderStatus
    (response : Outcome (ApiResponse ActiveDelivery.OrderDetails))
    (st : ScreenState) : ScreenState :=
  match response with
  | Threw _ => {| riderStatus := riderStatus st; isLoadingRider := false |}
  | Returned r =>
      match (if success r then data r else None) with
      | Some d =>
          let order := ActiveDelivery.order d in
          {| riderStatus :=
               {| rs_status := status order;
                  rs_rider :=
                    if truthy (rider_id order) then
                      Some {| r_id := text_or (rider_id order) EmptyString;
                              r_rider_name :=
                                text_or
                                  (or_else (rider_info_name order) (rider_name order))
                                  "Rider";
                              r_phone :=
                                text_or
                                  (or_else (rider_info_phone order) (rider_phone order))
                                  EmptyString;
                              r_vehicle_type :=
                                text_or (rider_info_vehicle_type order)
                                  "Vehicle";
                              r_vehicle_registration :=
                                text_or
                                  (rider_info_vehicle_registration order) "N/A" |}
                    else None;
                  rs_last_updated := updated_at order |};
             isLoadingRider := false |}
      | None => st
      end
  end.

End DeliveryCreated.

(** ** The polling effects: interval timers and requests in flight

    The [useEffect] bodies register an interval timer, start a first
    request, and return a cleanup that clears the timer.  A world holds the
    component state, the registered timers with their periods, and the
    requests that were started and have not settled.  Events: a timer fires,
    a request settles, and the cleanup runs (on unmount, or before the
    effect runs again for changed dependencies). *)

Module Polling.

Section Loop.

Variables UI Resp : Type.

(** What the polling callback does once its request has settled. *)
Variable on_settled : Outcome Resp -> UI -> UI.

(** The second argument of [setInterval], in milliseconds. *)
Variable period : Z.

Record World : Type := mkWorld {
  ui : UI;
  timers : list (nat * Z);
  inflight : list nat;
  next_id : nat
}.

Inductive Event : Type :=
| TimerFired (handle : nat)
| Settled (request : nat) (r : Outcome Resp)
| Cleanup (handle : nat).

Definition has_timer (h : nat) (w : World) : bool :=
  existsb (fun t => Nat.eqb (fst t) h) (timers w).

(** Calling the polling callback: the request goes out. *)
Definition start_request (w : World) : World :=
  {| ui := ui w; timers := timers w;
     inflight := next_id w :: inflight w; next_id := S (next_id w) |}.

Definition setInterval (w : World) : World * nat :=
  ({| ui := ui w; timers := (next_id w, period) :: timers w;
      inflight := inflight w; next_id := S (next_id w) |}, next_id w).

Definition clearInterval (h : nat) (w : World) : World :=
  {| ui := ui w;
     timers := filter (fun t => negb (Nat.eqb (fst t) h)) (timers w);
     inflight := inflight w; next_id := next_id w |}.

Definition step (w : World) (e : Event) : World :=
  match e with
  | TimerFired h => if has_timer h w then start_request w else w
  | Settled f r =>
      if existsb (Nat.eqb f) (inflight w)
      then {| ui := on_settled r (ui w);
              timers := timers w;
              inflight := filter (fun g => negb (Nat.eqb g f)) (inflight w);
              next_id := next_id w |}
      else w
  | Cleanup h => clearInterval h w
  end.

Definition run (w : World) (events : list Event) : World :=
  fold_left step events w.

(** The effect of the active-delivery screen: nothing without a rider;
    otherwise [setInterval] and then a first call. *)
Definition location_effect (has_rider : bool) (w : World) : World * option nat :=
  if has_rider then
    let (w1, h) := setInterval w in (start_request w1, Some h)
  else (w, None).

(** The effect of the delivery-created screen: a first call and then
    [setInterval]. *)
Definition status_effect (w : World) : World * nat :=
  setInterval (start_request w).

(** The period of the timer registered under [h], if any. *)
Definition poll_interval (h : nat) (w : World) : option Z :=
  option_map snd (find (fun t => Nat.eqb (fst t) h) (timers w)).

Definition is_cleanup (e : Event) : bool :=
  match e with Cleanup _ => true | _ => false end.

(** Whether an event is no successful fetch, [failed] telling which
    outcomes of a request count as failures. *)
Definition is_failure (failed : Outcome Resp -> bool) (e : Event) : bool :=
  match e with
  | Settled _ r => failed r
  | _ => true
  end.

End Loop.

Arguments ui {UI} _.
Arguments timers {UI} _.
Arguments inflight {UI} _.
Arguments next_id {UI} _.
Arguments mkWorld {UI} _ _ _ _.
Arguments TimerFired {Resp} _.
Arguments Settled {Resp} _ _.
Arguments Cleanup {Resp} _.
Arguments is_cleanup {Resp} _.
Arguments is_failure {Resp} _ _.

(** The interval the specification asks for after [failures] consecutive
    failed fetches: doubled each time, capped at [ceiling]. *)
Definition spec_retry_interval (base ceiling : Z) (failures : nat) : Z :=
  Z.min (base * 2 ^ Z.of_nat failures) ceiling.

End Polling.

(** The two polling loops. *)

(** A fetch fails when the request throws or the response does not report
    success. *)
Definition fetch_failed {T : Type} (r : Outcome (Types.ApiResponse T)) : bool :=
  match r with
  | Threw _ => true
  | Returned resp => negb (Types.success resp)
  end.

Definition location_period : Z := 30000.
Definition status_period : Z := 5000.

Definition location_world : Type := Polling.World ActiveDelivery.LocationState.
Definition status_world : Type := Polling.World DeliveryCreated.ScreenState.

Definition location_step :=
  Polling.step _ _ ActiveDelivery.pollRiderLocation.
Definition location_run :=
  Polling.run _ _ ActiveDelivery.pollRiderLocation.
Definition status_step :=
  Polling.step _ _ DeliveryCreated.pollRiderStatus.
Definition status_run :=
  Polling.run _ _ DeliveryCreated.pollRiderStatus.

(** ** Custody scans *)

Module Custody.

(** [ChainOfCustodyItem] as the order-details screen declares it.  The
    screen only displays such items; its list is always set to the empty
    array. *)
Record ChainOfCustodyItem : Type := mkItem {
  scan_id : string;
  item_scan_type : string;
  scanner_name : string;
  scan_successful : bool;
  scanned_at : string
}.

(** The chain-of-custody write of [loadOrderDetails]: when the order has a
    QR id the list is set to the empty array, otherwise it is left alone. *)
Definition load_chain_of_custody (qr_code_qr_id : option string)
    (chainOfCustody : list ChainOfCustodyItem) : list ChainOfCustodyItem :=
  if truthy qr_code_qr_id then [] else chainOfCustody.

(** Modelled from the spec: the two scan types of a custody scan event
    (the screen's display type also knows handover). *)
Inductive ScanType : Type := pickup | delivery.

Definition scan_type_eqb (a b : ScanType) : bool :=
  match a, b with
  | pickup, pickup | delivery, delivery => true
  | _, _ => false
  end.

(** Modelled from the spec: the custody scan event of section 3; the
    repository has no code that records a scan. *)
Record ScanEvent : Type := mkScan {
  scan_type : ScanType;
  order_id : string;
  performed_by : string;
  recorded_at : Z;
  scan_success : bool
}.


(** Modelled from the spec: whether the append-only log holds a successful
    scan of type [ty] for [order]. *)
Definition has_successful (log : list ScanEvent) (order : string) (ty : ScanType)
    : bool :=
  existsb (fun e => scan_type_eqb (scan_type e) ty
                    && (order_id e =? order) && scan_success e) log.

(** Modelled from the spec: whether the log holds a successful scan of type
    [ty] for [order] that was recorded strictly before the time [t]: the
    prior scan at [t' < t] of section 8. *)
Definition has_successful_before (log : list ScanEvent) (order : string)
    (ty : ScanType) (t : Z) : bool :=
  existsb (fun e => scan_type_eqb (scan_type e) ty
                    && (order_id e =? order) && scan_success e
                    && (recorded_at e <? t)%Z) log.

(** Modelled from the spec: the log is ordered by [recorded_at].  A new
    event goes after the events recorded no later than it; the events
    already in the log are neither changed nor removed. *)
Fixpoint insert_by_time (e : ScanEvent) (log : list ScanEvent)
    : list ScanEvent :=
  match log with
  | [] => [e]
  | x :: rest =>
      if (recorded_at x <=? recorded_at e)%Z
      then x :: insert_by_time e rest
      else e :: x :: rest
  end.









End Custody.

(** ** Sample data *)

(** A formatter that shows the timestamp as it is stored. *)
Definition raw_label (ts : string) : option string := Some ts.

(** An order with the given status, rider and step timestamps; the
    coordinates are those of the nested [locations] object. *)
Definition sample_order (st : string) (rider : option string)
    (assigned pickup_started picked_up delivered : option string)
    : Types.Order :=
  {| Types.id := "ord-1";
     Types.status := st;
     Types.rider_id := rider;
     Types.rider_name := None;
     Types.rider_phone := None;
     Types.rider_info_name := None;
     Types.rider_info_phone := None;
     Types.rider_info_vehicle_type := None;
     Types.rider_info_vehicle_registration := None;
     Types.sample_type := "blood";
     Types.sample_quantity := 2;
     Types.created_at := Some "2025-01-01T08:00:00Z";
     Types.updated_at := None;
     Types.assigned_at := assigned;
     Types.pickup_started_at := pickup_started;
     Types.picked_up_at := picked_up;
     Types.delivered_at := delivered;
     Types.estimated_delivery_time := None;
     Types.timing_estimated_delivery_time := None;
     Types.locations_pickup_lat := Some (Num (69 # 10));
     Types.locations_pickup_lng := Some (Num (799 # 10));
     Types.locations_delivery_lat := Some (Num (7 # 1));
     Types.locations_delivery_lng := Some (Num (80 # 1));
     Types.pickup_location_lat := None;
     Types.pickup_location_lng := None;
     Types.delivery_location_lat := None;
     Types.delivery_location_lng := None |}.

(** Status [delivery_started], every timestamp up to [pickup_started_at]
    set, [picked_up_at] missing. *)
Definition order_delivering_unstamped : Types.Order :=
  sample_order "delivery_started" (Some "rider-7")
    (Some "2025-01-01T08:05:00Z") (Some "2025-01-01T08:10:00Z") None None.

(** Status [assigned] with no [rider_id] and no later timestamp. *)
Definition order_assigned_riderless : Types.Order :=
  sample_order "assigned" None None None None None.

(** Waiting for a rider. *)
Definition order_waiting : Types.Order :=
  sample_order "pending_rider_assignment" None None None None None.

(** Two snapshots of one order that differ in [picked_up_at], and an older
    one that has no [picked_up_at] yet. *)
Definition snapshot_of (o : Types.Order)
    : Outcome (Types.ApiResponse ActiveDelivery.OrderDetails) :=
  Returned
    {| Types.success := true;
       Types.message := "ok";
       Types.data := Some {| ActiveDelivery.order := o;
                             ActiveDelivery.status_history := None |} |}.

Definition order_picked_up_first : Types.Order :=
  sample_order "picked_up" None
    (Some "2025-01-01T08:05:00Z") (Some "2025-01-01T08:10:00Z")
    (Some "2025-01-01T08:20:00Z") None.

Definition order_picked_up_second : Types.Order :=
  sample_order "picked_up" None
    (Some "2025-01-01T08:05:00Z") (Some "2025-01-01T08:10:00Z")
    (Some "2025-01-01T08:45:00Z") None.

Definition order_before_pickup : Types.Order :=
  sample_order "pickup_started" None
    (Some "2025-01-01T08:05:00Z") (Some "2025-01-01T08:10:00Z") None None.

(** An order in hospital handover: its status is one of the three handover
    values of [ORDER_STATUSES]. *)
Definition order_in_handover : Types.Order :=
  sample_order "handover_pending" (Some "rider-7")
    (Some "2025-01-01T08:05:00Z") (Some "2025-01-01T08:10:00Z")
    (Some "2025-01-01T08:20:00Z") None.

Definition no_qr : Outcome (Types.ApiResponse OrderService.OrderQR) :=
  Threw "No pickup QR code found for order".

(** The stored [picked_up_at] of the active-delivery screen. *)
Definition stored_picked_up_at (st : ActiveDelivery.ScreenState)
    : option (option string) :=
  option_map Types.picked_up_at (ActiveDelivery.orderData st).

(** The answer of the operations endpoint for an order that has neither
    tracking points nor a current rider location. *)
Definition details_without_location
    : Outcome (Types.ApiResponse OrderService.DetailsData) :=
  Returned
    {| Types.success := true;
       Types.message := "ok";
       Types.data := Some
         {| OrderService.d_order := Some
              {| OrderService.d_status := "assigned";
                 OrderService.d_rider_current_location := None;
                 OrderService.d_timing_estimated_delivery_time := Some "25 min";
                 OrderService.d_estimated_delivery_time := None |};
            OrderService.d_location_tracking := Some [] |} |}.

(** A parser that only knows the string [6.9]. *)
Definition parse_sample (s : string) : number :=
  if s =? "6.9" then Num (69 # 10) else NaN.

(** A location state that already shows a rider. *)
Definition state_showing_rider : ActiveDelivery.LocationState :=
  ActiveDelivery.with_rider (69 # 10) (799 # 10) (Some "12 min")
    ActiveDelivery.initialLocationState.

(** A world in which nothing has been registered yet. *)
Definition fresh_location_world (ls : ActiveDelivery.LocationState)
    : location_world :=
  Polling.mkWorld ls [] [] 0.

(** A tracking answer with a rider at (6.9, 79.9). *)
Definition tracking_with_rider
    : Outcome (Types.ApiResponse OrderService.TrackingData) :=
  Returned
    {| Types.success := true;
       Types.message := "Order tracking retrieved successfully";
       Types.data := Some
         {| OrderService.rider_location := Some
              {| OrderService.lat := Num (69 # 10);
                 OrderService.lng := Num (799 # 10);
                 OrderService.timestamp := Some "2025-01-01T09:00:00.000Z" |};
            OrderService.rider_current_location := None;
            OrderService.estimated_arrival := Some "12 min";
            OrderService.t_status := "picked_up" |} |}.

Definition network_failure
    : Outcome (Types.ApiResponse OrderService.TrackingData) :=
  Threw "Network request failed".

(** The markers of the initial location state, the same with a rider, and
    two markers at adjacent doubles near 2^50. *)
Section MapSamples.
Import Floats.
Local Open Scope float_scope.

Definition default_markers : list MapRegion.LocationCoordinates :=
  MapRegion.allCoordinates MapRegion.initialCollectionCenter
    MapRegion.initialHospital None.

Definition markers_with_rider : list MapRegion.LocationCoordinates :=
  MapRegion.allCoordinates MapRegion.initialCollectionCenter
    MapRegion.initialHospital (Some (MapRegion.mkCoordinates 6.9 79.9)).

Definition far_marker : MapRegion.LocationCoordinates :=
  MapRegion.mkCoordinates 1125899906842624.25 0.

Definition far_markers : list MapRegion.LocationCoordinates :=
  MapRegion.allCoordinates (MapRegion.mkCoordinates 1125899906842624 0)
    far_marker None.

End MapSamples.



(** * Further functions of the services and screens *)

(** ** Order service: dashboard metrics, recent activity, rider contact *)

Module OrderLists.
Import Types.

(** The fields of an order that the list operations read;
    [timing_delivered_at] is [order.timing?.delivered_at]. *)
Record ListedOrder : Type := mkListed {
  lo_id : string;
  lo_order_number : string;
  lo_hospital_id : string;
  lo_hospital_name : option string;
  lo_rider_id : option string;
  lo_sample_type : string;
  lo_urgency : string;
  lo_status : string;
  lo_created_at : string;
  lo_updated_at : option string;
  lo_timing_delivered_at : option string
}.

(** The payload of [getMyOrders]. *)
Record MyOrders : Type := mkMyOrders {
  orders : option (list ListedOrder);
  total : nat
}.

Record DashboardMetrics : Type := mkMetrics {
  total_orders_today : nat;
  in_transit_now : nat;
  completed_deliveries : nat;
  partner_hospitals : nat;
  today_increase : nat;
  with_riders : nat;
  pending : nat;
  completion_rate : Z;
  hospitals_active : string
}.

(** [Math.round]: the nearest integer, halves going up. *)
Definition Math_round (x : Q) : Z := Qfloor (x + (1 # 2))%Q.

Definition show_nat (n : nat) : string :=
  NilZero.string_of_uint (Nat.to_uint n).

Definition in_transit_statuses : list string :=
  [ "assigned"; "pickup_started"; "picked_up"; "delivery_started" ].

Section WithDates.

(** [new Date(s).toDateString()] and today's value of it. *)
Variable toDateString : string -> string.
Variable today : string.

Definition created_today (o : ListedOrder) : bool :=
  toDateString (lo_created_at o) =? today.

Definition delivered_today (o : ListedOrder) : bool :=
  (lo_status o =? "delivered")
  && (toDateString (text_or (lo_timing_delivered_at o) EmptyString) =? today).

Definition in_transit (o : ListedOrder) : bool :=
  includes in_transit_statuses (lo_status o).

(** The object that [getDashboardMetrics] computes from the orders. *)
Definition dashboard_metrics (all : list ListedOrder) : DashboardMetrics :=
  let todayOrders := filter created_today all in
  let inTransitOrders := filter in_transit all in
  let completedOrders := filter delivered_today all in
  let uniqueHospitals := nodup string_dec (map lo_hospital_id all) in
  {| total_orders_today := length todayOrders;
     in_transit_now := length inTransitOrders;
     completed_deliveries := length completedOrders;
     partner_hospitals := length uniqueHospitals;
     today_increase := if Nat.ltb 0 (length todayOrders) then 1 else 0;
     with_riders := length (filter (fun o => truthy (lo_rider_id o)) inTransitOrders);
     pending := length (filter (fun o => negb (truthy (lo_rider_id o))) inTransitOrders);
     completion_rate :=
       if Nat.ltb 0 (length todayOrders)
       then Math_round
              ((inject_Z (Z.of_nat (length completedOrders))
                / inject_Z (Z.of_nat (length todayOrders))) * 100)%Q
       else 100%Z;
     hospitals_active := show_nat (length uniqueHospitals) ++ " active" |}.

(** [getDashboardMetrics], from the outcome of [getMyOrders] on. *)
Definition getDashboardMetrics (ordersResponse : Outcome (ApiResponse MyOrders))
    : Outcome (ApiResponse DashboardMetrics) :=
  match ordersResponse with
  | Threw e => Threw e
  | Returned r =>
      match (if success r then data r else None) with
      | Some {| orders := Some all |} =>
          Returned {| success := true;
                      message := "Dashboard metrics calculated successfully";
                      data := Some (dashboard_metrics all) |}
      | _ => Threw "Failed to calculate dashboard metrics"
      end
  end.

End WithDates.

(** [s.replace('_', ' ')]: a string pattern replaces its first occurrence
    only. *)
Fixpoint replace_first_underscore (s : string) : string :=
  match s with
  | EmptyString => EmptyString
  | String c rest =>
      if Ascii.eqb c "_" then String " " rest
      else String c (replace_first_underscore rest)
  end.

(** The number of underscores in a string. *)
Fixpoint underscores (s : string) : nat :=
  match s with
  | EmptyString => 0
  | String c rest => (if Ascii.eqb c "_" then 1 else 0) + underscores rest
  end.





Record RiderContact : Type := mkContact {
  contact_name : string;
  contact_phone : string
}.

(** [contactRider], from the outcome of [getOrderById] on. *)
Definition contactRider
    (response : Outcome (ApiResponse ActiveDelivery.OrderDetails))
    : Outcome (ApiResponse RiderContact) :=
  match response with
  | Threw e => Threw e
  | Returned r =>
      match (if success r then data r else None) with
      | Some d =>
          let order := ActiveDelivery.order d in
          if truthy (rider_id order) then
            Returned
              {| success := true;
                 message := "Rider contact retrieved successfully";
                 data := Some
                   {| contact_name :=
                        text_or (or_else (rider_info_name order) (rider_name order))
                                "Rider";
                      contact_phone :=
                        text_or (or_else (rider_info_phone order) (rider_phone order))
                                "N/A" |} |}
          else Threw "No rider assigned to this order"
      | None => Threw "No rider assigned to this order"
      end
  end.

End OrderLists.

(** ** Delivery-created screen: status text *)

Module DeliveryStatusText.

(** [getStatusMessage] of [renderRiderStatus]. *)
Definition getStatusMessage (status : string) : string :=
  if status =? "pending_rider_assignment" then "Finding nearby rider..."
  else if status =? "assigned" then "Rider assigned! Preparing for pickup"
  else if status =? "pickup_started" then "Rider is on the way to collect samples"
  else if status =? "picked_up" then "Samples collected! En route to hospital"
  else if status =? "delivery_started" then "Rider is delivering to hospital"
  else if status =? "delivered" then "Delivery completed successfully!"
  else if status =? "cancelled" then "Delivery has been cancelled"
  else "Status unknown".

End DeliveryStatusText.

(** ** Order-details screen: durations *)

Module OrderDetails.


Section WithClock.

(** [new Date(s).getTime()], in milliseconds; [None] stands for [NaN], the
    time of an unparsable date. *)
Variable getTime : string -> option Z.


End WithClock.

End OrderDetails.

(** ** Events of the active-delivery screen *)

(** What the screen reacts to: a loaded order and a settled tracking
    request. *)
Inductive ScreenEvent : Type :=
| Loaded (details : ActiveDelivery.OrderDetails)
| Tracked (response : Outcome (Types.ApiResponse OrderService.TrackingData)).

(** [setLocationState(f)] on the component state. *)
Definition update_location
    (f : ActiveDelivery.LocationState -> ActiveDelivery.LocationState)
    (st : ActiveDelivery.ScreenState) : ActiveDelivery.ScreenState :=
  {| ActiveDelivery.orderData := ActiveDelivery.orderData st;
     ActiveDelivery.isLoading := ActiveDelivery.isLoading st;
     ActiveDelivery.qrData := ActiveDelivery.qrData st;
     ActiveDelivery.timeline := ActiveDelivery.timeline st;
     ActiveDelivery.locationState := f (ActiveDelivery.locationState st) |}.

(** The component state after an event: a loaded order goes through the
    state writes of [loadOrderData], a tracking answer through
    [pollRiderLocation]. *)
Definition screen_after (fmt : string -> option string)
    (st : ActiveDelivery.ScreenState) (e : ScreenEvent)
    : ActiveDelivery.ScreenState :=
  match e with
  | Loaded details => ActiveDelivery.apply_order fmt details st
  | Tracked response =>
      update_location (ActiveDelivery.pollRiderLocation response) st
  end.

(** A stored coordinate pair has neither component zero. *)
Definition nonzero_pair (c : ActiveDelivery.LocationCoordinates) : Prop :=
  ~ (ActiveDelivery.latitude c == 0)%Q /\ ~ (ActiveDelivery.longitude c == 0)%Q.

Definition nonzero_coordinates (ls : ActiveDelivery.LocationState) : Prop :=
  nonzero_pair (ActiveDelivery.collectionCenter ls)
  /\ nonzero_pair (ActiveDelivery.hospital ls)
  /\ match ActiveDelivery.riderLocation ls with
     | Some r => nonzero_pair r
     | None => True
     end.

Definition is_current (s : Timeline.StepStatus) : bool :=
  match s with
  | Timeline.current => true
  | _ => false
  end.

(** Whether [pollRiderLocation] takes the rider position of a tracking
    payload: both coordinates it reads are truthy. *)
Definition takes_rider_position (d : OrderService.TrackingData) : bool :=
  truthy_opt (ActiveDelivery.tracked_lat d)
  && truthy_opt (ActiveDelivery.tracked_lng d).

(** ** Active-delivery screen: loading a response that may lack the order

    [getOrderById] is declared to return an [order], but nothing checks the
    response and [loadOrderData] reads [orderResponse.data.order] without a
    guard.  Here the order may be missing; [ActiveDelivery.loadOrderData]
    is the same function on the responses that carry one. *)

Module ActiveDeliveryRaw.
Import Types.

(** The data of the order response as it arrives. *)
Record OrderDetails : Type := mkOrderDetails {
  order : option Order;
  status_history : option (list ActiveDelivery.StatusHistoryItem)
}.

(** [setOrderData(undefined)] *)
Definition clear_order (st : ActiveDelivery.ScreenState)
    : ActiveDelivery.ScreenState :=
  {| ActiveDelivery.orderData := None;
     ActiveDelivery.isLoading := ActiveDelivery.isLoading st;
     ActiveDelivery.qrData := ActiveDelivery.qrData st;
     ActiveDelivery.timeline := ActiveDelivery.timeline st;
     ActiveDelivery.locationState := ActiveDelivery.locationState st |}.

Section WithLocale.

Variable toLocaleTimeString : string -> option string.

(** [loadOrderData].  When the data has no order, [setOrderData(order)]
    stores [undefined] and the next statement, which reads
    [order.locations], throws a TypeError inside the [try]: the [catch]
    block raises the alert and the [finally] block clears the loading
    flag. *)
Definition loadOrderData
    (orderResponse : Outcome (ApiResponse OrderDetails))
    (qrResponse : Outcome (ApiResponse OrderService.OrderQR))
    (st : ActiveDelivery.ScreenState)
    : ActiveDelivery.ScreenState * list string :=
  let st := ActiveDelivery.set_loading true st in
  match orderResponse with
  | Threw _ =>
      (ActiveDelivery.set_loading false st, ["Failed to load delivery details"])
  | Returned r =>
      match (if success r then data r else None) with
      | Some details =>
          match order details with
          | None =>
              (ActiveDelivery.set_loading false (clear_order st),
               ["Failed to load delivery details"])
          | Some o =>
              let st1 :=
                ActiveDelivery.apply_order toLocaleTimeString
                  {| ActiveDelivery.order := o;
                     ActiveDelivery.status_history := status_history details |}
                  st in
              if truthy (rider_id o) then
                match qrResponse with
                | Threw _ =>
                    (ActiveDelivery.set_loading false st1,
                     ["Failed to load delivery details"])
                | Returned q =>
                    match (if success q then data q else None) with
                    | Some qr =>
                        (ActiveDelivery.set_loading false
                           (ActiveDelivery.set_qr (OrderService.qr_data qr) st1),
                         [])
                    | None => (ActiveDelivery.set_loading false st1, [])
                    end
                end
              else (ActiveDelivery.set_loading false st1, [])
          end
      | None => (ActiveDelivery.set_loading false st, [])
      end
  end.

End WithLocale.

(** A response that carries its order, as it arrives. *)
Definition with_order (r : Outcome (ApiResponse ActiveDelivery.OrderDetails))
    : Outcome (ApiResponse OrderDetails) :=
  match r with
  | Threw e => Threw e
  | Returned resp =>
      Returned
        {| success := success resp;
           message := message resp;
           data :=
             option_map
               (fun d => {| order := Some (ActiveDelivery.order d);
                            status_history := ActiveDelivery.status_history d |})
               (data resp) |}
  end.

(** The order request ends in the [catch] block: it throws, or its
    successful response has data without an order. *)
Definition order_request_fails (r : Outcome (ApiResponse OrderDetails)) : Prop :=
  (exists e, r = Threw e)
  \/ (exists resp d,
        r = Returned resp /\ success resp = true /\ data resp = Some d
        /\ order d = None).

(** The QR request is made, for an order with a rider, and throws. *)
Definition qr_request_fails (r : Outcome (ApiResponse OrderDetails))
    (q : Outcome (ApiResponse OrderService.OrderQR)) : Prop :=
  exists resp d o e,
    r = Returned resp /\ success resp = true /\ data resp = Some d
    /\ order d = Some o /\ truthy (rider_id o) = true /\ q = Threw e.

End ActiveDeliveryRaw.

(** * Further sample data *)

(** The date part of an ISO timestamp, standing for [toDateString]. *)
Definition date_part (s : string) : string := substring 0 10 s.

Definition sample_today : string := "2025-01-01".

Definition listed (ident status : string) (rider : option string)
    (created : string) (delivered : option string) : OrderLists.ListedOrder :=
  {| OrderLists.lo_id := ident;
     OrderLists.lo_order_number := "ORD-" ++ ident;
     OrderLists.lo_hospital_id := "hosp-1";
     OrderLists.lo_hospital_name := Some "General Hospital";
     OrderLists.lo_rider_id := rider;
     OrderLists.lo_sample_type := "blood";
     OrderLists.lo_urgency := "routine";
     OrderLists.lo_status := status;
     OrderLists.lo_created_at := created;
     OrderLists.lo_updated_at := None;
     OrderLists.lo_timing_delivered_at := delivered |}.

(** One order delivered today, one on its way, one waiting for a rider. *)
Definition listed_orders : list OrderLists.ListedOrder :=
  [ listed "1" "delivered" (Some "rider-7") "2025-01-01T08:00:00Z"
      (Some "2025-01-01T09:30:00Z");
    listed "2" "picked_up" (Some "rider-8") "2025-01-01T08:30:00Z" None;
    listed "3" "pending_rider_assignment" None "2025-01-01T08:45:00Z" None ].


(** An order with a rider of whom neither name nor phone is known. *)
Definition order_with_unnamed_rider : Types.ApiResponse ActiveDelivery.OrderDetails :=
  {| Types.success := true;
     Types.message := "ok";
     Types.data := Some
       {| ActiveDelivery.order :=
            sample_order "assigned" (Some "rider-7")
              (Some "2025-01-01T08:05:00Z") None None None;
          ActiveDelivery.status_history := None |} |}.

(** What the tracking operation makes of [details_without_location] at
    nine o'clock. *)
Definition tracking_without_location : Types.ApiResponse OrderService.TrackingData :=
  {| Types.success := true;
     Types.message := "Order tracking retrieved successfully";
     Types.data := Some
       {| OrderService.rider_location := Some
            {| OrderService.lat := Num 0;
               OrderService.lng := Num 0;
               OrderService.timestamp := Some "2025-01-01T09:00:00.000Z" |};
          OrderService.rider_current_location := None;
          OrderService.estimated_arrival := Some "25 min";
          OrderService.t_status := "assigned" |} |}.

(** The answer of the operations endpoint for an order without an estimate
    whose rider was last tracked at (6.9, 79.9), and what the tracking
    operation makes of it. *)
Definition details_with_point
    : Outcome (Types.ApiResponse OrderService.DetailsData) :=
  Returned
    {| Types.success := true;
       Types.message := "ok";
       Types.data := Some
         {| OrderService.d_order := Some
              {| OrderService.d_status := "picked_up";
                 OrderService.d_rider_current_location := None;
                 OrderService.d_timing_estimated_delivery_time := None;
                 OrderService.d_estimated_delivery_time := None |};
            OrderService.d_location_tracking := Some
              [ {| OrderService.location_lat := JNum (Num (69 # 10));
                   OrderService.location_lng := JNum (Num (799 # 10));
                   OrderService.recorded_at := Some "2025-01-01T08:59:00Z" |} ]
         |} |}.

Definition tracking_of_point : Types.ApiResponse OrderService.TrackingData :=
  {| Types.success := true;
     Types.message := "Order tracking retrieved successfully";
     Types.data := Some
       {| OrderService.rider_location := Some
            {| OrderService.lat := Num (69 # 10);
               OrderService.lng := Num (799 # 10);
               OrderService.timestamp := Some "2025-01-01T08:59:00Z" |};
          OrderService.rider_current_location := None;
          OrderService.estimated_arrival := Some "N/A";
          OrderService.t_status := "picked_up" |} |}.

(** A location state that shows a rider elsewhere, with an estimate. *)
Definition state_showing_other_rider : ActiveDelivery.LocationState :=
  ActiveDelivery.with_rider (7 # 1) (80 # 1) (Some "12 min")
    ActiveDelivery.initialLocationState.

(** A successful order response whose data has no order. *)
Definition response_without_order
    : Outcome (Types.ApiResponse ActiveDeliveryRaw.OrderDetails) :=
  Returned
    {| Types.success := true;
       Types.message := "ok";
       Types.data := Some {| ActiveDeliveryRaw.order := None;
                             ActiveDeliveryRaw.status_history := None |} |}.


(** * Theorems *)

(** ** Timeline *)

Section TimelineFacts.
Import Types Timeline.

Ltac case_status s :=
  destruct (String.eqb_spec s "pending_rider_assignment") as [-> | ?];
  [ | destruct (String.eqb_spec s "assigned") as [-> | ?];
  [ | destruct (String.eqb_spec s "pickup_started") as [-> | ?];
  [ | destruct (String.eqb_spec s "picked_up") as [-> | ?];
  [ | destruct (String.eqb_spec s "delivery_started") as [-> | ?];
  [ | destruct (String.eqb_spec s "delivered") as [-> | ?] ] ] ] ] ].

Ltac case_stamps :=
  repeat match goal with
         | |- context [truthy ?x] => destruct (truthy x)
         end.

Lemma statuses_of_timeline :
  forall (fmt : string -> option string) (H : Type) (o : Order) (h : list H),
    map step_status (buildTimelineFromOrder fmt o h) =
      [ completed;
        code_state o 2 (assigned_at o);
        code_state o 3 (pickup_started_at o);
        code_state o 4 (picked_up_at o);
        code_state o 5 (delivered_at o) ].
Proof.
  intros fmt H o h.
  unfold buildTimelineFromOrder, includes, currentOrderStatuses,
    timelineSteps, code_state, lookup_step, initial_status, is_current_step.
  cbn -[String.eqb truthy].
  generalize (status o); intro st.
  case_status st; cbn -[truthy]; case_stamps; reflexivity.
Qed.

Lemma mark_first_current_titles :
  forall p steps, map title (mark_first_current p steps) = map title steps.
Proof.
  intros p steps; induction steps as [| s rest IH]; simpl; [reflexivity |].
  destruct (p s); simpl; [reflexivity | now rewrite IH].
Qed.

Lemma mark_first_current_times :
  forall p steps, map time (mark_first_current p steps) = map time steps.
Proof.
  intros p steps; induction steps as [| s rest IH]; simpl; [reflexivity |].
  destruct (p s); simpl; [reflexivity | now rewrite IH].
Qed.

Lemma formatTime_unset :
  forall fmt ts, truthy ts = false -> formatTime fmt ts = "Pending".
Proof. intros fmt ts E; unfold formatTime; now rewrite E. Qed.

Lemma formatTime_set :
  forall fmt ts, truthy (Some ts) = true ->
    formatTime fmt (Some ts) =
      match fmt ts with Some label => label | None => "Pending" end.
Proof. intros fmt ts E; unfold formatTime; now rewrite E. Qed.

(** C1, as the code has it.  The first step is always completed.  For the
    steps two to five, the step that the order's status points at
    (pending_rider_assignment: Rider Assignment; assigned and
    pickup_started: En Route to Pickup; picked_up: Samples Collected;
    delivery_started: Delivered to Hospital) is current whether or not its
    timestamp is set; any other step is completed iff its timestamp is
    set, and without a timestamp it is pending, except that Delivered to
    Hospital is current for status delivered.  In particular, for status
    delivery_started the Delivered to Hospital step is current, and the
    Samples Collected step is pending when picked_up_at is missing. *)
Theorem timeline_states_follow_status_lookup :
  forall (fmt : string -> option string) (H : Type) (o : Order) (h : list H),
    map step_status (buildTimelineFromOrder fmt o h) =
      [ completed;
        code_state o 2 (assigned_at o);
        code_state o 3 (pickup_started_at o);
        code_state o 4 (picked_up_at o);
        code_state o 5 (delivered_at o) ]
    /\ (status o = "delivery_started" ->
        truthy (picked_up_at o) = false ->
        nth_error (map step_status (buildTimelineFromOrder fmt o h)) 3 = Some pending
        /\ nth_error (map step_status (buildTimelineFromOrder fmt o h)) 4 = Some current).
Proof.
  intros fmt H o h; split; [apply statuses_of_timeline |].
  intros Hs Hp; rewrite statuses_of_timeline; unfold code_state.
  rewrite Hs, Hp; split; reflexivity.
Qed.

Lemma timeline_states_follow_status_lookup_witness :
  map (fun s => (title s, step_status s))
      (buildTimelineFromOrder raw_label order_delivering_unstamped
         (@nil string)) =
    [ ("Order Created", completed);
      ("Rider Assignment", completed);
      ("En Route to Pickup", completed);
      ("Samples Collected", pending);
      ("Delivered to Hospital", current) ]
  /\ nth_error (map step_status
                 (buildTimelineFromOrder raw_label order_delivering_unstamped
                    (@nil string))) 3 = Some pending
  /\ nth_error (map step_status
                 (buildTimelineFromOrder raw_label order_delivering_unstamped
                    (@nil string))) 4 = Some current.
Proof.
  split; [reflexivity |].
  apply (proj2 (timeline_states_follow_status_lookup raw_label string
                  order_delivering_unstamped [])); reflexivity.
Defined.

(** C1 as stated fails: for status delivery_started without picked_up_at,
    the code marks Samples Collected pending and Delivered to Hospital
    current, while the timestamp rule makes Samples Collected current. *)
Lemma timeline_current_step_disagrees_with_timestamps :
  map step_status
      (buildTimelineFromOrder raw_label order_delivering_unstamped (@nil string))
    = [completed; completed; completed; pending; current]
  /\ spec_states order_delivering_unstamped
    = [completed; completed; completed; current; pending]
  /\ map step_status
       (buildTimelineFromOrder raw_label order_delivering_unstamped (@nil string))
     <> spec_states order_delivering_unstamped.
Proof.
  split; [reflexivity | split; [reflexivity | discriminate]].
Qed.

(** C7, as the code has it.  The derivation returns, for every order, the
    five steps with their fixed titles; each time label is the formatted
    timestamp, or Pending when the timestamp is unset or formatting
    throws.  The rider is not consulted for the step states: when the
    status is none of assigned, pickup_started, picked_up,
    delivery_started and delivered, and pickup_started_at, picked_up_at
    and delivered_at are unset, the steps after Rider Assignment are
    pending. *)
Theorem timeline_total_five_steps :
  forall (fmt : string -> option string) (H : Type) (o : Order) (h : list H),
    map title (buildTimelineFromOrder fmt o h) =
      [ "Order Created"; "Rider Assignment"; "En Route to Pickup";
        "Samples Collected"; "Delivered to Hospital" ]
    /\ map time (buildTimelineFromOrder fmt o h) =
         map (formatTime fmt) (step_stamps o)
    /\ (forall ts, truthy ts = false -> formatTime fmt ts = "Pending")
    /\ (forall ts, truthy (Some ts) = true ->
          formatTime fmt (Some ts) =
            match fmt ts with Some label => label | None => "Pending" end)
    /\ (includes ["assigned"; "pickup_started"; "picked_up";
                  "delivery_started"; "delivered"] (status o) = false ->
        truthy (pickup_started_at o) = false ->
        truthy (picked_up_at o) = false ->
        truthy (delivered_at o) = false ->
        skipn 2 (map step_status (buildTimelineFromOrder fmt o h)) =
          [pending; pending; pending]).
Proof.
  intros fmt H o h.
  split; [| split; [| split; [| split]]].
  - unfold buildTimelineFromOrder.
    destruct (includes currentOrderStatuses (status o));
      [rewrite mark_first_current_titles |]; reflexivity.
  - unfold buildTimelineFromOrder.
    destruct (includes currentOrderStatuses (status o));
      [rewrite mark_first_current_times |]; reflexivity.
  - apply formatTime_unset.
  - apply formatTime_set.
  - intros Hs H3 H4 H5.
    rewrite statuses_of_timeline; unfold code_state, lookup_step.
    rewrite H3, H4, H5.
    revert Hs; unfold includes; cbn -[String.eqb].
    generalize (status o); intro st.
    case_status st; cbn; intros Hs; try discriminate Hs; reflexivity.
Qed.

Lemma timeline_total_five_steps_witness :
  map title (buildTimelineFromOrder raw_label order_waiting (@nil string)) =
    [ "Order Created"; "Rider Assignment"; "En Route to Pickup";
      "Samples Collected"; "Delivered to Hospital" ]
  /\ map time (buildTimelineFromOrder raw_label order_waiting (@nil string)) =
    [ "2025-01-01T08:00:00Z"; "Pending"; "Pending"; "Pending"; "Pending" ]
  /\ skipn 2 (map step_status
                (buildTimelineFromOrder raw_label order_waiting (@nil string))) =
    [pending; pending; pending].
Proof.
  destruct (timeline_total_five_steps raw_label string order_waiting [])
    as [Ht [Hl [_ [_ Hp]]]].
  split; [exact Ht | split; [exact Hl |]].
  apply Hp; reflexivity.
Defined.

(** C7 as stated fails: an order without a rider whose status is assigned
    has its En Route to Pickup step current, not pending. *)
Lemma timeline_no_rider_step_not_pending :
  truthy (rider_id order_assigned_riderless) = false
  /\ map (fun s => (title s, step_status s))
       (buildTimelineFromOrder raw_label order_assigned_riderless (@nil string)) =
     [ ("Order Created", completed);
       ("Rider Assignment", pending);
       ("En Route to Pickup", current);
       ("Samples Collected", pending);
       ("Delivered to Hospital", pending) ]
  /\ skipn 2 (map step_status
               (buildTimelineFromOrder raw_label order_assigned_riderless
                  (@nil string)))
     <> [pending; pending; pending].
Proof.
  split; [reflexivity | split; [reflexivity | discriminate]].
Qed.

End TimelineFacts.

(** ** Status vocabulary *)

Section VocabularyFacts.
Import Types.

(** C2, as the code has it.  [ORDER_STATUSES] lists exactly ten distinct
    values: pending_rider_assignment, assigned, pickup_started, picked_up,
    delivery_started, delivered, cancelled, handover_pending,
    handover_accepted and handover_confirmed.  The value created is not
    among them.  The rider-status union of the delivery-created screen is
    exactly the first seven of them, in declaration order.  An order holds
    exactly one status value ([Order.status] is one field), and the field
    being typed [string], every string, so also each of the ten values, is
    the status of some order. *)
Theorem order_status_vocabulary_has_ten_values :
  NoDup ORDER_STATUSES
  /\ length ORDER_STATUSES = 10
  /\ (forall s, In s ORDER_STATUSES <->
        s = "pending_rider_assignment" \/ s = "assigned"
        \/ s = "pickup_started" \/ s = "picked_up"
        \/ s = "delivery_started" \/ s = "delivered" \/ s = "cancelled"
        \/ s = "handover_pending" \/ s = "handover_accepted"
        \/ s = "handover_confirmed")
  /\ ~ In "created" ORDER_STATUSES
  /\ RIDER_STATUSES = firstn 7 ORDER_STATUSES
  /\ (forall o : Order,
        exists s, status o = s /\ forall s', status o = s' -> s' = s)
  /\ (forall s : string, exists o : Order, status o = s).
Proof.
  split; [| split; [reflexivity | split; [| split; [| split; [| split]]]]].
  - unfold ORDER_STATUSES.
    repeat (constructor;
            [simpl; intros Hin;
             repeat (destruct Hin as [Hin | Hin]; [discriminate Hin |]);
             exact Hin |]).
    constructor.
  - intros s; unfold ORDER_STATUSES; simpl; split.
    + intros Hin.
      repeat (destruct Hin as [Hin | Hin]; [symmetry in Hin; tauto |]).
      contradiction.
    + intros Hs.
      repeat (destruct Hs as [Hs | Hs]; [symmetry in Hs; tauto |]).
      symmetry in Hs; tauto.
  - unfold ORDER_STATUSES; simpl; intros Hin.
    repeat (destruct Hin as [Hin | Hin]; [discriminate Hin |]).
    exact Hin.
  - reflexivity.
  - intros o; exists (status o); split; [reflexivity |].
    intros s' Hs; symmetry; exact Hs.
  - intros s; exists (sample_order s None None None None None); reflexivity.
Qed.

(** C2 as stated fails twice.  The vocabulary of the code is not the eight
    values of the claim: it holds handover_pending, which the claim lacks,
    and lacks created, which the claim lists.  And not every order holds
    one of the eight: [order_in_handover] holds handover_pending, a value
    of [ORDER_STATUSES] outside the eight. *)
Lemma order_status_vocabulary_is_not_the_eight :
  In "handover_pending" ORDER_STATUSES
  /\ ~ In "handover_pending" spec_status_vocabulary
  /\ In "created" spec_status_vocabulary
  /\ ~ In "created" ORDER_STATUSES
  /\ ~ (forall s, In s ORDER_STATUSES <-> In s spec_status_vocabulary)
  /\ In (status order_in_handover) ORDER_STATUSES
  /\ ~ In (status order_in_handover) spec_status_vocabulary
  /\ ~ (forall o : Order, In (status o) spec_status_vocabulary).
Proof.
  assert (Hh : In "handover_pending" ORDER_STATUSES) by (simpl; tauto).
  assert (Hn : ~ In "handover_pending" spec_status_vocabulary).
  { simpl; intros Hin.
    repeat (destruct Hin as [Hin | Hin]; [discriminate Hin |]).
    exact Hin. }
  assert (Hc : ~ In "created" ORDER_STATUSES).
  { simpl; intros Hin.
    repeat (destruct Hin as [Hin | Hin]; [discriminate Hin |]).
    exact Hin. }
  repeat split; try assumption.
  - simpl; tauto.
  - intros Hall; apply Hn, Hall, Hh.
  - intros Hall; apply Hn; exact (Hall order_in_handover).
Qed.

End VocabularyFacts.

(** ** Applying fetched snapshots *)

Section SnapshotFacts.
Import Types.

Lemma coord_or_idem :
  forall v prev,
    ActiveDelivery.coord_or v (ActiveDelivery.coord_or v prev) =
    ActiveDelivery.coord_or v prev.
Proof.
  intros [[| q] |] prev; unfold ActiveDelivery.coord_or; try reflexivity.
  destruct (Qeq_bool q 0); reflexivity.
Qed.

Lemma loadOrderData_idempotent :
  forall fmt r q st,
    fst (ActiveDelivery.loadOrderData fmt r q
           (fst (ActiveDelivery.loadOrderData fmt r q st))) =
    fst (ActiveDelivery.loadOrderData fmt r q st).
Proof.
  intros fmt r q st.
  unfold ActiveDelivery.loadOrderData.
  destruct r as [r | e]; [| reflexivity].
  destruct (if success r then data r else None) as [details |]; [| reflexivity].
  destruct (truthy (rider_id (ActiveDelivery.order details)));
    [destruct q as [q | e];
     [destruct (if success q then data q else None) as [qr |] |] |];
    unfold ActiveDelivery.apply_order, ActiveDelivery.set_loading,
      ActiveDelivery.set_qr;
    cbn -[ActiveDelivery.coord_or num_or];
    rewrite !coord_or_idem; reflexivity.
Qed.

Lemma pollRiderStatus_idempotent :
  forall r st,
    DeliveryCreated.pollRiderStatus r (DeliveryCreated.pollRiderStatus r st) =
    DeliveryCreated.pollRiderStatus r st.
Proof.
  intros r st; unfold DeliveryCreated.pollRiderStatus.
  destruct r as [r | e]; [| reflexivity].
  destruct (if success r then data r else None); reflexivity.
Qed.

(** C3, as the code has it.  The client keeps no write-once ledger: a
    successfully fetched snapshot replaces the stored order of the
    active-delivery screen, and the rider status of the delivery-created
    screen, so what is stored for a step is the timestamp of the last
    snapshot applied.  Applying the same fetched snapshot twice yields
    exactly the state that applying it once yields, on both screens. *)
Theorem snapshot_replaces_and_is_idempotent :
  forall fmt (r : Outcome (ApiResponse ActiveDelivery.OrderDetails))
         (q : Outcome (ApiResponse OrderService.OrderQR))
         (st : ActiveDelivery.ScreenState) (st' : DeliveryCreated.ScreenState)
         (details : ActiveDelivery.OrderDetails) (msg : string),
    fst (ActiveDelivery.loadOrderData fmt r q
           (fst (ActiveDelivery.loadOrderData fmt r q st))) =
      fst (ActiveDelivery.loadOrderData fmt r q st)
    /\ DeliveryCreated.pollRiderStatus r (DeliveryCreated.pollRiderStatus r st') =
         DeliveryCreated.pollRiderStatus r st'
    /\ ActiveDelivery.orderData
         (fst (ActiveDelivery.loadOrderData fmt
                 (Returned (mkResponse true msg (Some details))) q st)) =
         Some (ActiveDelivery.order details)
    /\ DeliveryCreated.rs_status
         (DeliveryCreated.riderStatus
            (DeliveryCreated.pollRiderStatus
               (Returned (mkResponse true msg (Some details))) st')) =
         status (ActiveDelivery.order details).
Proof.
  intros fmt r q st st' details msg.
  split; [apply loadOrderData_idempotent |].
  split; [apply pollRiderStatus_idempotent |].
  split; [| reflexivity].
  unfold ActiveDelivery.loadOrderData; cbn.
  destruct (truthy (rider_id (ActiveDelivery.order details)));
    [destruct q as [q | e];
     [destruct (if success q then data q else None) |] |];
    reflexivity.
Qed.

(** C3 as stated fails: a timestamp that is set is overwritten by the next
    snapshot, and cleared by a snapshot taken before the step. *)
Lemma snapshot_overwrites_timestamp :
  let st1 := fst (ActiveDelivery.loadOrderData raw_label
                    (snapshot_of order_picked_up_first) no_qr
                    ActiveDelivery.initialState) in
  let st2 := fst (ActiveDelivery.loadOrderData raw_label
                    (snapshot_of order_picked_up_second) no_qr st1) in
  let st3 := fst (ActiveDelivery.loadOrderData raw_label
                    (snapshot_of order_before_pickup) no_qr st2) in
  stored_picked_up_at st1 = Some (Some "2025-01-01T08:20:00Z")
  /\ stored_picked_up_at st2 = Some (Some "2025-01-01T08:45:00Z")
  /\ stored_picked_up_at st3 = Some None.
Proof.
  repeat split; reflexivity.
Qed.

End SnapshotFacts.

(** ** Tracking snapshot and the rider location on screen *)

Section TrackingFacts.
Import Types OrderService.

Lemma pollRiderLocation_invalid :
  forall (r : ApiResponse TrackingData) (d : TrackingData)
         (prev : ActiveDelivery.LocationState),
    data r = Some d ->
    truthy_opt (ActiveDelivery.tracked_lat d) = false
    \/ truthy_opt (ActiveDelivery.tracked_lng d) = false ->
    ActiveDelivery.pollRiderLocation (Returned r) prev = prev.
Proof.
  intros r d prev Hd Hbad; unfold ActiveDelivery.pollRiderLocation.
  destruct (success r); [rewrite Hd | reflexivity].
  destruct Hbad as [E | E]; rewrite E; cbn; [reflexivity |].
  now rewrite andb_false_r.
Qed.

(** C10.  Whenever the tracking operation returns, its payload holds a
    rider location.  With no tracking point and no current rider location
    that location is latitude 0, longitude 0, stamped with the current
    time.  The screen leaves its location state, the rider position and
    the estimated time included, as it was whenever the latitude or the
    longitude it reads is zero or missing; so it does for the (0, 0)
    answer of the tracking operation. *)
Theorem tracking_location_never_absent :
  forall (parse : string -> number) (now : string)
         (response : Outcome (ApiResponse DetailsData))
         (prev : ActiveDelivery.LocationState),
    (forall r, getOrderTracking parse now response = Returned r ->
       exists d loc,
         success r = true /\ data r = Some d /\ rider_location d = Some loc)
    /\ (forall msg o tracking,
          response = Returned (mkResponse true msg
                       (Some {| d_order := Some o;
                                d_location_tracking := tracking |})) ->
          tracking = None \/ tracking = Some [] ->
          truthy_val (current_lat o) && truthy_val (current_lng o) = false ->
          exists r d,
            getOrderTracking parse now response = Returned r
            /\ data r = Some d
            /\ rider_location d =
                 Some {| lat := Num 0; lng := Num 0; timestamp := Some now |}
            /\ ActiveDelivery.pollRiderLocation
                 (getOrderTracking parse now response) prev = prev)
    /\ (forall r d,
          data r = Some d ->
          truthy_opt (ActiveDelivery.tracked_lat d) = false
          \/ truthy_opt (ActiveDelivery.tracked_lng d) = false ->
          ActiveDelivery.pollRiderLocation (Returned r) prev = prev).
Proof.
  intros parse now response prev.
  split; [| split].
  - intros r Hr; unfold getOrderTracking in Hr.
    destruct response as [resp | e]; [| discriminate Hr].
    destruct (if success resp then data resp else None) as [[[o |] tr] |];
      try discriminate Hr.
    injection Hr as <-; cbn.
    eexists; eexists; repeat split.
  - intros msg o tracking -> Htr Hcur.
    assert (Hlatest : latest (match tracking with Some l => l | None => [] end)
                      = @None TrackPoint)
      by (destruct Htr as [-> | ->]; reflexivity).
    assert (Hres :
        getOrderTracking parse now
          (Returned (mkResponse true msg
             (Some {| d_order := Some o; d_location_tracking := tracking |}))) =
        Returned
          {| success := true;
             message := "Order tracking retrieved successfully";
             data := Some
               {| rider_location :=
                    Some {| lat := Num 0; lng := Num 0; timestamp := Some now |};
                  rider_current_location := None;
                  estimated_arrival :=
                    or_else (or_else (d_timing_estimated_delivery_time o)
                                     (d_estimated_delivery_time o))
                            (Some "N/A");
                  t_status := d_status o |} |}).
    { unfold getOrderTracking; cbn -[latest truthy_val current_lat current_lng].
      now rewrite Hlatest, Hcur. }
    rewrite Hres.
    eexists; eexists; split; [reflexivity |].
    split; [reflexivity |].
    split; [reflexivity |].
    eapply pollRiderLocation_invalid; [reflexivity |].
    left; reflexivity.
  - intros r d; apply pollRiderLocation_invalid.
Qed.

Lemma tracking_location_never_absent_witness :
  (exists r d,
      getOrderTracking parse_sample "2025-01-01T09:00:00.000Z"
        details_without_location = Returned r
      /\ data r = Some d
      /\ rider_location d =
           Some {| lat := Num 0; lng := Num 0;
                   timestamp := Some "2025-01-01T09:00:00.000Z" |}
      /\ ActiveDelivery.pollRiderLocation
           (getOrderTracking parse_sample "2025-01-01T09:00:00.000Z"
              details_without_location) state_showing_rider
         = state_showing_rider)
  /\ ActiveDelivery.riderLocation state_showing_rider =
       Some {| ActiveDelivery.latitude := 69 # 10;
               ActiveDelivery.longitude := 799 # 10 |}
  /\ ActiveDelivery.estimatedTimeToDelivery state_showing_rider = "12 min".
Proof.
  split; [| split; reflexivity].
  destruct (tracking_location_never_absent parse_sample
              "2025-01-01T09:00:00.000Z" details_without_location
              state_showing_rider) as [_ [Hsentinel _]].
  eapply Hsentinel; [reflexivity | right; reflexivity | reflexivity].
Defined.

End TrackingFacts.

(** ** Map region *)

Section RegionFacts.
Import Floats.
Import MapRegion.
Local Open Scope float_scope.

Lemma SFcompare_refl :
  forall x, x <> S754_nan -> SFcompare x x = Some Eq.
Proof.
  intros [[] | [] | | [] m e] Hx; simpl; try reflexivity; try congruence;
    now rewrite Z.compare_refl, Pos.compare_cont_refl.
Qed.

Lemma is_nan_spec :
  forall x, is_nan x = false <-> Prim2SF x <> S754_nan.
Proof.
  intros x; unfold is_nan; rewrite eqb_spec; unfold SFeqb; split.
  - intros H Hn; rewrite Hn in H; discriminate H.
  - intros H; now rewrite SFcompare_refl.
Qed.

Lemma is_finite_spec :
  forall x, is_finite x = true <-> finite_sf (Prim2SF x) = true.
Proof.
  intros x; unfold is_finite, is_nan, is_infinity.
  rewrite !eqb_spec, abs_spec.
  change (Prim2SF infinity) with (S754_infinity false).
  destruct (Prim2SF x) as [[] | [] | | [] m e]; unfold SFeqb; simpl;
    rewrite ?Z.compare_refl, ?Pos.compare_cont_refl; simpl;
    split; congruence.
Qed.

(** *** The order of doubles is the order of their values *)

Lemma Qcompare_Eq_intro : forall x y : Q, (x == y)%Q -> (x ?= y)%Q = Eq.
Proof. intros x y; apply Qeq_alt. Qed.

Lemma Qcompare_Lt_intro : forall x y : Q, (x < y)%Q -> (x ?= y)%Q = Lt.
Proof. intros x y; apply Qlt_alt. Qed.

Lemma Qcompare_Gt_intro : forall x y : Q, (y < x)%Q -> (x ?= y)%Q = Gt.
Proof. intros x y; apply Qgt_alt. Qed.

Lemma SF2Q_finite :
  forall s m e,
    (SF2Q (S754_finite s m e) ==
     if s then - magnitude m e else magnitude m e)%Q.
Proof.
  intros [] m e; unfold SF2Q, magnitude; [| reflexivity].
  change (Z.neg m) with (- Z.pos m)%Z; rewrite inject_Z_opp; ring.
Qed.

Lemma power_of_two_positive : forall e : Z, (0 < 2 ^ e)%Q.
Proof. intros e; now apply Qpower_0_lt. Qed.

Lemma magnitude_positive : forall m e, (0 < magnitude m e)%Q.
Proof.
  intros m e; unfold magnitude.
  apply Qmult_lt_0_compat; [| apply power_of_two_positive].
  change 0%Q with (inject_Z 0); rewrite <- Zlt_Qlt; reflexivity.
Qed.

Lemma digits2_pos_bounds :
  forall m : positive,
    (2 ^ (Z.pos (digits2_pos m) - 1) <= Z.pos m < 2 ^ Z.pos (digits2_pos m))%Z.
Proof.
  induction m as [m IH | m IH |]; simpl digits2_pos.
  - rewrite Pos2Z.inj_succ.
    replace (Z.succ (Z.pos (digits2_pos m)) - 1)%Z
      with (Z.succ (Z.pos (digits2_pos m) - 1))%Z by lia.
    rewrite !Z.pow_succ_r by lia; lia.
  - rewrite Pos2Z.inj_succ.
    replace (Z.succ (Z.pos (digits2_pos m)) - 1)%Z
      with (Z.succ (Z.pos (digits2_pos m) - 1))%Z by lia.
    rewrite !Z.pow_succ_r by lia; lia.
  - simpl; lia.
Qed.

Lemma canonical_bounds :
  forall m e,
    canonical_mantissa prec emax m e = true ->
    (Z.pos m < 2 ^ 53 /\ -1074 <= e /\ (-1074 < e -> 2 ^ 52 <= Z.pos m))%Z.
Proof.
  intros m e Hc; unfold canonical_mantissa, fexp, SpecFloat.emin in Hc.
  apply Z.eqb_eq in Hc; unfold prec, emax in Hc.
  destruct (digits2_pos_bounds m) as [Hlo Hhi].
  assert (Hd : (Z.pos (digits2_pos m) <= 53)%Z) by lia.
  repeat split.
  - apply Z.lt_le_trans with (1 := Hhi).
    apply Z.pow_le_mono_r; lia.
  - lia.
  - intros He.
    assert (Hd53 : Z.pos (digits2_pos m) = 53%Z) by lia.
    rewrite Hd53 in Hlo; exact Hlo.
Qed.

Lemma magnitude_lt_by_exponent :
  forall m1 e1 m2 e2,
    canonical_mantissa prec emax m1 e1 = true ->
    canonical_mantissa prec emax m2 e2 = true ->
    (e1 < e2)%Z ->
    (magnitude m1 e1 < magnitude m2 e2)%Q.
Proof.
  intros m1 e1 m2 e2 H1 H2 He.
  apply canonical_bounds in H1 as [Hm1 [He1 _]].
  apply canonical_bounds in H2 as [_ [_ Hm2]].
  specialize (Hm2 ltac:(lia)).
  unfold magnitude.
  replace e2 with (e1 + (e2 - e1))%Z by lia.
  rewrite Qpower_plus by discriminate.
  rewrite <- (Zpower_Qpower 2 (e2 - e1)) by lia.
  rewrite (Qmult_comm (2 ^ e1)), Qmult_assoc, <- inject_Z_mult.
  apply Qmult_lt_compat_r; [apply power_of_two_positive |].
  rewrite <- Zlt_Qlt.
  assert (Hk : (2 ^ 1 <= 2 ^ (e2 - e1))%Z) by (apply Z.pow_le_mono_r; lia).
  change (2 ^ 1)%Z with 2%Z in Hk.
  change (2 ^ 53)%Z with (2 ^ 52 * 2)%Z in Hm1.
  nia.
Qed.

Lemma magnitude_compare_same_exponent :
  forall m1 m2 e,
    (magnitude m1 e ?= magnitude m2 e)%Q = Pos.compare_cont Eq m1 m2.
Proof.
  intros m1 m2 e; change (Pos.compare_cont Eq m1 m2) with (Pos.compare m1 m2).
  unfold magnitude; pose proof (power_of_two_positive e) as Hp.
  destruct (Pos.compare_spec m1 m2) as [-> | Hlt | Hgt].
  - now apply Qcompare_Eq_intro.
  - apply Qcompare_Lt_intro, Qmult_lt_compat_r; [exact Hp |].
    rewrite <- Zlt_Qlt; exact Hlt.
  - apply Qcompare_Gt_intro, Qmult_lt_compat_r; [exact Hp |].
    rewrite <- Zlt_Qlt; exact Hgt.
Qed.

Lemma magnitude_compare :
  forall m1 e1 m2 e2,
    canonical_mantissa prec emax m1 e1 = true ->
    canonical_mantissa prec emax m2 e2 = true ->
    (magnitude m1 e1 ?= magnitude m2 e2)%Q =
    match (e1 ?= e2)%Z with
    | Lt => Lt
    | Gt => Gt
    | Eq => Pos.compare_cont Eq m1 m2
    end.
Proof.
  intros m1 e1 m2 e2 H1 H2.
  destruct (Z.compare_spec e1 e2) as [-> | Hlt | Hgt].
  - apply magnitude_compare_same_exponent.
  - now apply Qcompare_Lt_intro, magnitude_lt_by_exponent.
  - now apply Qcompare_Gt_intro, magnitude_lt_by_exponent.
Qed.

Lemma Qcompare_opp :
  forall x y : Q, (- x ?= - y)%Q = CompOpp (x ?= y)%Q.
Proof.
  intros x y.
  destruct (Qcompare_spec x y) as [H | H | H]; simpl.
  - apply Qcompare_Eq_intro; rewrite H; reflexivity.
  - apply Qcompare_Gt_intro; now apply Qopp_lt_compat.
  - apply Qcompare_Lt_intro; now apply Qopp_lt_compat.
Qed.

Lemma valid_canonical :
  forall s m e,
    valid_binary (S754_finite s m e) = true ->
    canonical_mantissa prec emax m e = true.
Proof.
  intros s m e H; simpl in H; unfold bounded in H.
  now apply andb_prop in H as [H _].
Qed.

(** On valid finite doubles [SFcompare] is the comparison of the values. *)
Lemma SFcompare_exact :
  forall x y,
    valid_binary x = true -> valid_binary y = true ->
    finite_sf x = true -> finite_sf y = true ->
    SFcompare x y = Some (SF2Q x ?= SF2Q y)%Q.
Proof.
  intros [sx | sx | | sx mx ex] [sy | sy | | sy my ey] Hvx Hvy Hfx Hfy;
    try discriminate Hfx; try discriminate Hfy.
  - reflexivity.
  - unfold SFcompare; f_equal; symmetry.
    rewrite (Qcompare_comp _ _ (reflexivity _) _ _ (SF2Q_finite sy my ey))
      by exact (Qeq_refl _).
    pose proof (magnitude_positive my ey) as Hp.
    destruct sy; [apply Qcompare_Gt_intro | apply Qcompare_Lt_intro]; cbn [SF2Q];
      revert Hp; generalize (magnitude my ey); intros; lra.
  - unfold SFcompare; f_equal; symmetry.
    rewrite (Qcompare_comp _ _ (SF2Q_finite sx mx ex) _ _ (reflexivity _)).
    pose proof (magnitude_positive mx ex) as Hp.
    destruct sx; [apply Qcompare_Lt_intro | apply Qcompare_Gt_intro]; cbn [SF2Q];
      revert Hp; generalize (magnitude mx ex); intros; lra.
  - apply valid_canonical in Hvx, Hvy.
    unfold SFcompare; f_equal; symmetry.
    rewrite (Qcompare_comp _ _ (SF2Q_finite sx mx ex) _ _
               (SF2Q_finite sy my ey)).
    pose proof (magnitude_positive mx ex) as Hpx.
    pose proof (magnitude_positive my ey) as Hpy.
    destruct sx, sy.
    + rewrite Qcompare_opp, (magnitude_compare _ _ _ _ Hvx Hvy).
      now destruct (ex ?= ey)%Z.
    + apply Qcompare_Lt_intro; revert Hpx Hpy.
      generalize (magnitude mx ex), (magnitude my ey); intros; lra.
    + apply Qcompare_Gt_intro; revert Hpx Hpy.
      generalize (magnitude mx ex), (magnitude my ey); intros; lra.
    + apply (magnitude_compare _ _ _ _ Hvx Hvy).
Qed.

Lemma finite_compare :
  forall x y,
    is_finite x = true -> is_finite y = true ->
    SFcompare (Prim2SF x) (Prim2SF y) = Some (exact x ?= exact y)%Q.
Proof.
  intros x y Hx Hy; apply SFcompare_exact;
    try apply Prim2SF_valid; now apply is_finite_spec.
Qed.

Lemma ltb_exact :
  forall x y,
    is_finite x = true -> is_finite y = true ->
    ((x <? y) = true -> (exact x < exact y)%Q)
    /\ ((x <? y) = false -> (exact y <= exact x)%Q).
Proof.
  intros x y Hx Hy; rewrite ltb_spec; unfold SFltb.
  rewrite (finite_compare x y Hx Hy).
  destruct (Qcompare_spec (exact x) (exact y)) as [H | H | H];
    split; intros Hc; try discriminate Hc; try assumption.
  - rewrite H; apply Qle_refl.
  - now apply Qlt_le_weak.
Qed.

Lemma leb_exact :
  forall x y,
    is_finite x = true -> is_finite y = true ->
    ((x <=? y) = true <-> (exact x <= exact y)%Q).
Proof.
  intros x y Hx Hy; rewrite leb_spec; unfold SFleb.
  rewrite (finite_compare x y Hx Hy).
  destruct (Qcompare_spec (exact x) (exact y)) as [H | H | H]; split;
    intros Hc; try reflexivity; try discriminate Hc.
  - rewrite H; apply Qle_refl.
  - now apply Qlt_le_weak.
  - exfalso; apply (Qlt_irrefl (exact y)).
    now apply Qlt_le_trans with (exact x).
Qed.

Lemma finite_not_nan : forall x, is_finite x = true -> is_nan x = false.
Proof.
  intros x H; unfold is_finite in H.
  apply negb_true_iff, orb_false_elim in H; tauto.
Qed.

Lemma negative_zero_exact :
  forall x, is_negative_zero x = true -> (exact x == 0)%Q.
Proof.
  intros x; unfold is_negative_zero, exact.
  rewrite classify_spec; unfold SF64classify, SFclassify.
  destruct (Prim2SF x) as [[] | [] | | [] m e]; try discriminate;
    try reflexivity;
    destruct (Z.pos (digits2_pos m) =? prec)%Z; discriminate.
Qed.

Lemma positive_zero_exact :
  forall x, is_positive_zero x = true -> (exact x == 0)%Q.
Proof.
  intros x; unfold is_positive_zero, exact.
  rewrite classify_spec; unfold SF64classify, SFclassify.
  destruct (Prim2SF x) as [[] | [] | | [] m e]; try discriminate;
    try reflexivity;
    destruct (Z.pos (digits2_pos m) =? prec)%Z; discriminate.
Qed.

(** *** [Math.min] and [Math.max] of finite numbers *)

Lemma Math_min_from_finite :
  forall values lowest,
    is_finite lowest = true ->
    forallb is_finite values = true ->
    is_finite (Math_min_from lowest values) = true
    /\ In (Math_min_from lowest values) (lowest :: values)
    /\ (exact (Math_min_from lowest values) <= exact lowest)%Q
    /\ (forall y, In y values ->
          (exact (Math_min_from lowest values) <= exact y)%Q).
Proof.
  induction values as [| x rest IH]; intros lowest Hl Hv; simpl.
  - repeat split; [exact Hl | now left | apply Qle_refl | intros y []].
  - simpl in Hv; apply andb_prop in Hv as [Hx Hrest].
    rewrite (finite_not_nan x Hx).
    destruct (is_positive_zero lowest && is_negative_zero x) eqn:Hzero.
    + apply andb_prop in Hzero as [Hpz Hnz].
      apply positive_zero_exact in Hpz; apply negative_zero_exact in Hnz.
      destruct (IH x Hx Hrest) as [Hf [Hin [Hle Hall]]].
      repeat split; [exact Hf | now right | |].
      * rewrite Hpz, <- Hnz; exact Hle.
      * intros y [<- | Hy]; [exact Hle | now apply Hall].
    + destruct (ltb_exact x lowest Hx Hl) as [Hlt Hge].
      destruct (x <? lowest).
      * specialize (Hlt eq_refl).
        destruct (IH x Hx Hrest) as [Hf [Hin [Hle Hall]]].
        repeat split; [exact Hf | now right | |].
        -- apply Qle_trans with (1 := Hle); now apply Qlt_le_weak.
        -- intros y [<- | Hy]; [exact Hle | now apply Hall].
      * specialize (Hge eq_refl).
        destruct (IH lowest Hl Hrest) as [Hf [Hin [Hle Hall]]].
        repeat split; [exact Hf | | exact Hle |].
        -- destruct Hin as [Hin | Hin]; [now left | now right; right].
        -- intros y [<- | Hy]; [| now apply Hall].
           now apply Qle_trans with (1 := Hle).
Qed.

Lemma Math_max_from_finite :
  forall values highest,
    is_finite highest = true ->
    forallb is_finite values = true ->
    is_finite (Math_max_from highest values) = true
    /\ In (Math_max_from highest values) (highest :: values)
    /\ (exact highest <= exact (Math_max_from highest values))%Q
    /\ (forall y, In y values ->
          (exact y <= exact (Math_max_from highest values))%Q).
Proof.
  induction values as [| x rest IH]; intros highest Hh Hv; simpl.
  - repeat split; [exact Hh | now left | apply Qle_refl | intros y []].
  - simpl in Hv; apply andb_prop in Hv as [Hx Hrest].
    rewrite (finite_not_nan x Hx).
    destruct (is_negative_zero highest && is_positive_zero x) eqn:Hzero.
    + apply andb_prop in Hzero as [Hnz Hpz].
      apply positive_zero_exact in Hpz; apply negative_zero_exact in Hnz.
      destruct (IH x Hx Hrest) as [Hf [Hin [Hle Hall]]].
      repeat split; [exact Hf | now right | |].
      * rewrite Hnz, <- Hpz; exact Hle.
      * intros y [<- | Hy]; [exact Hle | now apply Hall].
    + destruct (ltb_exact highest x Hh Hx) as [Hlt Hge].
      destruct (highest <? x).
      * specialize (Hlt eq_refl).
        destruct (IH x Hx Hrest) as [Hf [Hin [Hle Hall]]].
        repeat split; [exact Hf | now right | |].
        -- apply Qle_trans with (2 := Hle); now apply Qlt_le_weak.
        -- intros y [<- | Hy]; [exact Hle | now apply Hall].
      * specialize (Hge eq_refl).
        destruct (IH highest Hh Hrest) as [Hf [Hin [Hle Hall]]].
        repeat split; [exact Hf | | exact Hle |].
        -- destruct Hin as [Hin | Hin]; [now left | now right; right].
        -- intros y [<- | Hy]; [| now apply Hall].
           now apply Qle_trans with (2 := Hle).
Qed.

Lemma finite_below_infinity :
  forall x, is_finite x = true -> (x <? infinity) = true.
Proof.
  intros x Hx; apply is_finite_spec in Hx; rewrite ltb_spec.
  change (Prim2SF infinity) with (S754_infinity false).
  destruct (Prim2SF x) as [[] | [] | | [] m e]; try discriminate Hx;
    reflexivity.
Qed.

Lemma finite_above_neg_infinity :
  forall x, is_finite x = true -> (neg_infinity <? x) = true.
Proof.
  intros x Hx; apply is_finite_spec in Hx; rewrite ltb_spec.
  change (Prim2SF neg_infinity) with (S754_infinity true).
  destruct (Prim2SF x) as [[] | [] | | [] m e]; try discriminate Hx;
    reflexivity.
Qed.

Lemma Math_min_finite :
  forall values,
    values <> [] -> forallb is_finite values = true ->
    is_finite (Math_min values) = true
    /\ In (Math_min values) values
    /\ (forall y, In y values -> (exact (Math_min values) <= exact y)%Q).
Proof.
  intros [| x rest] Hne Hv; [congruence |].
  pose proof Hv as Hv'; simpl in Hv'; apply andb_prop in Hv' as [Hx Hrest].
  unfold Math_min; simpl.
  rewrite (finite_not_nan x Hx), (finite_below_infinity x Hx).
  change (is_positive_zero infinity) with false; simpl.
  destruct (Math_min_from_finite rest x Hx Hrest) as [Hf [Hin [Hle Hall]]].
  repeat split; [exact Hf | exact Hin |].
  intros y [<- | Hy]; [exact Hle | now apply Hall].
Qed.

Lemma Math_max_finite :
  forall values,
    values <> [] -> forallb is_finite values = true ->
    is_finite (Math_max values) = true
    /\ In (Math_max values) values
    /\ (forall y, In y values -> (exact y <= exact (Math_max values))%Q).
Proof.
  intros [| x rest] Hne Hv; [congruence |].
  pose proof Hv as Hv'; simpl in Hv'; apply andb_prop in Hv' as [Hx Hrest].
  unfold Math_max; simpl.
  rewrite (finite_not_nan x Hx), (finite_above_neg_infinity x Hx).
  change (is_negative_zero neg_infinity) with false; simpl.
  destruct (Math_max_from_finite rest x Hx Hrest) as [Hf [Hin [Hle Hall]]].
  repeat split; [exact Hf | exact Hin |].
  intros y [<- | Hy]; [exact Hle | now apply Hall].
Qed.

(** *** Rounding a non-negative mantissa never yields NaN *)

Lemma shr_1_nonneg :
  forall mrs, (0 <= shr_m mrs)%Z -> (0 <= shr_m (shr_1 mrs))%Z.
Proof.
  intros [[| [p | p |] | p] r s] H; simpl in *; lia.
Qed.

Lemma iter_pos_shr_1_nonneg :
  forall n mrs,
    (0 <= shr_m mrs)%Z -> (0 <= shr_m (iter_pos shr_1 n mrs))%Z.
Proof.
  induction n as [n IH | n IH |]; intros mrs H; simpl.
  - apply IH, IH, shr_1_nonneg, H.
  - apply IH, IH, H.
  - apply shr_1_nonneg, H.
Qed.

Lemma shr_fexp_nonneg :
  forall m e l,
    (0 <= m)%Z -> (0 <= shr_m (fst (shr_fexp prec emax m e l)))%Z.
Proof.
  intros m e l H; unfold shr_fexp, shr.
  assert (H0 : (0 <= shr_m (shr_record_of_loc m l))%Z)
    by (destruct l as [| []]; exact H).
  destruct (_ - e)%Z; simpl; try exact H0.
  now apply iter_pos_shr_1_nonneg.
Qed.

Lemma round_nearest_even_nonneg :
  forall m l, (0 <= m)%Z -> (0 <= round_nearest_even m l)%Z.
Proof.
  intros m [| []] H; simpl; try exact H; [destruct (Z.even m) |]; lia.
Qed.

Lemma binary_round_aux_not_nan :
  forall sx mx ex lx,
    (0 <= mx)%Z -> binary_round_aux prec emax sx mx ex lx <> S754_nan.
Proof.
  intros sx mx ex lx H; unfold binary_round_aux.
  pose proof (shr_fexp_nonneg mx ex lx H) as H1.
  destruct (shr_fexp prec emax mx ex lx) as [mrs' e']; simpl in H1.
  pose proof (shr_fexp_nonneg _ e' loc_Exact
                (round_nearest_even_nonneg _ (loc_of_shr_record mrs') H1))
    as H2.
  destruct (shr_fexp prec emax _ e' loc_Exact) as [mrs'' e'']; simpl in H2.
  destruct (shr_m mrs'') as [| p | p]; [discriminate | | lia].
  destruct (e'' <=? emax - prec)%Z; discriminate.
Qed.

Lemma binary_normalize_not_nan :
  forall m e szero, binary_normalize prec emax m e szero <> S754_nan.
Proof.
  intros [| p | p] e szero; unfold binary_normalize, binary_round;
    [discriminate | |];
    destruct (shl_align _ _ _) as [mz ez];
    apply binary_round_aux_not_nan; lia.
Qed.

Lemma sub_finite_not_nan :
  forall x y,
    is_finite x = true -> is_finite y = true -> is_nan (x - y) = false.
Proof.
  intros x y Hx Hy; apply is_nan_spec; rewrite sub_spec.
  apply is_finite_spec in Hx, Hy; unfold SF64sub, SFsub.
  destruct (Prim2SF x) as [[] | [] | | [] mx ex]; try discriminate Hx;
    destruct (Prim2SF y) as [[] | [] | | [] my ey]; try discriminate Hy;
    try discriminate; apply binary_normalize_not_nan.
Qed.

Lemma mul_padding_not_nan :
  forall x, is_nan x = false -> is_nan (x * 1.5) = false.
Proof.
  intros x Hx; apply is_nan_spec; apply is_nan_spec in Hx.
  rewrite mul_spec.
  change (Prim2SF 1.5) with (S754_finite false 6755399441055744 (-52)).
  unfold SF64mul, SFmul.
  destruct (Prim2SF x) as [[] | [] | | [] mx ex]; try discriminate;
    try congruence; apply binary_round_aux_not_nan; lia.
Qed.

(** *** The clamped span *)

Lemma clamped_span_at_least_minimum :
  forall v,
    is_nan v = false -> (0.01 <=? Math_max [0.01; v]) = true.
Proof.
  intros v Hv; unfold Math_max; simpl.
  change (is_nan 0.01) with false.
  change (is_negative_zero neg_infinity) with false.
  change (neg_infinity <? 0.01) with true.
  change (is_negative_zero 0.01) with false; simpl; rewrite Hv.
  destruct (0.01 <? v) eqn:Hlt; [| reflexivity].
  rewrite ltb_spec in Hlt; rewrite leb_spec; unfold SFltb, SFleb in *.
  destruct (SFcompare _ _) as [[] |]; congruence.
Qed.

(** *** Covering the points *)

Lemma within_between :
  forall centre span lo hi x,
    (exact lo <= exact x)%Q -> (exact x <= exact hi)%Q ->
    within_half_span centre span lo -> within_half_span centre span hi ->
    within_half_span centre span x.
Proof.
  unfold within_half_span.
  intros centre span lo hi x Hlo Hhi [Hc [Hs Hl]] [_ [_ Hh]].
  split; [exact Hc | split; [exact Hs |]].
  apply Qabs_Qle_condition in Hl, Hh; apply Qabs_Qle_condition.
  revert Hlo Hhi Hl Hh.
  generalize (exact lo), (exact hi), (exact x), (exact centre),
    (exact span / 2)%Q.
  intros; lra.
Qed.

(** The double nearest to 0.01 is not below 1/100. *)
Lemma minimum_span_exact : (1 # 100 <= exact 0.01)%Q.
Proof. vm_compute; discriminate. Qed.

(** One axis of the region: the extremes of finite values are among them
    and bound them, the clamped span is at least the minimum, and the values
    are all within half a span of the centre exactly when the two extremes
    are. *)
Lemma axis_of_finite_values :
  forall values,
    values <> [] -> forallb is_finite values = true ->
    let lo := Math_min values in
    let hi := Math_max values in
    let centre := (lo + hi) / 2 in
    let span := Math_max [0.01; (hi - lo) * 1.5] in
    In lo values /\ In hi values
    /\ (forall y, In y values ->
          (exact lo <= exact y)%Q /\ (exact y <= exact hi)%Q)
    /\ (0.01 <=? span) = true
    /\ (is_finite span = true -> (1 # 100 <= exact span)%Q)
    /\ ((forall y, In y values -> within_half_span centre span y) <->
        within_half_span centre span lo /\ within_half_span centre span hi).
Proof.
  intros values Hne Hfin lo hi centre span.
  destruct (Math_min_finite values Hne Hfin) as [Hflo [Hinlo Hlo]].
  destruct (Math_max_finite values Hne Hfin) as [Hfhi [Hinhi Hhi]].
  assert (Hspan : (0.01 <=? span) = true).
  { apply clamped_span_at_least_minimum, mul_padding_not_nan.
    now apply sub_finite_not_nan. }
  split; [exact Hinlo | split; [exact Hinhi | split; [| split; [| split]]]].
  - intros y Hy; split; [now apply Hlo | now apply Hhi].
  - exact Hspan.
  - intros Hfs; apply Qle_trans with (1 := minimum_span_exact).
    apply (leb_exact 0.01 span); [reflexivity | exact Hfs | exact Hspan].
  - split.
    + intros Hall; split; now apply Hall.
    + intros [Hl Hh] y Hy.
      apply (within_between centre span lo hi y); auto.
Qed.

Lemma all_finite_axes :
  forall coordinates,
    all_finite coordinates = true ->
    forallb is_finite (map latitude coordinates) = true
    /\ forallb is_finite (map longitude coordinates) = true.
Proof.
  induction coordinates as [| c rest IH]; intros H; [now split |].
  simpl in *; apply andb_prop in H as [Hc Hrest].
  apply andb_prop in Hc as [Hlat Hlng].
  destruct (IH Hrest) as [H1 H2]; now rewrite Hlat, Hlng, H1, H2.
Qed.

(** *** Rounding: what [binary_round_aux] returns *)

Lemma shr_1_div2 :
  forall mrs, (0 <= shr_m mrs)%Z -> shr_m (shr_1 mrs) = (shr_m mrs / 2)%Z.
Proof.
  intros [[| [p | p |] | p] r s] H; cbn [shr_m shr_1] in *; try lia;
    try reflexivity.
  - apply Z.div_unique with 1%Z; lia.
  - apply Z.div_unique with 0%Z; lia.
Qed.

Lemma pow2_xI : forall n, (2 ^ Z.pos n~1 = 2 * 2 ^ Z.pos n * 2 ^ Z.pos n)%Z.
Proof.
  intros n.
  assert (H : Z.pos n~1 = (1 + Z.pos n + Z.pos n)%Z) by lia.
  rewrite H, !Z.pow_add_r by lia; reflexivity.
Qed.

Lemma pow2_xO : forall n, (2 ^ Z.pos n~0 = 2 ^ Z.pos n * 2 ^ Z.pos n)%Z.
Proof.
  intros n.
  assert (H : Z.pos n~0 = (Z.pos n + Z.pos n)%Z) by lia.
  rewrite H, Z.pow_add_r by lia; reflexivity.
Qed.

Lemma iter_pos_shr_1_div :
  forall n mrs,
    (0 <= shr_m mrs)%Z ->
    shr_m (iter_pos shr_1 n mrs) = (shr_m mrs / 2 ^ Z.pos n)%Z.
Proof.
  induction n as [n IH | n IH |]; intros mrs H; simpl iter_pos.
  - rewrite IH by (apply iter_pos_shr_1_nonneg, shr_1_nonneg, H).
    rewrite IH by (apply shr_1_nonneg, H).
    rewrite shr_1_div2 by exact H.
    pose proof (Z.pow_pos_nonneg 2 (Z.pos n)) as Hp.
    rewrite !Z.div_div by lia.
    rewrite pow2_xI; f_equal; ring.
  - rewrite IH by (apply iter_pos_shr_1_nonneg, H).
    rewrite IH by exact H.
    pose proof (Z.pow_pos_nonneg 2 (Z.pos n)) as Hp.
    rewrite Z.div_div by lia.
    rewrite pow2_xO; f_equal; ring.
  - rewrite shr_1_div2 by exact H; reflexivity.
Qed.

(** [shr] divides the mantissa by the power of two it adds to the
    exponent. *)
Lemma shr_spec :
  forall mrs e n,
    (0 <= shr_m mrs)%Z ->
    shr_m (fst (shr mrs e n)) = (shr_m mrs / 2 ^ Z.max n 0)%Z
    /\ snd (shr mrs e n) = (e + Z.max n 0)%Z
    /\ ((n <= 0)%Z -> fst (shr mrs e n) = mrs).
Proof.
  intros mrs e [| p | p] H; simpl.
  - rewrite Z.div_1_r, Z.add_0_r; auto.
  - rewrite iter_pos_shr_1_div by exact H; repeat split; lia.
  - rewrite Z.div_1_r, Z.add_0_r; auto.
Qed.

Lemma round_nearest_even_bounds :
  forall m l, (m <= round_nearest_even m l <= m + 1)%Z.
Proof.
  intros m [| []]; simpl; try lia; destruct (Z.even m); lia.
Qed.

Lemma shr_record_of_loc_m :
  forall m l, shr_m (shr_record_of_loc m l) = m.
Proof. intros m [| []]; reflexivity. Qed.

Lemma fexp_binary64 :
  forall a, fexp prec emax a = Z.max (a - 53) (-1074).
Proof. reflexivity. Qed.

Lemma fexp_monotone :
  forall a b, (a <= b)%Z -> (fexp prec emax a <= fexp prec emax b)%Z.
Proof. intros a b H; rewrite !fexp_binary64; lia. Qed.

Lemma fexp_succ :
  forall a, (fexp prec emax (a + 1) <= fexp prec emax a + 1)%Z.
Proof. intros a; rewrite !fexp_binary64; lia. Qed.

Lemma Zdigits2_bounds :
  forall m : Z,
    (0 < m)%Z -> (2 ^ (Zdigits2 m - 1) <= m < 2 ^ Zdigits2 m)%Z.
Proof.
  intros [| p | p] H; try lia; simpl; apply digits2_pos_bounds.
Qed.

Lemma Zdigits2_nonneg : forall m : Z, (0 <= Zdigits2 m)%Z.
Proof. intros [| p | p]; simpl; lia. Qed.

(** A number not above [2 ^ k] has at most [k + 1] digits. *)
Lemma Zdigits2_le :
  forall m k, (0 <= k)%Z -> (0 <= m <= 2 ^ k)%Z -> (Zdigits2 m <= k + 1)%Z.
Proof.
  intros m k Hk [H0 Hm].
  destruct (Z.eq_dec m 0) as [-> | Hne]; [simpl; lia |].
  destruct (Zdigits2_bounds m ltac:(lia)) as [Hlo _].
  destruct (Z_le_gt_dec (Zdigits2 m) (k + 1)) as [| Hgt]; [assumption |].
  exfalso.
  assert (H2 : (2 ^ (k + 1) <= 2 ^ (Zdigits2 m - 1))%Z)
    by (apply Z.pow_le_mono_r; lia).
  rewrite Z.pow_add_r in H2 by lia; change (2 ^ 1)%Z with 2%Z in H2.
  pose proof (Z.pow_pos_nonneg 2 k); lia.
Qed.

(** The result of rounding a mantissa [mx >= 0] at exponent [ex], in
    integers: the mantissa [m] and exponent [e] of the result, the exponent
    raised by [k] from [ex], and [m * 2 ^ k] within [2 * 2 ^ k] of [mx];
    without a location and without a shift the mantissa is kept. *)
Lemma binary_round_aux_spec :
  forall sx mx ex lx,
    (0 <= mx)%Z ->
    exists m k : Z,
      binary_round_aux prec emax sx mx ex lx =
        match m with
        | Z0 => S754_zero sx
        | Zpos p => if (ex + k <=? emax - prec)%Z
                    then S754_finite sx p (ex + k) else S754_infinity sx
        | Zneg _ => S754_nan
        end
      /\ (0 <= m)%Z /\ (0 <= k)%Z
      /\ (ex + k <= Z.max ex (fexp prec emax (Zdigits2 mx + ex) + 1))%Z
      /\ (mx - 2 * 2 ^ k <= m * 2 ^ k <= mx + 2 * 2 ^ k)%Z
      /\ (lx = loc_Exact -> k = 0%Z -> m = mx).
Proof.
  intros sx mx ex lx Hmx; unfold binary_round_aux, shr_fexp.
  set (F := fexp prec emax (Zdigits2 mx + ex)).
  assert (H0 : (0 <= shr_m (shr_record_of_loc mx lx))%Z)
    by (rewrite shr_record_of_loc_m; exact Hmx).
  destruct (shr_spec (shr_record_of_loc mx lx) ex (F - ex) H0)
    as [Hm1 [He1 Hid1]].
  destruct (shr (shr_record_of_loc mx lx) ex (F - ex)) as [mrs' e'].
  simpl in Hm1, He1, Hid1; rewrite ?shr_record_of_loc_m in Hm1.
  set (N := Z.max (F - ex) 0) in *.
  set (m1 := round_nearest_even (shr_m mrs') (loc_of_shr_record mrs')).
  pose proof (round_nearest_even_bounds (shr_m mrs') (loc_of_shr_record mrs'))
    as Hm1b; fold m1 in Hm1b.
  assert (HN : (0 <= N)%Z) by (unfold N; lia).
  assert (HpN : (0 < 2 ^ N)%Z) by (apply Z.pow_pos_nonneg; lia).
  assert (Hdiv1 : (2 ^ N * shr_m mrs' <= mx < 2 ^ N * (shr_m mrs' + 1))%Z).
  { rewrite Hm1; split.
    - apply Z.mul_div_le; exact HpN.
    - pose proof (Z.mul_succ_div_gt mx (2 ^ N) HpN); lia. }
  assert (Hm'0 : (0 <= shr_m mrs')%Z)
    by (rewrite Hm1; apply Z.div_pos; lia).
  assert (Hm10 : (0 <= m1)%Z) by lia.
  set (F2 := fexp prec emax (Zdigits2 m1 + e')).
  assert (H02 : (0 <= shr_m (shr_record_of_loc m1 loc_Exact))%Z)
    by (rewrite shr_record_of_loc_m; exact Hm10).
  destruct (shr_spec (shr_record_of_loc m1 loc_Exact) e' (F2 - e') H02)
    as [Hm2 [He2 Hid2]].
  destruct (shr (shr_record_of_loc m1 loc_Exact) e' (F2 - e')) as [mrs'' e''].
  simpl in Hm2, He2, Hid2; rewrite ?shr_record_of_loc_m in Hm2.
  set (N2 := Z.max (F2 - e') 0) in *.
  assert (HN2 : (0 <= N2)%Z) by (unfold N2; lia).
  assert (HpN2 : (0 < 2 ^ N2)%Z) by (apply Z.pow_pos_nonneg; lia).
  assert (Hdiv2 : (2 ^ N2 * shr_m mrs'' <= m1 < 2 ^ N2 * (shr_m mrs'' + 1))%Z).
  { rewrite Hm2; split.
    - apply Z.mul_div_le; exact HpN2.
    - pose proof (Z.mul_succ_div_gt m1 (2 ^ N2) HpN2); lia. }
  assert (Hm''0 : (0 <= shr_m mrs'')%Z)
    by (rewrite Hm2; apply Z.div_pos; lia).
  exists (shr_m mrs''), (N + N2)%Z.
  assert (He'' : e'' = (ex + (N + N2))%Z) by lia.
  rewrite He''.
  split; [reflexivity |].
  split; [exact Hm''0 |].
  split; [lia |].
  split; [| split].
  - (* the exponent *)
    assert (HF2 : (F2 <= Z.max e' (F + 1))%Z).
    { unfold F2.
      destruct (Z.eq_dec mx 0) as [Hz | Hnz].
      - (* nothing to round *)
        assert (shr_m mrs' = 0)%Z by (rewrite Hm1, Hz; apply Z.div_0_l; lia).
        assert (Hm1le : (0 <= m1 <= 2 ^ 0)%Z) by (simpl; lia).
        pose proof (Zdigits2_le m1 0 ltac:(lia) Hm1le) as Hd.
        pose proof (Zdigits2_nonneg m1).
        unfold F, N in *; rewrite Hz in *; simpl Zdigits2 in *.
        rewrite !fexp_binary64 in *; lia.
      - destruct (Zdigits2_bounds mx ltac:(lia)) as [Hlo Hhi].
        pose proof (Zdigits2_nonneg mx) as Hd0.
        destruct (Z_le_gt_dec N (Zdigits2 mx)) as [HNd | HNd].
        + (* the shift leaves digits *)
          assert (Hm1le : (0 <= m1 <= 2 ^ (Zdigits2 mx - N))%Z).
          { split; [exact Hm10 |].
            assert (Hlt : (shr_m mrs' < 2 ^ (Zdigits2 mx - N))%Z).
            { apply Z.mul_lt_mono_pos_l with (2 ^ N)%Z; [exact HpN |].
              rewrite <- Z.pow_add_r by lia.
              replace (N + (Zdigits2 mx - N))%Z with (Zdigits2 mx) by lia.
              lia. }
            lia. }
          pose proof (Zdigits2_le m1 (Zdigits2 mx - N) ltac:(lia) Hm1le) as Hd.
          apply Z.le_trans with (fexp prec emax (Zdigits2 mx + ex + 1)).
          * apply fexp_monotone; lia.
          * pose proof (fexp_succ (Zdigits2 mx + ex)); unfold F; lia.
        + (* every digit is shifted out *)
          assert (Hm'z : shr_m mrs' = 0%Z).
          { rewrite Hm1; apply Z.div_small; split; [lia |].
            apply Z.lt_le_trans with (1 := Hhi).
            apply Z.pow_le_mono_r; lia. }
          assert (Hm1le : (0 <= m1 <= 2 ^ 0)%Z) by (simpl; lia).
          pose proof (Zdigits2_le m1 0 ltac:(lia) Hm1le) as Hd.
          pose proof (Zdigits2_nonneg m1).
          unfold F, N in *; rewrite !fexp_binary64 in *; lia. }
    unfold N2; lia.
  - (* the value *)
    rewrite Z.pow_add_r by lia.
    assert (Hle : (2 ^ N <= 2 ^ N * 2 ^ N2)%Z) by nia.
    split; nia.
  - intros -> Hk.
    assert (HN0 : N = 0%Z) by lia.
    assert (HN20 : N2 = 0%Z) by lia.
    rewrite Hm2, HN20, Z.div_1_r.
    unfold m1; rewrite (Hid1 ltac:(unfold N in HN0; lia)); reflexivity.
Qed.

(** *** Powers of two *)

Lemma pow2_positive : forall e : Z, (0 < 2 ^ e)%Q.
Proof. intros e; now apply Qpower_0_lt. Qed.

Lemma pow2_add : forall a b : Z, (2 ^ (a + b) == 2 ^ a * 2 ^ b)%Q.
Proof. intros a b; apply Qpower_plus; discriminate. Qed.

Lemma pow2_le : forall a b : Z, (a <= b)%Z -> (2 ^ a <= 2 ^ b)%Q.
Proof. intros a b H; apply Qpower_le_compat_l; [exact H | discriminate]. Qed.

Lemma pow2_le_inv : forall a b : Z, (2 ^ a <= 2 ^ b)%Q -> (a <= b)%Z.
Proof. intros a b H; apply (Qpower_le_compat_l_inv 2); [exact H | reflexivity]. Qed.

Lemma pow2_inject : forall k : Z, (0 <= k)%Z -> (inject_Z (2 ^ k) == 2 ^ k)%Q.
Proof. intros k H; now rewrite Zpower_Qpower. Qed.

Lemma pow2_succ : forall a : Z, (2 ^ (a + 1) == 2 * 2 ^ a)%Q.
Proof. intros a; rewrite pow2_add; change (2 ^ 1)%Q with 2%Q; ring. Qed.

(** The value [m * 2 ^ e] of a mantissa and an exponent. *)
Lemma scaled_nonneg :
  forall m e, (0 <= m)%Z -> (0 <= inject_Z m * 2 ^ e)%Q.
Proof.
  intros m e H; apply Qmult_le_0_compat.
  - change 0%Q with (inject_Z 0); now rewrite <- Zle_Qle.
  - apply Qlt_le_weak, pow2_positive.
Qed.

(** A positive [m * 2 ^ e] is at least [2 ^ (digits m - 1 + e)]. *)
Lemma scaled_lower :
  forall m e,
    (0 < m)%Z -> (2 ^ (Zdigits2 m - 1 + e) <= inject_Z m * 2 ^ e)%Q.
Proof.
  intros m e H; destruct (Zdigits2_bounds m H) as [Hlo _].
  assert (Hd : (0 <= Zdigits2 m - 1)%Z).
  { destruct m as [| p | p]; try lia; cbn [Zdigits2]; lia. }
  rewrite pow2_add, <- pow2_inject by exact Hd.
  apply Qmult_le_compat_r; [| apply Qlt_le_weak, pow2_positive].
  now rewrite <- Zle_Qle.
Qed.

(** The rounding exponent of [m * 2 ^ e] is small against the value. *)
Lemma pow2_fexp_bound :
  forall m e,
    (0 < m)%Z ->
    (2 ^ fexp prec emax (Zdigits2 m + e)
     <= 2 ^ (-52) * (inject_Z m * 2 ^ e) + 2 ^ (-1074))%Q.
Proof.
  intros m e H; rewrite fexp_binary64.
  pose proof (scaled_lower m e H) as Hlo.
  pose proof (pow2_positive (-1074)) as Hp.
  pose proof (pow2_positive (-52)) as Hu.
  assert (Hx : (0 <= inject_Z m * 2 ^ e)%Q) by (apply scaled_nonneg; lia).
  destruct (Z.max_spec (Zdigits2 m + e - 53) (-1074)) as [[_ ->] | [_ ->]].
  - revert Hp Hu Hx.
    generalize (2 ^ (-1074))%Q, (2 ^ (-52))%Q, (inject_Z m * 2 ^ e)%Q.
    intros p u x Hp Hu Hx.
    assert (0 <= u * x)%Q by (apply Qmult_le_0_compat; lra).
    lra.
  - replace (Zdigits2 m + e - 53)%Z with (-52 + (Zdigits2 m - 1 + e))%Z by lia.
    rewrite pow2_add.
    revert Hp Hu Hlo.
    generalize (2 ^ (-1074))%Q, (2 ^ (-52))%Q, (inject_Z m * 2 ^ e)%Q,
      (2 ^ (Zdigits2 m - 1 + e))%Q.
    intros p u x l Hp Hu Hlo.
    assert (u * l <= u * x)%Q.
    { rewrite !(Qmult_comm u); apply Qmult_le_compat_r; lra. }
    lra.
Qed.

(** The same in values: the result is zero or finite with magnitude [v],
    within [2 * 2 ^ e] of the value rounded, [e] being its exponent. *)
Lemma binary_round_aux_value :
  forall sx mx ex lx,
    (0 <= mx)%Z ->
    (Z.max ex (fexp prec emax (Zdigits2 mx + ex) + 1) <= 971)%Z ->
    exists (v : Q) (e : Z),
      finite_sf (binary_round_aux prec emax sx mx ex lx) = true
      /\ (0 <= v)%Q
      /\ (SF2Q (binary_round_aux prec emax sx mx ex lx)
          == if sx then - v else v)%Q
      /\ (ex <= e <= Z.max ex (fexp prec emax (Zdigits2 mx + ex) + 1))%Z
      /\ (inject_Z mx * 2 ^ ex - 2 * 2 ^ e <= v)%Q
      /\ (v <= inject_Z mx * 2 ^ ex + 2 * 2 ^ e)%Q
      /\ (lx = loc_Exact -> e = ex -> v == inject_Z mx * 2 ^ ex)%Q.
Proof.
  intros sx mx ex lx Hmx Hmax.
  destruct (binary_round_aux_spec sx mx ex lx Hmx)
    as [m [k [Hr [Hm [Hk [He [[Hlo Hhi] Hex]]]]]]].
  exists (inject_Z m * 2 ^ (ex + k))%Q, (ex + k)%Z.
  assert (Hfit : (ex + k <=? emax - prec)%Z = true)
    by (apply Z.leb_le; change (emax - prec)%Z with 971%Z; lia).
  rewrite Hr, Hfit.
  pose proof (pow2_positive ex) as Hpex.
  assert (Hscale : forall z : Z,
            (inject_Z (z * 2 ^ k) * 2 ^ ex == inject_Z z * 2 ^ (ex + k))%Q).
  { intros z; rewrite inject_Z_mult, pow2_inject, pow2_add by exact Hk; ring. }
  assert (Htwo : (inject_Z (2 * 2 ^ k) * 2 ^ ex == 2 * 2 ^ (ex + k))%Q).
  { rewrite inject_Z_mult, pow2_inject, pow2_add by exact Hk.
    change (inject_Z 2) with 2%Q; ring. }
  split; [now destruct m |].
  split; [now apply scaled_nonneg |].
  split.
  { destruct m as [| p | p]; [| | lia].
    - cbn [SF2Q]; change (inject_Z 0) with 0%Q; destruct sx; ring.
    - rewrite SF2Q_finite; unfold magnitude; reflexivity. }
  split; [lia |].
  split; [| split].
  - rewrite <- Hscale, <- Htwo.
    setoid_replace (inject_Z mx * 2 ^ ex - inject_Z (2 * 2 ^ k) * 2 ^ ex)%Q
      with (inject_Z (mx - 2 * 2 ^ k) * 2 ^ ex)%Q
      by (unfold Z.sub; rewrite inject_Z_plus, inject_Z_opp; ring).
    apply Qmult_le_compat_r; [| now apply Qlt_le_weak].
    now rewrite <- Zle_Qle.
  - rewrite <- Hscale, <- Htwo.
    setoid_replace (inject_Z mx * 2 ^ ex + inject_Z (2 * 2 ^ k) * 2 ^ ex)%Q
      with (inject_Z (mx + 2 * 2 ^ k) * 2 ^ ex)%Q
      by (rewrite inject_Z_plus; ring).
    apply Qmult_le_compat_r; [| now apply Qlt_le_weak].
    now rewrite <- Zle_Qle.
  - intros Hl He0.
    assert (Hk0 : k = 0%Z) by lia.
    rewrite (Hex Hl Hk0), Hk0, Z.add_0_r; reflexivity.
Qed.

(** Rounding an exact positive value [m * 2 ^ e] that is not huge gives a
    finite result within [2 ^ -50] of the value, relatively, up to
    [2 ^ -1072]. *)
Lemma round_exact_value :
  forall sx (mx : positive) ex,
    (magnitude mx ex <= 2 ^ 100)%Q ->
    exists v : Q,
      finite_sf (binary_round_aux prec emax sx (Z.pos mx) ex loc_Exact) = true
      /\ (0 <= v)%Q
      /\ (SF2Q (binary_round_aux prec emax sx (Z.pos mx) ex loc_Exact)
          == if sx then - v else v)%Q
      /\ (magnitude mx ex - (2 ^ (-50) * magnitude mx ex + 2 ^ (-1072)) <= v)%Q
      /\ (v <= magnitude mx ex + (2 ^ (-50) * magnitude mx ex + 2 ^ (-1072)))%Q.
Proof.
  intros sx mx ex Hbig; unfold magnitude in *.
  pose proof (scaled_lower (Z.pos mx) ex ltac:(lia)) as Hlow.
  pose proof (pow2_fexp_bound (Z.pos mx) ex ltac:(lia)) as HF.
  assert (Hdig : (Zdigits2 (Z.pos mx) - 1 + ex <= 100)%Z).
  { apply pow2_le_inv; now apply Qle_trans with (1 := Hlow). }
  assert (Hd1 : (1 <= Zdigits2 (Z.pos mx))%Z) by (cbn [Zdigits2]; lia).
  assert (Hmax : (Z.max ex (fexp prec emax (Zdigits2 (Z.pos mx) + ex) + 1)
                  <= 971)%Z) by (rewrite fexp_binary64; lia).
  destruct (binary_round_aux_value sx (Z.pos mx) ex loc_Exact ltac:(lia) Hmax)
    as [v [e [Hfin [Hv [Hval [He [Hlo [Hhi Hex]]]]]]]].
  exists v; split; [exact Hfin | split; [exact Hv | split; [exact Hval |]]].
  set (x := (inject_Z (Z.pos mx) * 2 ^ ex)%Q) in *.
  assert (Hx : (0 <= x)%Q) by (apply scaled_nonneg; lia).
  pose proof (pow2_positive (-50)) as Hu.
  pose proof (pow2_positive (-1072)) as Hp.
  assert (Hux : (0 <= 2 ^ (-50) * x)%Q)
    by (apply Qmult_le_0_compat; [now apply Qlt_le_weak | exact Hx]).
  destruct (Z.eq_dec e ex) as [Heq | Hne].
  - rewrite (Hex eq_refl Heq); split; lra.
  - assert (HeF : (e <= fexp prec emax (Zdigits2 (Z.pos mx) + ex) + 1)%Z) by lia.
    pose proof (pow2_le _ _ HeF) as Hpe; rewrite pow2_succ in Hpe.
    assert (H50 : (2 ^ (-50) == 4 * 2 ^ (-52))%Q) by reflexivity.
    assert (H1072 : (2 ^ (-1072) == 4 * 2 ^ (-1074))%Q) by reflexivity.
    rewrite H50, H1072.
    revert Hlo Hhi Hpe HF.
    generalize (2 ^ e)%Q, (2 ^ fexp prec emax (Zdigits2 (Z.pos mx) + ex))%Q,
      (2 ^ (-52))%Q, (2 ^ (-1074))%Q.
    intros pe pf u p Hlo Hhi Hpe HF; split; lra.
Qed.

(** *** Closeness of a rounded result *)

Lemma tight_error_le :
  forall a : Q,
    (0 <= a)%Q ->
    (2 ^ (-50) * a + 2 ^ (-1072) <= 2 ^ (-48) * a + 2 ^ (-1070))%Q.
Proof.
  intros a Ha.
  assert (H48 : (2 ^ (-48) * a == 4 * (2 ^ (-50) * a))%Q).
  { assert (H : (2 ^ (-48) == 4 * 2 ^ (-50))%Q) by reflexivity.
    rewrite H; ring. }
  assert (H1070 : (2 ^ (-1070) == 4 * 2 ^ (-1072))%Q) by reflexivity.
  rewrite H48, H1070.
  pose proof (pow2_positive (-50)) as Hu.
  pose proof (pow2_positive (-1072)) as Hp.
  assert (Hua : (0 <= 2 ^ (-50) * a)%Q)
    by (apply Qmult_le_0_compat; [now apply Qlt_le_weak | exact Ha]).
  revert Hp Hua; generalize (2 ^ (-50) * a)%Q, (2 ^ (-1072))%Q.
  intros; lra.
Qed.

Lemma rounding_error_nonneg : forall x, (0 <= rounding_error x)%Q.
Proof.
  intros x; unfold rounding_error.
  pose proof (pow2_positive (-48)) as Hu.
  pose proof (pow2_positive (-1070)) as Hp.
  assert (Hux : (0 <= 2 ^ (-48) * Qabs x)%Q)
    by (apply Qmult_le_0_compat;
        [now apply Qlt_le_weak | apply Qabs_nonneg]).
  revert Hp Hux; generalize (2 ^ (-48) * Qabs x)%Q, (2 ^ (-1070))%Q.
  intros; lra.
Qed.

Lemma near_exact : forall v x, (v == x)%Q -> near v x.
Proof.
  intros v x H; unfold near.
  setoid_replace (v - x)%Q with 0%Q by (rewrite H; ring).
  apply rounding_error_nonneg.
Qed.

Lemma near_elim :
  forall v x,
    near v x ->
    (x - rounding_error x <= v)%Q /\ (v <= x + rounding_error x)%Q.
Proof.
  unfold near; intros v x H; apply Qabs_Qle_condition in H.
  destruct H; split; lra.
Qed.

Lemma near_eq :
  forall v x x', (x == x')%Q -> near v x -> near v x'.
Proof.
  unfold near, rounding_error; intros v x x' H Hn; now rewrite <- H.
Qed.

(** A magnitude [v] within the tighter bound of [mag], with either sign. *)
Lemma near_signed :
  forall (s : bool) (v mag r x : Q),
    (0 <= mag)%Q ->
    (mag - (2 ^ (-50) * mag + 2 ^ (-1072)) <= v)%Q ->
    (v <= mag + (2 ^ (-50) * mag + 2 ^ (-1072)))%Q ->
    (r == if s then - v else v)%Q ->
    (x == if s then - mag else mag)%Q ->
    near r x.
Proof.
  intros s v mag r x Hmag Hlo Hhi Hr Hx; unfold near, rounding_error.
  assert (Habs : (Qabs x == mag)%Q).
  { rewrite Hx; destruct s; [rewrite Qabs_opp |]; now apply Qabs_pos. }
  rewrite Habs; apply Qabs_Qle_condition; rewrite Hr, Hx.
  pose proof (tight_error_le mag Hmag) as Hle.
  revert Hlo Hhi Hle.
  generalize (2 ^ (-50) * mag + 2 ^ (-1072))%Q,
    (2 ^ (-48) * mag + 2 ^ (-1070))%Q.
  intros t w Hlo Hhi Hle; destruct s; split; lra.
Qed.

(** *** Addition and subtraction *)

Lemma pos_iter_xO :
  forall (m d : positive),
    Z.pos (Pos.iter xO m d) = (Z.pos m * 2 ^ Z.pos d)%Z.
Proof.
  intros m d; induction d as [| d IH] using Pos.peano_ind.
  - simpl; lia.
  - rewrite Pos.iter_succ, Pos2Z.inj_xO, IH, Pos2Z.inj_succ.
    rewrite Z.pow_succ_r by lia; ring.
Qed.

(** Aligning a mantissa to a lower exponent keeps the value. *)
Lemma shl_align_value :
  forall mx ex ex',
    (magnitude (fst (shl_align mx ex ex')) (snd (shl_align mx ex ex'))
     == magnitude mx ex)%Q.
Proof.
  intros mx ex ex'; unfold shl_align, magnitude.
  destruct (ex' - ex)%Z as [| d | d] eqn:Hd; simpl fst; simpl snd;
    try reflexivity.
  rewrite pos_iter_xO, inject_Z_mult, pow2_inject by lia.
  replace ex with (Z.pos d + ex')%Z by lia.
  rewrite pow2_add; ring.
Qed.

Lemma shl_align_exponent :
  forall mx ex ex',
    (ex' <= ex)%Z -> snd (shl_align mx ex ex') = ex'.
Proof.
  intros mx ex ex' H; unfold shl_align.
  destruct (ex' - ex)%Z as [| d | d] eqn:Hd; simpl; lia.
Qed.

Lemma binary_round_value :
  forall sx mx ex,
    (magnitude mx ex <= 2 ^ 100)%Q ->
    exists v : Q,
      finite_sf (binary_round prec emax sx mx ex) = true
      /\ (0 <= v)%Q
      /\ (SF2Q (binary_round prec emax sx mx ex) == if sx then - v else v)%Q
      /\ (magnitude mx ex - (2 ^ (-50) * magnitude mx ex + 2 ^ (-1072)) <= v)%Q
      /\ (v <= magnitude mx ex + (2 ^ (-50) * magnitude mx ex + 2 ^ (-1072)))%Q.
Proof.
  intros sx mx ex Hbig; unfold binary_round.
  pose proof (shl_align_value mx ex
                (fexp prec emax (Z.pos (digits2_pos mx) + ex))) as Hval.
  destruct (shl_align mx ex (fexp prec emax (Z.pos (digits2_pos mx) + ex)))
    as [mz ez]; simpl in Hval.
  rewrite <- Hval in Hbig.
  destruct (round_exact_value sx mz ez Hbig) as [v [Hf [Hv [Hs [Hlo Hhi]]]]].
  exists v; rewrite <- Hval; auto.
Qed.

(** Normalising the exact integer sum [S * 2 ^ e] rounds it. *)
Lemma binary_normalize_near :
  forall (S e : Z) (szero : bool),
    (Qabs (inject_Z S * 2 ^ e) <= 2 ^ 100)%Q ->
    finite_sf (binary_normalize prec emax S e szero) = true
    /\ near (SF2Q (binary_normalize prec emax S e szero)) (inject_Z S * 2 ^ e).
Proof.
  intros [| p | p] e szero Hbig; unfold binary_normalize.
  - split; [reflexivity |].
    apply near_exact; cbn [SF2Q]; change (inject_Z 0) with 0%Q; ring.
  - rewrite Qabs_pos in Hbig by (apply scaled_nonneg; lia).
    destruct (binary_round_value false p e Hbig)
      as [v [Hf [Hv [Hs [Hlo Hhi]]]]].
    split; [exact Hf |].
    apply (near_signed false v (magnitude p e)); auto; try reflexivity.
    apply scaled_nonneg; lia.
  - assert (Hneg : (inject_Z (Z.neg p) * 2 ^ e == - magnitude p e)%Q).
    { unfold magnitude; change (Z.neg p) with (- Z.pos p)%Z.
      rewrite inject_Z_opp; ring. }
    rewrite Hneg, Qabs_opp, Qabs_pos in Hbig by (apply scaled_nonneg; lia).
    destruct (binary_round_value true p e Hbig)
      as [v [Hf [Hv [Hs [Hlo Hhi]]]]].
    split; [exact Hf |].
    apply (near_signed true v (magnitude p e)); auto.
    apply scaled_nonneg; lia.
Qed.

Lemma cond_Zopp_value :
  forall (s : bool) (m : positive) (e : Z),
    (inject_Z (cond_Zopp s (Z.pos m)) * 2 ^ e
     == if s then - magnitude m e else magnitude m e)%Q.
Proof.
  intros [] m e; unfold cond_Zopp, magnitude; [| reflexivity].
  rewrite inject_Z_opp; ring.
Qed.

Lemma aligned_value :
  forall (s : bool) (m : positive) (e ez : Z),
    (ez <= e)%Z ->
    (inject_Z (cond_Zopp s (Z.pos (fst (shl_align m e ez)))) * 2 ^ ez
     == SF2Q (S754_finite s m e))%Q.
Proof.
  intros s m e ez H.
  rewrite cond_Zopp_value, SF2Q_finite.
  pose proof (shl_align_value m e ez) as Hv.
  rewrite (shl_align_exponent m e ez H) in Hv.
  destruct s; rewrite Hv; reflexivity.
Qed.

Lemma SFadd_near :
  forall x y,
    finite_sf x = true -> finite_sf y = true ->
    (Qabs (SF2Q x + SF2Q y) <= 2 ^ 100)%Q ->
    finite_sf (SFadd prec emax x y) = true
    /\ near (SF2Q (SFadd prec emax x y)) (SF2Q x + SF2Q y).
Proof.
  intros [sx | sx | | sx mx ex] [sy | sy | | sy my ey] Hx Hy Hbig;
    try discriminate Hx; try discriminate Hy; unfold SFadd.
  - split; [now destruct sx, sy |].
    apply near_exact; destruct sx, sy; cbn [SF2Q]; ring.
  - split; [reflexivity |]; apply near_exact; cbn [SF2Q]; ring.
  - split; [reflexivity |]; apply near_exact; cbn [SF2Q]; ring.
  - cbv zeta.
    set (ez := Z.min ex ey).
    assert (Hsum :
      (inject_Z (cond_Zopp sx (Z.pos (fst (shl_align mx ex ez)))
                 + cond_Zopp sy (Z.pos (fst (shl_align my ey ez)))) * 2 ^ ez
       == SF2Q (S754_finite sx mx ex) + SF2Q (S754_finite sy my ey))%Q).
    { rewrite inject_Z_plus, Qmult_plus_distr_l.
      rewrite !aligned_value by (unfold ez; lia); reflexivity. }
    rewrite <- Hsum in Hbig.
    destruct (binary_normalize_near _ ez false Hbig) as [Hf Hn].
    split; [exact Hf | exact (near_eq _ _ _ Hsum Hn)].
Qed.

Lemma SFsub_near :
  forall x y,
    finite_sf x = true -> finite_sf y = true ->
    (Qabs (SF2Q x - SF2Q y) <= 2 ^ 100)%Q ->
    finite_sf (SFsub prec emax x y) = true
    /\ near (SF2Q (SFsub prec emax x y)) (SF2Q x - SF2Q y).
Proof.
  intros [sx | sx | | sx mx ex] [sy | sy | | sy my ey] Hx Hy Hbig;
    try discriminate Hx; try discriminate Hy; unfold SFsub.
  - split; [now destruct sx, sy |].
    apply near_exact; destruct sx, sy; cbn [SF2Q]; ring.
  - split; [reflexivity |]; apply near_exact.
    rewrite !SF2Q_finite; cbn [SF2Q]; destruct sy; simpl; ring.
  - split; [reflexivity |]; apply near_exact; cbn [SF2Q]; ring.
  - cbv zeta.
    set (ez := Z.min ex ey).
    assert (Hsum :
      (inject_Z (cond_Zopp sx (Z.pos (fst (shl_align mx ex ez)))
                 - cond_Zopp sy (Z.pos (fst (shl_align my ey ez)))) * 2 ^ ez
       == SF2Q (S754_finite sx mx ex) - SF2Q (S754_finite sy my ey))%Q).
    { unfold Z.sub; rewrite inject_Z_plus, inject_Z_opp.
      setoid_replace
        ((inject_Z (cond_Zopp sx (Z.pos (fst (shl_align mx ex ez))))
          + - inject_Z (cond_Zopp sy (Z.pos (fst (shl_align my ey ez)))))
         * 2 ^ ez)%Q
        with
        (inject_Z (cond_Zopp sx (Z.pos (fst (shl_align mx ex ez)))) * 2 ^ ez
         - inject_Z (cond_Zopp sy (Z.pos (fst (shl_align my ey ez)))) * 2 ^ ez)%Q
        by ring.
      rewrite !aligned_value by (unfold ez; lia); reflexivity. }
    rewrite <- Hsum in Hbig.
    destruct (binary_normalize_near _ ez false Hbig) as [Hf Hn].
    split; [exact Hf | exact (near_eq _ _ _ Hsum Hn)].
Qed.

(** *** Multiplication *)

Lemma magnitude_mul :
  forall mx ex my ey,
    (magnitude (mx * my) (ex + ey) == magnitude mx ex * magnitude my ey)%Q.
Proof.
  intros mx ex my ey; unfold magnitude.
  rewrite Pos2Z.inj_mul, inject_Z_mult, pow2_add; ring.
Qed.

Lemma SFmul_near :
  forall x y,
    finite_sf x = true -> finite_sf y = true ->
    (Qabs (SF2Q x * SF2Q y) <= 2 ^ 100)%Q ->
    finite_sf (SFmul prec emax x y) = true
    /\ near (SF2Q (SFmul prec emax x y)) (SF2Q x * SF2Q y).
Proof.
  intros [sx | sx | | sx mx ex] [sy | sy | | sy my ey] Hx Hy Hbig;
    try discriminate Hx; try discriminate Hy; unfold SFmul;
    try (split; [reflexivity |]; apply near_exact; cbn [SF2Q]; ring).
  assert (Hprod :
    (SF2Q (S754_finite sx mx ex) * SF2Q (S754_finite sy my ey)
     == if xorb sx sy then - magnitude (mx * my) (ex + ey)
        else magnitude (mx * my) (ex + ey))%Q).
  { rewrite !SF2Q_finite; destruct sx, sy; simpl; rewrite magnitude_mul; ring. }
  assert (Hmag : (0 <= magnitude (mx * my) (ex + ey))%Q)
    by (apply scaled_nonneg; lia).
  assert (Hbig' : (magnitude (mx * my) (ex + ey) <= 2 ^ 100)%Q).
  { rewrite Hprod in Hbig.
    destruct (xorb sx sy); [rewrite Qabs_opp in Hbig |];
      now rewrite Qabs_pos in Hbig. }
  destruct (round_exact_value (xorb sx sy) (mx * my) (ex + ey) Hbig')
    as [v [Hf [Hv [Hs [Hlo Hhi]]]]].
  split; [exact Hf |].
  apply (near_signed (xorb sx sy) v (magnitude (mx * my) (ex + ey))); auto.
Qed.

(** *** Halving *)

(** The double 2. *)
Lemma Prim2SF_two :
  Prim2SF 2 = S754_finite false 4503599627370496 (-51).
Proof. reflexivity. Qed.

(** The quotient that [SFdiv] rounds when the divisor is 2: its scaled
    mantissa is the integer part of half the dividend. *)
Lemma SFdiv_core_half :
  forall (mx : positive) (ex : Z),
    exists (q e' : Z) (lz : location),
      SFdiv_core_binary prec emax (Z.pos mx) ex 4503599627370496 (-51)
        = (q, e', lz)
      /\ (0 <= q)%Z
      /\ (e' <= fexp prec emax (Z.pos (digits2_pos mx) + ex - 2))%Z
      /\ (inject_Z q * 2 ^ e' <= magnitude mx (ex - 1))%Q
      /\ (magnitude mx (ex - 1) <= inject_Z q * 2 ^ e' + 2 ^ e')%Q.
Proof.
  intros mx ex; unfold SFdiv_core_binary.
  change (Zdigits2 4503599627370496) with 53%Z.
  cbn [Zdigits2].
  set (d1 := Z.pos (digits2_pos mx)).
  set (e' := Z.min (fexp prec emax (d1 + ex - (53 + -51))) (ex - -51)).
  set (s := (ex - -51 - e')%Z).
  assert (Hs : (0 <= s)%Z) by (unfold s, e'; lia).
  set (m' := match s with
             | 0%Z => Z.pos mx
             | Z.pos _ => Z.shiftl (Z.pos mx) s
             | Z.neg _ => 0%Z
             end).
  assert (Hm' : m' = (Z.pos mx * 2 ^ s)%Z).
  { unfold m'; destruct s as [| p | p] eqn:Hsp; [simpl; lia | | lia].
    apply Z.shiftl_mul_pow2; lia. }
  pose proof (Z_div_mod m' 4503599627370496 ltac:(lia)) as Hdiv.
  destruct (Z.div_eucl m' 4503599627370496) as [q r].
  destruct Hdiv as [Hqr Hr].
  assert (Hps : (0 < 2 ^ s)%Z) by (apply Z.pow_pos_nonneg; lia).
  assert (Hq : (0 <= q)%Z) by nia.
  exists q, e', (new_location 4503599627370496 r).
  split; [reflexivity |].
  split; [exact Hq |].
  split.
  { unfold e'; replace (d1 + ex - (53 + -51))%Z with (d1 + ex - 2)%Z by lia.
    lia. }
  (* the dividend halved is (2^52 q + r) * 2 ^ (e' - 52) *)
  assert (Hval : (magnitude mx (ex - 1)
                  == inject_Z q * 2 ^ e' + inject_Z r * 2 ^ (e' - 52))%Q).
  { unfold magnitude.
    assert (He : (ex - 1 = s + (e' - 52))%Z) by (unfold s; lia).
    rewrite He, pow2_add, <- pow2_inject by exact Hs.
    rewrite Qmult_assoc, <- inject_Z_mult, <- Hm', Hqr.
    rewrite inject_Z_plus, inject_Z_mult.
    replace e' with (52 + (e' - 52))%Z at 2 by lia.
    rewrite (pow2_add 52).
    change (inject_Z 4503599627370496) with (2 ^ 52)%Q; ring. }
  assert (Hrest : (0 <= inject_Z r * 2 ^ (e' - 52))%Q
                  /\ (inject_Z r * 2 ^ (e' - 52) <= 2 ^ e')%Q).
  { split; [apply scaled_nonneg; lia |].
    replace e' with (52 + (e' - 52))%Z at 2 by lia.
    rewrite (pow2_add 52).
    apply Qmult_le_compat_r; [| apply Qlt_le_weak, pow2_positive].
    change (2 ^ 52)%Q with (inject_Z 4503599627370496).
    rewrite <- Zle_Qle; lia. }
  rewrite Hval; destruct Hrest; split; lra.
Qed.

Lemma SFdiv_half_near :
  forall x,
    finite_sf x = true ->
    (Qabs (SF2Q x) <= 2 ^ 100)%Q ->
    finite_sf (SFdiv prec emax x (S754_finite false 4503599627370496 (-51)))
      = true
    /\ near (SF2Q (SFdiv prec emax x
                     (S754_finite false 4503599627370496 (-51))))
            (SF2Q x / 2).
Proof.
  intros [sx | sx | | sx mx ex] Hx Hbig; try discriminate Hx; unfold SFdiv.
  - split; [reflexivity |]; apply near_exact; cbn [SF2Q]; reflexivity.
  - destruct (SFdiv_core_half mx ex) as [q [e' [lz [Hcore [Hq [He' [Hlo Hhi]]]]]]].
    rewrite Hcore.
    (* the value halved *)
    set (xt := magnitude mx (ex - 1)) in *.
    assert (Hxt : (magnitude mx ex == 2 * xt)%Q).
    { unfold xt, magnitude; replace ex with (ex - 1 + 1)%Z at 1 by lia.
      rewrite pow2_succ; ring. }
    assert (Hxt0 : (0 <= xt)%Q) by (apply scaled_nonneg; lia).
    assert (Hbigx : (2 * xt <= 2 ^ 100)%Q).
    { rewrite <- Hxt; rewrite SF2Q_finite in Hbig.
      destruct sx; [rewrite Qabs_opp in Hbig |];
        rewrite Qabs_pos in Hbig; auto; apply scaled_nonneg; lia. }
    (* the exponents stay small *)
    pose proof (scaled_lower (Z.pos mx) (ex - 1) ltac:(lia)) as Hlow.
    fold (magnitude mx (ex - 1)) in Hlow; fold xt in Hlow.
    cbn [Zdigits2] in Hlow.
    set (d1 := Z.pos (digits2_pos mx)) in *.
    assert (H100 : (xt <= 2 ^ 100)%Q) by lra.
    assert (Hd1 : (d1 - 1 + (ex - 1) <= 100)%Z).
    { apply pow2_le_inv; now apply Qle_trans with (1 := Hlow). }
    assert (Hqd : (Zdigits2 q + e' <= 101)%Z).
    { destruct (Z.eq_dec q 0) as [-> | Hq0].
      - rewrite fexp_binary64 in He'; simpl; lia.
      - pose proof (scaled_lower q e' ltac:(lia)) as Hql.
        assert (Hq100 : (2 ^ (Zdigits2 q - 1 + e') <= 2 ^ 100)%Q) by lra.
        apply pow2_le_inv in Hq100; lia. }
    assert (Hmax : (Z.max e' (fexp prec emax (Zdigits2 q + e') + 1) <= 971)%Z)
      by (rewrite fexp_binary64 in *; lia).
    destruct (binary_round_aux_value (xorb sx false) q e' lz Hq Hmax)
      as [v [e [Hfin [Hv [Hval [He [Hvlo [Hvhi _]]]]]]]].
    split; [exact Hfin |].
    (* the error *)
    assert (Hpe' : (2 ^ e' <= 2 ^ (-53) * xt + 2 ^ (-1074))%Q).
    { apply Qle_trans with (1 := pow2_le _ _ He').
      rewrite fexp_binary64.
      pose proof (pow2_positive (-1074)) as Hp.
      pose proof (pow2_positive (-53)) as Hu.
      assert (Hux : (0 <= 2 ^ (-53) * xt)%Q)
        by (apply Qmult_le_0_compat; [now apply Qlt_le_weak | exact Hxt0]).
      destruct (Z.max_spec (d1 + ex - 2 - 53) (-1074)) as [[_ ->] | [_ ->]].
      - revert Hp Hux; generalize (2 ^ (-1074))%Q, (2 ^ (-53) * xt)%Q.
        intros; lra.
      - replace (d1 + ex - 2 - 53)%Z with (-53 + (d1 - 1 + (ex - 1)))%Z by lia.
        rewrite pow2_add.
        assert (2 ^ (-53) * 2 ^ (d1 - 1 + (ex - 1)) <= 2 ^ (-53) * xt)%Q.
        { rewrite !(Qmult_comm (2 ^ (-53))).
          apply Qmult_le_compat_r; [exact Hlow | now apply Qlt_le_weak]. }
        revert Hp H; generalize (2 ^ (-1074))%Q, (2 ^ (-53) * xt)%Q,
          (2 ^ (-53) * 2 ^ (d1 - 1 + (ex - 1)))%Q.
        intros; lra. }
    assert (HpF : (2 ^ fexp prec emax (Zdigits2 q + e')
                   <= 2 ^ (-52) * xt + 2 ^ (-1074))%Q).
    { pose proof (pow2_positive (-1074)) as Hp.
      pose proof (pow2_positive (-52)) as Hu.
      destruct (Z.eq_dec q 0) as [-> | Hq0].
      - assert (HF : (fexp prec emax (Zdigits2 0 + e') <= Z.max e' (-1074))%Z)
          by (rewrite fexp_binary64; simpl; lia).
        apply Qle_trans with (1 := pow2_le _ _ HF).
        assert (H53 : (2 ^ (-53) * xt <= 2 ^ (-52) * xt)%Q).
        { apply Qmult_le_compat_r; [apply pow2_le; lia | exact Hxt0]. }
        destruct (Z.max_spec e' (-1074)) as [[_ ->] | [_ ->]].
        + assert (0 <= 2 ^ (-52) * xt)%Q
            by (apply Qmult_le_0_compat; [now apply Qlt_le_weak | exact Hxt0]).
          revert Hp H; generalize (2 ^ (-1074))%Q, (2 ^ (-52) * xt)%Q.
          intros; lra.
        + revert Hpe' H53 Hp.
          generalize (2 ^ e')%Q, (2 ^ (-1074))%Q, (2 ^ (-52) * xt)%Q,
            (2 ^ (-53) * xt)%Q.
          intros; lra.
      - apply Qle_trans with (1 := pow2_fexp_bound q e' ltac:(lia)).
        assert (2 ^ (-52) * (inject_Z q * 2 ^ e') <= 2 ^ (-52) * xt)%Q.
        { rewrite !(Qmult_comm (2 ^ (-52))).
          apply Qmult_le_compat_r; [exact Hlo | now apply Qlt_le_weak]. }
        revert H; generalize (2 ^ (-52) * (inject_Z q * 2 ^ e'))%Q,
          (2 ^ (-52) * xt)%Q, (2 ^ (-1074))%Q.
        intros; lra. }
    assert (Hpe : (2 ^ e <= 2 ^ e' + 2 * 2 ^ fexp prec emax (Zdigits2 q + e'))%Q).
    { pose proof (pow2_positive e').
      pose proof (pow2_positive (fexp prec emax (Zdigits2 q + e'))).
      destruct (Z.max_spec e' (fexp prec emax (Zdigits2 q + e') + 1))
        as [[_ Hm] | [_ Hm]]; rewrite Hm in He.
      - apply Qle_trans with (2 ^ (fexp prec emax (Zdigits2 q + e') + 1))%Q;
          [apply pow2_le; lia |].
        rewrite pow2_succ.
        revert H H0; generalize (2 ^ e')%Q,
          (2 ^ fexp prec emax (Zdigits2 q + e'))%Q; intros; lra.
      - apply Qle_trans with (2 ^ e')%Q; [apply pow2_le; lia |].
        revert H H0; generalize (2 ^ e')%Q,
          (2 ^ fexp prec emax (Zdigits2 q + e'))%Q; intros; lra. }
    (* assemble *)
    assert (Hx2 : (SF2Q (S754_finite sx mx ex) / 2
                   == if xorb sx false then - xt else xt)%Q).
    { rewrite SF2Q_finite; destruct sx; simpl; rewrite Hxt; field. }
    unfold near, rounding_error.
    assert (Habs : (Qabs (SF2Q (S754_finite sx mx ex) / 2) == xt)%Q).
    { rewrite Hx2; destruct (xorb sx false); [rewrite Qabs_opp |];
        now apply Qabs_pos. }
    rewrite Habs; apply Qabs_Qle_condition; rewrite Hval, Hx2.
    assert (H48 : (2 ^ (-48) * xt == 32 * (2 ^ (-53) * xt))%Q).
    { assert (H : (2 ^ (-48) == 32 * 2 ^ (-53))%Q) by reflexivity.
      rewrite H; ring. }
    assert (H52 : (2 ^ (-52) * xt == 2 * (2 ^ (-53) * xt))%Q).
    { assert (H : (2 ^ (-52) == 2 * 2 ^ (-53))%Q) by reflexivity.
      rewrite H; ring. }
    assert (H1070 : (2 ^ (-1070) == 16 * 2 ^ (-1074))%Q) by reflexivity.
    rewrite H48, H1070; rewrite H52 in HpF.
    pose proof (pow2_positive (-1074)) as Hp.
    pose proof (pow2_positive (-53)) as Hu.
    assert (Hux : (0 <= 2 ^ (-53) * xt)%Q)
      by (apply Qmult_le_0_compat; [now apply Qlt_le_weak | exact Hxt0]).
    revert Hlo Hhi Hvlo Hvhi Hpe' HpF Hpe Hp Hux.
    generalize (inject_Z q * 2 ^ e')%Q, (2 ^ e')%Q, (2 ^ e)%Q,
      (2 ^ fexp prec emax (Zdigits2 q + e'))%Q, (2 ^ (-53) * xt)%Q,
      (2 ^ (-1074))%Q.
    intros qv pe' pe pf ux p Hlo Hhi Hvlo Hvhi Hpe' HpF Hpe Hp Hux.
    destruct (xorb sx false); split; lra.
Qed.

(** *** The operations of [renderMap] on doubles *)

Lemma add_near :
  forall x y,
    is_finite x = true -> is_finite y = true ->
    (Qabs (exact x + exact y) <= 2 ^ 100)%Q ->
    is_finite (x + y) = true /\ near (exact (x + y)) (exact x + exact y).
Proof.
  intros x y Hx Hy Hbig; apply is_finite_spec in Hx, Hy.
  unfold exact in *; rewrite is_finite_spec, add_spec.
  now apply SFadd_near.
Qed.

Lemma sub_near :
  forall x y,
    is_finite x = true -> is_finite y = true ->
    (Qabs (exact x - exact y) <= 2 ^ 100)%Q ->
    is_finite (x - y) = true /\ near (exact (x - y)) (exact x - exact y).
Proof.
  intros x y Hx Hy Hbig; apply is_finite_spec in Hx, Hy.
  unfold exact in *; rewrite is_finite_spec, sub_spec.
  now apply SFsub_near.
Qed.

Lemma padding_near :
  forall x,
    is_finite x = true ->
    (Qabs (exact x * (3 # 2)) <= 2 ^ 100)%Q ->
    is_finite (x * 1.5) = true /\ near (exact (x * 1.5)) (exact x * (3 # 2)).
Proof.
  intros x Hx Hbig; apply is_finite_spec in Hx.
  unfold exact in *; rewrite is_finite_spec, mul_spec.
  change (Prim2SF 1.5) with (S754_finite false 6755399441055744 (-52)).
  assert (H15 : (SF2Q (S754_finite false 6755399441055744 (-52)) == 3 # 2)%Q)
    by reflexivity.
  rewrite <- H15 in Hbig.
  destruct (SFmul_near (Prim2SF x)
              (S754_finite false 6755399441055744 (-52)) Hx eq_refl Hbig)
    as [Hf Hn].
  split; [exact Hf |].
  apply (near_eq _ _ _ (Qmult_comp _ _ (Qeq_refl _) _ _ H15) Hn).
Qed.

Lemma half_near :
  forall x,
    is_finite x = true ->
    (Qabs (exact x) <= 2 ^ 100)%Q ->
    is_finite (x / 2) = true /\ near (exact (x / 2)) (exact x / 2).
Proof.
  intros x Hx Hbig; apply is_finite_spec in Hx.
  unfold exact in *; rewrite is_finite_spec, div_spec, Prim2SF_two.
  now apply SFdiv_half_near.
Qed.

Lemma in_range_spec :
  forall x,
    in_range x = true ->
    is_finite x = true
    /\ (-4294967296 <= exact x)%Q /\ (exact x <= 4294967296)%Q.
Proof.
  intros x H; unfold in_range in H; apply andb_prop in H as [Hlo Hhi].
  assert (Hf : is_finite x = true).
  { apply is_finite_spec.
    rewrite leb_spec in Hlo, Hhi.
    change (Prim2SF (-4294967296))
      with (S754_finite true 4503599627370496 (-20)) in Hlo.
    change (Prim2SF 4294967296)
      with (S754_finite false 4503599627370496 (-20)) in Hhi.
    destruct (Prim2SF x) as [[] | [] | | [] m e]; try reflexivity;
      discriminate. }
  split; [exact Hf |].
  apply (leb_exact (-4294967296) x eq_refl Hf) in Hlo.
  apply (leb_exact x 4294967296 Hf eq_refl) in Hhi.
  assert (H1 : (exact (-4294967296) == -4294967296)%Q) by reflexivity.
  assert (H2 : (exact 4294967296 == 4294967296)%Q) by reflexivity.
  rewrite H1 in Hlo; rewrite H2 in Hhi; split; assumption.
Qed.

(** The error allowed on a value of at most [2 ^ 34]. *)
Lemma near_bounded :
  forall v x,
    near v x -> (Qabs x <= 17179869184)%Q ->
    (x - (1 # 8192) <= v)%Q /\ (v <= x + (1 # 8192))%Q.
Proof.
  intros v x Hn Hx; apply near_elim in Hn; unfold rounding_error in Hn.
  assert (Hu : (2 ^ (-48) == 1 # 281474976710656)%Q) by reflexivity.
  assert (Hp : (2 ^ (-1070) <= 1 # 1048576)%Q).
  { apply Qle_trans with (2 ^ (-20))%Q; [apply pow2_le; lia |].
    apply Qle_lteq; right; reflexivity. }
  rewrite Hu in Hn; revert Hn Hp Hx.
  generalize (Qabs x), (2 ^ (-1070))%Q; intros a p [Hlo Hhi] Hp Hx.
  split; lra.
Qed.

(** The error allowed on a value, relative to a bound [b] of it. *)
Lemma near_relative :
  forall v x b,
    near v x -> (Qabs x <= b)%Q ->
    (x - ((1 # 281474976710656) * b + (1 # 1048576)) <= v)%Q
    /\ (v <= x + ((1 # 281474976710656) * b + (1 # 1048576)))%Q.
Proof.
  intros v x b Hn Hx; apply near_elim in Hn; unfold rounding_error in Hn.
  assert (Hu : (2 ^ (-48) == 1 # 281474976710656)%Q) by reflexivity.
  assert (Hp : (2 ^ (-1070) <= 1 # 1048576)%Q).
  { apply Qle_trans with (2 ^ (-20))%Q; [apply pow2_le; lia |].
    apply Qle_lteq; right; reflexivity. }
  rewrite Hu in Hn; revert Hn Hp Hx.
  generalize (Qabs x), (2 ^ (-1070))%Q; intros a p [Hlo Hhi] Hp Hx.
  split; lra.
Qed.

(** *** Coverage within the coordinate range *)

Lemma in_range_finite :
  forall values,
    forallb in_range values = true -> forallb is_finite values = true.
Proof.
  intros values H; apply forallb_forall; intros x Hx.
  rewrite forallb_forall in H; exact (proj1 (in_range_spec x (H x Hx))).
Qed.

(** One axis: values within the range are all within half the clamped
    span of the centre. *)
Lemma axis_covered :
  forall values,
    values <> [] -> forallb in_range values = true ->
    let lo := Math_min values in
    let hi := Math_max values in
    let centre := (lo + hi) / 2 in
    let span := Math_max [0.01; (hi - lo) * 1.5] in
    forall y, In y values -> within_half_span centre span y.
Proof.
  intros values Hne Hrange lo hi centre span y Hy.
  pose proof (in_range_finite values Hrange) as Hfin.
  destruct (Math_min_finite values Hne Hfin) as [Hflo [Hinlo Hlo]].
  destruct (Math_max_finite values Hne Hfin) as [Hfhi [Hinhi Hhi]].
  fold lo in Hflo, Hinlo, Hlo; fold hi in Hfhi, Hinhi, Hhi.
  rewrite forallb_forall in Hrange.
  destruct (in_range_spec lo (Hrange lo Hinlo)) as [_ [HA1 HA2]].
  destruct (in_range_spec hi (Hrange hi Hinhi)) as [_ [HB1 HB2]].
  pose proof (Hlo y Hy) as HAY; pose proof (Hhi y Hy) as HYB.
  assert (H100 : (17179869184 <= 2 ^ 100)%Q) by (vm_compute; discriminate).
  (* the sum and the centre *)
  assert (HsumB : (Qabs (exact lo + exact hi) <= 17179869184)%Q)
    by (apply Qabs_Qle_condition; split; lra).
  destruct (add_near lo hi Hflo Hfhi (Qle_trans _ _ _ HsumB H100))
    as [Hft HnT].
  destruct (near_bounded _ _ HnT HsumB) as [HT1 HT2].
  assert (HTB : (Qabs (exact (lo + hi)) <= 17179869184)%Q)
    by (apply Qabs_Qle_condition; split; lra).
  destruct (half_near (lo + hi) Hft (Qle_trans _ _ _ HTB H100))
    as [Hfc HnC].
  unfold Qdiv in HnC; change (/ 2)%Q with (1 # 2)%Q in HnC.
  assert (HT2B : (Qabs (exact (lo + hi) * (1 # 2)) <= 17179869184)%Q)
    by (apply Qabs_Qle_condition; split; lra).
  destruct (near_bounded _ _ HnC HT2B) as [HC1 HC2].
  fold centre in Hfc, HC1, HC2.
  (* the difference and the span *)
  assert (Hg : (0 <= exact hi - exact lo)%Q)
    by (pose proof (Hlo hi Hinhi); lra).
  assert (HgB : (Qabs (exact hi - exact lo) <= exact hi - exact lo)%Q)
    by (rewrite Qabs_pos by exact Hg; apply Qle_refl).
  assert (HgB' : (Qabs (exact hi - exact lo) <= 2 ^ 100)%Q).
  { apply Qle_trans with (2 := H100); rewrite Qabs_pos by exact Hg; lra. }
  destruct (sub_near hi lo Hfhi Hflo HgB') as [Hfd HnD].
  destruct (near_relative _ _ _ HnD HgB) as [HD1 HD2].
  set (bound := ((3 # 2) * (exact hi - exact lo
                            + ((1 # 281474976710656) * (exact hi - exact lo)
                               + (1 # 1048576))))%Q).
  assert (HwB : (Qabs (exact (hi - lo) * (3 # 2)) <= bound)%Q)
    by (unfold bound; apply Qabs_Qle_condition; split; lra).
  assert (HwB' : (Qabs (exact (hi - lo) * (3 # 2)) <= 2 ^ 100)%Q).
  { apply Qle_trans with (1 := HwB), Qle_trans with (2 := H100).
    unfold bound; lra. }
  destruct (padding_near (hi - lo) Hfd HwB') as [Hfw HnW].
  destruct (near_relative _ _ _ HnW HwB) as [HW1 _].
  assert (Hfs : forallb is_finite [0.01; (hi - lo) * 1.5] = true)
    by (simpl; rewrite Hfw; reflexivity).
  destruct (Math_max_finite [0.01; (hi - lo) * 1.5] ltac:(discriminate) Hfs)
    as [Hfspan [_ Hspan]].
  fold span in Hfspan, Hspan.
  pose proof (Hspan 0.01 ltac:(now left)) as HS1.
  pose proof (Hspan ((hi - lo) * 1.5) ltac:(now right; left)) as HS2.
  pose proof minimum_span_exact as Hmin.
  (* together *)
  split; [exact Hfc | split; [exact Hfspan |]].
  apply Qabs_Qle_condition.
  unfold Qdiv; change (/ 2)%Q with (1 # 2)%Q.
  unfold bound in *; clear bound HwB HwB' HgB HgB' HsumB HTB HT2B HnT HnC HnD HnW.
  revert HA1 HA2 HB1 HB2 HAY HYB HT1 HT2 HC1 HC2 Hg HD1 HD2 HW1 HS1 HS2 Hmin.
  generalize (exact lo), (exact hi), (exact y), (exact (lo + hi)),
    (exact centre), (exact (hi - lo)), (exact ((hi - lo) * 1.5)),
    (exact span), (exact 0.01).
  intros A B Y T C D W S M.
  intros; split; lra.
Qed.

(** Markers within the range are covered by the region. *)
Lemma region_covers_in_range :
  forall coordinates,
    coordinates <> [] -> all_in_range coordinates = true ->
    forall c, In c coordinates -> covers (region_of coordinates) c.
Proof.
  intros coordinates Hne Hrange c Hc.
  assert (Hlat : forallb in_range (map latitude coordinates) = true).
  { apply forallb_forall; intros x Hx.
    apply in_map_iff in Hx as [p [<- Hp]].
    unfold all_in_range in Hrange; rewrite forallb_forall in Hrange.
    now destruct (andb_prop _ _ (Hrange p Hp)). }
  assert (Hlng : forallb in_range (map longitude coordinates) = true).
  { apply forallb_forall; intros x Hx.
    apply in_map_iff in Hx as [p [<- Hp]].
    unfold all_in_range in Hrange; rewrite forallb_forall in Hrange.
    now destruct (andb_prop _ _ (Hrange p Hp)). }
  assert (Hnlat : map latitude coordinates <> [])
    by (destruct coordinates; [congruence | discriminate]).
  assert (Hnlng : map longitude coordinates <> [])
    by (destruct coordinates; [congruence | discriminate]).
  split.
  - apply (axis_covered _ Hnlat Hlat), in_map, Hc.
  - apply (axis_covered _ Hnlng Hlng), in_map, Hc.
Qed.

(** C9, as the code has it: in double arithmetic.  For every non-empty
    list of markers with finite coordinates, the extremes [minLat],
    [maxLat], [minLng] and [maxLng] are coordinates of the list and every
    marker lies between them; the region is centred at [(min + max) / 2] as
    the doubles compute it; each span is [Math.max(0.01, (max - min) * 1.5)]
    as the doubles compute it, is not below the double 0.01 and, when
    finite, has a value of at least 1/100, so it is never zero; the region
    covers every marker (each within half a span of the centre on both
    axes, by the exact values) exactly when it covers the four extremes;
    and it does cover every marker when all coordinates lie within
    [-2^32, 2^32], as latitudes and longitudes do. *)
Theorem region_centred_clamped_covering_extremes :
  forall coordinates,
    coordinates <> [] -> all_finite coordinates = true ->
    let minLat := Math_min (map latitude coordinates) in
    let maxLat := Math_max (map latitude coordinates) in
    let minLng := Math_min (map longitude coordinates) in
    let maxLng := Math_max (map longitude coordinates) in
    let r := region_of coordinates in
    (In minLat (map latitude coordinates)
     /\ In maxLat (map latitude coordinates)
     /\ In minLng (map longitude coordinates)
     /\ In maxLng (map longitude coordinates))
    /\ (forall c, In c coordinates ->
          (exact minLat <= exact (latitude c))%Q
          /\ (exact (latitude c) <= exact maxLat)%Q
          /\ (exact minLng <= exact (longitude c))%Q
          /\ (exact (longitude c) <= exact maxLng)%Q)
    /\ r_latitude r = (minLat + maxLat) / 2
    /\ r_longitude r = (minLng + maxLng) / 2
    /\ latitudeDelta r = Math_max [0.01; (maxLat - minLat) * 1.5]
    /\ longitudeDelta r = Math_max [0.01; (maxLng - minLng) * 1.5]
    /\ (0.01 <=? latitudeDelta r) = true
    /\ (0.01 <=? longitudeDelta r) = true
    /\ (is_finite (latitudeDelta r) = true ->
        (1 # 100 <= exact (latitudeDelta r))%Q)
    /\ (is_finite (longitudeDelta r) = true ->
        (1 # 100 <= exact (longitudeDelta r))%Q)
    /\ ((forall c, In c coordinates -> covers r c) <->
        within_half_span (r_latitude r) (latitudeDelta r) minLat
        /\ within_half_span (r_latitude r) (latitudeDelta r) maxLat
        /\ within_half_span (r_longitude r) (longitudeDelta r) minLng
        /\ within_half_span (r_longitude r) (longitudeDelta r) maxLng)
    /\ (all_in_range coordinates = true ->
        forall c, In c coordinates -> covers r c).
Proof.
  intros coordinates Hne Hfin minLat maxLat minLng maxLng r.
  destruct (all_finite_axes coordinates Hfin) as [Hflat Hflng].
  assert (Hnlat : map latitude coordinates <> [])
    by (destruct coordinates; [congruence | discriminate]).
  assert (Hnlng : map longitude coordinates <> [])
    by (destruct coordinates; [congruence | discriminate]).
  destruct (axis_of_finite_values _ Hnlat Hflat)
    as [Hlat1 [Hlat2 [Hlat3 [Hlat4 [Hlat6 Hlat5]]]]].
  destruct (axis_of_finite_values _ Hnlng Hflng)
    as [Hlng1 [Hlng2 [Hlng3 [Hlng4 [Hlng6 Hlng5]]]]].
  split; [exact (conj Hlat1 (conj Hlat2 (conj Hlng1 Hlng2))) |].
  split.
  { intros c Hc.
    destruct (Hlat3 (latitude c) (in_map latitude _ _ Hc)).
    destruct (Hlng3 (longitude c) (in_map longitude _ _ Hc)).
    repeat split; assumption. }
  do 4 (split; [reflexivity |]).
  split; [exact Hlat4 | split; [exact Hlng4 |]].
  split; [exact Hlat6 | split; [exact Hlng6 |]].
  split; [| intros Hrange; now apply region_covers_in_range].
  split.
  - intros Hall.
    assert (Hlats : forall y, In y (map latitude coordinates) ->
              within_half_span (r_latitude r) (latitudeDelta r) y).
    { intros y Hy; apply in_map_iff in Hy as [c [<- Hc]].
      exact (proj1 (Hall c Hc)). }
    assert (Hlngs : forall y, In y (map longitude coordinates) ->
              within_half_span (r_longitude r) (longitudeDelta r) y).
    { intros y Hy; apply in_map_iff in Hy as [c [<- Hc]].
      exact (proj2 (Hall c Hc)). }
    destruct (proj1 Hlat5 Hlats) as [A B].
    destruct (proj1 Hlng5 Hlngs) as [C D].
    exact (conj A (conj B (conj C D))).
  - intros [H1 [H2 [H3 H4]]] c Hc; split.
    + apply (proj2 Hlat5 (conj H1 H2)), in_map, Hc.
    + apply (proj2 Hlng5 (conj H3 H4)), in_map, Hc.
Qed.

(** C9 as stated fails in double arithmetic.  For the two markers of the
    initial state the centre longitude is not the exact midpoint of the two
    longitudes: the sum is rounded.  And for two markers whose latitudes
    are the adjacent doubles 2^50 and 2^50 + 0.25 the centre is rounded to
    2^50 and the span is 0.375, so the second marker, 0.25 away from the
    centre, is not within half a span of it; these latitudes are outside
    [-2^32, 2^32]. *)
Lemma region_misses_midpoint_and_far_marker :
  default_markers <> []
  /\ all_finite default_markers = true
  /\ ~ (exact (r_longitude (region_of default_markers))
        == (exact (Math_min (map longitude default_markers))
            + exact (Math_max (map longitude default_markers))) / 2)%Q
  /\ far_markers <> []
  /\ all_finite far_markers = true
  /\ all_in_range far_markers = false
  /\ In far_marker far_markers
  /\ r_latitude (region_of far_markers) = 1125899906842624
  /\ latitudeDelta (region_of far_markers) = 0.375
  /\ ~ covers (region_of far_markers) far_marker.
Proof.
  split; [discriminate |].
  split; [vm_compute; reflexivity |].
  split; [vm_compute; discriminate |].
  split; [discriminate |].
  split; [vm_compute; reflexivity |].
  split; [vm_compute; reflexivity |].
  split; [right; left; reflexivity |].
  split; [vm_compute; reflexivity |].
  split; [vm_compute; reflexivity |].
  intros [[_ [_ H]] _]; vm_compute in H; now apply H.
Qed.

End RegionFacts.

Lemma region_centred_clamped_covering_extremes_witness :
  markers_with_rider <> []
  /\ MapRegion.all_finite markers_with_rider = true
  /\ MapRegion.all_in_range markers_with_rider = true
  /\ forall c, In c markers_with_rider ->
       MapRegion.covers (MapRegion.region_of markers_with_rider) c.
Proof.
  assert (Hne : markers_with_rider <> []) by discriminate.
  assert (Hfin : MapRegion.all_finite markers_with_rider = true)
    by (vm_compute; reflexivity).
  assert (Hrange : MapRegion.all_in_range markers_with_rider = true)
    by (vm_compute; reflexivity).
  split; [exact Hne | split; [exact Hfin | split; [exact Hrange |]]].
  destruct (region_centred_clamped_covering_extremes markers_with_rider
              Hne Hfin)
    as [_ [_ [_ [_ [_ [_ [_ [_ [_ [_ [_ Hcover]]]]]]]]]]].
  exact (Hcover Hrange).
Defined.


(** ** Polling loops *)

Section PollingFacts.

Variables UI Resp : Type.
Variable on_settled : Outcome Resp -> UI -> UI.

Let World := Polling.World UI.
Let step := Polling.step UI Resp on_settled.
Let run := Polling.run UI Resp on_settled.

Lemma step_keeps_timers :
  forall (w : World) e,
    Polling.is_cleanup e = false ->
    Polling.timers (step w e) = Polling.timers w.
Proof.
  intros w [h | f r | h] Hc; try discriminate Hc; unfold step; simpl.
  - destruct (Polling.has_timer UI h w); reflexivity.
  - destruct (existsb (Nat.eqb f) (Polling.inflight w)); reflexivity.
Qed.

Lemma run_keeps_timers :
  forall events (w : World),
    forallb (fun e => negb (Polling.is_cleanup e)) events = true ->
    Polling.timers (run w events) = Polling.timers w.
Proof.
  induction events as [| e events IH]; intros w Hall; [reflexivity |].
  simpl in Hall; apply andb_prop in Hall as [He Hall].
  unfold run, Polling.run; simpl.
  fold (Polling.run UI Resp on_settled (Polling.step UI Resp on_settled w e) events).
  fold run; rewrite IH by exact Hall.
  apply step_keeps_timers; now destruct (Polling.is_cleanup e).
Qed.

Variable failed : Outcome Resp -> bool.
Hypothesis failure_keeps_state :
  forall r u, failed r = true -> on_settled r u = u.

Lemma failed_step_keeps_ui :
  forall (w : World) e,
    Polling.is_failure failed e = true ->
    Polling.ui (step w e) = Polling.ui w.
Proof.
  intros w [h | f r | h] Hf; unfold step; simpl.
  - destruct (Polling.has_timer UI h w); reflexivity.
  - destruct (existsb (Nat.eqb f) (Polling.inflight w)); simpl;
      [apply failure_keeps_state; exact Hf | reflexivity].
  - reflexivity.
Qed.

Lemma failed_run_keeps_ui :
  forall events (w : World),
    forallb (Polling.is_failure failed) events = true ->
    Polling.ui (run w events) = Polling.ui w.
Proof.
  induction events as [| e events IH]; intros w Hall; [reflexivity |].
  simpl in Hall; apply andb_prop in Hall as [He Hall].
  unfold run, Polling.run; simpl.
  fold (Polling.run UI Resp on_settled (Polling.step UI Resp on_settled w e) events).
  fold run; rewrite IH by exact Hall.
  now apply failed_step_keeps_ui.
Qed.

End PollingFacts.

Section CleanupFacts.

Variables UI Resp : Type.
Variable on_settled : Outcome Resp -> UI -> UI.

Let World := Polling.World UI.
Let step := Polling.step UI Resp on_settled.

Lemma cleared_timer_is_gone :
  forall (w : World) h,
    Polling.has_timer UI h (step w (Polling.Cleanup h)) = false.
Proof.
  intros w h; unfold step, Polling.has_timer; simpl.
  induction (Polling.timers w) as [| t ts IH]; simpl; [reflexivity |].
  destruct (Nat.eqb (fst t) h) eqn:E; simpl; [exact IH |].
  now rewrite E.
Qed.

Lemma cleared_timer_never_fires :
  forall (w : World) h,
    step (step w (Polling.Cleanup h)) (Polling.TimerFired h) =
    step w (Polling.Cleanup h).
Proof.
  intros w h.
  pose proof (cleared_timer_is_gone w h) as Hgone.
  unfold step in *; simpl in *; now rewrite Hgone.
Qed.

Lemma cleanup_leaves_requests :
  forall (w : World) h f r,
    Polling.inflight (step w (Polling.Cleanup h)) = Polling.inflight w
    /\ (existsb (Nat.eqb f) (Polling.inflight w) = true ->
        Polling.ui (step (step w (Polling.Cleanup h)) (Polling.Settled f r)) =
        on_settled r (Polling.ui w)).
Proof.
  intros w h f r; split; [reflexivity |].
  intros Hin; unfold step; simpl; now rewrite Hin.
Qed.

Lemma only_timer_cleared :
  forall (w : World) h p,
    Polling.timers w = [(h, p)] ->
    Polling.timers (step w (Polling.Cleanup h)) = [].
Proof.
  intros w h p Ht; unfold step; simpl; rewrite Ht; simpl.
  now rewrite Nat.eqb_refl.
Qed.

End CleanupFacts.

Lemma pollRiderLocation_failure :
  forall r prev,
    fetch_failed r = true -> ActiveDelivery.pollRiderLocation r prev = prev.
Proof.
  intros [resp | e] prev Hf; [| reflexivity].
  unfold ActiveDelivery.pollRiderLocation.
  simpl in Hf; apply negb_true_iff in Hf; now rewrite Hf.
Qed.

(** C5, as the code has it.  The rider-location loop is an interval timer of
    30 seconds that no poll result touches: after any sequence of timer
    ticks and settled requests the timer is still registered with the same
    period, whatever failed or succeeded before; and as long as every
    request failed (it threw, or its response reported no success), the
    location state is the one last known. *)
Theorem polling_interval_is_fixed :
  forall (w0 : location_world)
         (events : list (Polling.Event
                           (Types.ApiResponse OrderService.TrackingData))),
    forallb (fun e => negb (Polling.is_cleanup e)) events = true ->
    let started := fst (Polling.location_effect _ location_period true w0) in
    Polling.poll_interval _ (Polling.next_id w0) (location_run started events)
      = Some 30000%Z
    /\ Polling.timers (location_run started events) = Polling.timers started
    /\ (forallb (Polling.is_failure fetch_failed) events = true ->
        Polling.ui (location_run started events) = Polling.ui w0).
Proof.
  intros w0 events Hno started.
  assert (Ht : Polling.timers (location_run started events) =
               Polling.timers started)
    by (apply run_keeps_timers; exact Hno).
  split; [| split; [exact Ht |]].
  - unfold Polling.poll_interval; rewrite Ht; simpl.
    now rewrite Nat.eqb_refl.
  - intros Hfail; unfold location_run.
    rewrite (failed_run_keeps_ui _ _ _ fetch_failed);
      [reflexivity | apply pollRiderLocation_failure | exact Hfail].
Qed.

Lemma polling_interval_is_fixed_witness :
  let started :=
    fst (Polling.location_effect _ location_period true
           (fresh_location_world state_showing_rider)) in
  let events :=
    [ Polling.Settled 1 network_failure;
      Polling.TimerFired 0;
      Polling.Settled 2 network_failure;
      Polling.TimerFired 0;
      Polling.Settled 3 network_failure ] in
  Polling.poll_interval _ 0 (location_run started events) = Some 30000%Z
  /\ Polling.timers (location_run started events) = [(0, 30000%Z)]
  /\ Polling.ui (location_run started events) = state_showing_rider.
Proof.
  intros started events.
  destruct (polling_interval_is_fixed
              (fresh_location_world state_showing_rider) events eq_refl)
    as [Hp [Ht Hu]].
  split; [exact Hp | split; [exact Ht | exact (Hu eq_refl)]].
Defined.

(** C5 as stated fails: after one, two and three consecutive failed fetches
    the interval is still 30000 ms, where doubling under a ceiling of
    120000 ms asks for 60000, 120000 and 120000. *)
Lemma polling_interval_does_not_double :
  let started :=
    fst (Polling.location_effect _ location_period true
           (fresh_location_world state_showing_rider)) in
  let one := [ Polling.Settled 1 network_failure ] in
  let three :=
    [ Polling.Settled 1 network_failure;
      Polling.TimerFired 0;
      Polling.Settled 2 network_failure;
      Polling.TimerFired 0;
      Polling.Settled 3 network_failure ] in
  Polling.poll_interval _ 0 started = Some 30000%Z
  /\ Polling.poll_interval _ 0 (location_run started one) = Some 30000%Z
  /\ Polling.poll_interval _ 0 (location_run started three) = Some 30000%Z
  /\ Polling.spec_retry_interval 30000 120000 1 = 60000%Z
  /\ Polling.spec_retry_interval 30000 120000 3 = 120000%Z
  /\ Polling.poll_interval _ 0 (location_run started one)
     <> Some (Polling.spec_retry_interval 30000 120000 1).
Proof.
  repeat split; try reflexivity; discriminate.
Qed.

(** The rider-status loop of the delivery-created screen keeps its period
    of 5 seconds in the same way. *)
Lemma status_polling_interval_is_fixed :
  forall (w0 : status_world)
         (events : list (Polling.Event
                           (Types.ApiResponse ActiveDelivery.OrderDetails))),
    forallb (fun e => negb (Polling.is_cleanup e)) events = true ->
    let started := fst (Polling.status_effect _ status_period w0) in
    Polling.poll_interval _ (S (Polling.next_id w0)) (status_run started events)
      = Some 5000%Z.
Proof.
  intros w0 events Hno started.
  unfold Polling.poll_interval, status_run.
  rewrite run_keeps_timers by exact Hno; simpl.
  now rewrite Nat.eqb_refl.
Qed.

(** C6, as the code has it.  The cleanup of either polling effect clears
    the interval timer: the timer is gone, a tick of it starts nothing, and
    when it was the only timer none is left.  A request in flight is not
    cancelled: it is still in flight after the cleanup, and when it settles
    its handler runs on the component state. *)
Theorem cleanup_clears_timer_only :
  forall (w : location_world) (w' : status_world) (h f : nat)
         (r : Outcome (Types.ApiResponse OrderService.TrackingData))
         (r' : Outcome (Types.ApiResponse ActiveDelivery.OrderDetails)),
    (Polling.has_timer _ h (location_step w (Polling.Cleanup h)) = false
     /\ location_step (location_step w (Polling.Cleanup h)) (Polling.TimerFired h)
        = location_step w (Polling.Cleanup h)
     /\ (forall p, Polling.timers w = [(h, p)] ->
           Polling.timers (location_step w (Polling.Cleanup h)) = [])
     /\ Polling.inflight (location_step w (Polling.Cleanup h)) = Polling.inflight w
     /\ (existsb (Nat.eqb f) (Polling.inflight w) = true ->
         Polling.ui (location_step (location_step w (Polling.Cleanup h))
                       (Polling.Settled f r))
         = ActiveDelivery.pollRiderLocation r (Polling.ui w)))
    /\ (Polling.has_timer _ h (status_step w' (Polling.Cleanup h)) = false
        /\ status_step (status_step w' (Polling.Cleanup h)) (Polling.TimerFired h)
           = status_step w' (Polling.Cleanup h)
        /\ (forall p, Polling.timers w' = [(h, p)] ->
              Polling.timers (status_step w' (Polling.Cleanup h)) = [])
        /\ Polling.inflight (status_step w' (Polling.Cleanup h)) = Polling.inflight w'
        /\ (existsb (Nat.eqb f) (Polling.inflight w') = true ->
            Polling.ui (status_step (status_step w' (Polling.Cleanup h))
                          (Polling.Settled f r'))
            = DeliveryCreated.pollRiderStatus r' (Polling.ui w'))).
Proof.
  intros w w' h f r r'; split.
  - split; [apply cleared_timer_is_gone |].
    split; [apply cleared_timer_never_fires |].
    split; [intros p; apply only_timer_cleared |].
    apply cleanup_leaves_requests.
  - split; [apply cleared_timer_is_gone |].
    split; [apply cleared_timer_never_fires |].
    split; [intros p; apply only_timer_cleared |].
    apply cleanup_leaves_requests.
Qed.

Lemma cleanup_clears_timer_only_witness :
  let started :=
    fst (Polling.location_effect _ location_period true
           (fresh_location_world ActiveDelivery.initialLocationState)) in
  Polling.timers started = [(0, 30000%Z)]
  /\ Polling.inflight started = [1]
  /\ Polling.timers (location_step started (Polling.Cleanup 0)) = []
  /\ Polling.ui (location_step (location_step started (Polling.Cleanup 0))
                   (Polling.Settled 1 tracking_with_rider))
     = ActiveDelivery.pollRiderLocation tracking_with_rider
         ActiveDelivery.initialLocationState.
Proof.
  intros started.
  destruct (cleanup_clears_timer_only started
              (Polling.mkWorld DeliveryCreated.initialState [] [] 0)
              0 1 tracking_with_rider (Threw "unused"))
    as [[_ [_ [Hnone [_ Hrun]]]] _].
  split; [reflexivity | split; [reflexivity |]].
  split; [apply (Hnone 30000%Z); reflexivity | apply Hrun; reflexivity].
Defined.

(** C6 as stated fails: after the cleanup the first request is still in
    flight, and when it settles the screen takes the rider location from
    it. *)
Lemma settled_request_updates_after_cleanup :
  let started :=
    fst (Polling.location_effect _ location_period true
           (fresh_location_world ActiveDelivery.initialLocationState)) in
  let cleaned := location_step started (Polling.Cleanup 0) in
  let later := location_step cleaned (Polling.Settled 1 tracking_with_rider) in
  Polling.timers cleaned = []
  /\ Polling.inflight cleaned = [1]
  /\ ActiveDelivery.riderLocation (Polling.ui cleaned) = None
  /\ ActiveDelivery.riderLocation (Polling.ui later) =
       Some {| ActiveDelivery.latitude := 69 # 10;
               ActiveDelivery.longitude := 799 # 10 |}
  /\ Polling.ui later <> Polling.ui cleaned.
Proof.
  repeat split; try reflexivity; discriminate.
Qed.

(** ** Custody scans *)

Section CustodyFacts.
Import Custody.

Lemma scan_type_eqb_eq :
  forall a b, scan_type_eqb a b = true <-> a = b.
Proof. intros [] []; simpl; split; congruence. Qed.


Lemma insert_by_time_existsb :
  forall (f : ScanEvent -> bool) e log,
    existsb f (insert_by_time e log) = f e || existsb f log.
Proof.
  intros f e log; induction log as [| y rest IH]; simpl.
  - reflexivity.
  - destruct (recorded_at y <=? recorded_at e)%Z; simpl; [| reflexivity].
    rewrite IH; destruct (f e), (f y); reflexivity.
Qed.



(** An event recorded no earlier than the events of the log goes to its
    end. *)
Lemma insert_by_time_appends :
  forall e log,
    (forall x, In x log -> (recorded_at x <= recorded_at e)%Z) ->
    insert_by_time e log = (log ++ [e])%list.
Proof.
  intros e log; induction log as [| y rest IH]; intros H; simpl;
    [reflexivity |].
  destruct (Z.leb_spec (recorded_at y) (recorded_at e)) as [_ | Hgt].
  - rewrite IH; [reflexivity |]; intros x Hx; apply H; now right.
  - specialize (H y (or_introl eq_refl)); lia.
Qed.


Lemma has_successful_before_spec :
  forall log order ty t,
    has_successful_before log order ty t = true <->
    exists p,
      In p log /\ scan_type p = ty /\ order_id p = order
      /\ scan_success p = true /\ (recorded_at p < t)%Z.
Proof.
  intros log order ty t; unfold has_successful_before; rewrite existsb_exists.
  split.
  - intros [p [Hin Hp]].
    apply andb_prop in Hp as [Hp Ht]; apply andb_prop in Hp as [Hp Hs].
    apply andb_prop in Hp as [Hty Ho].
    apply scan_type_eqb_eq in Hty; apply String.eqb_eq in Ho.
    apply Z.ltb_lt in Ht; exists p; repeat split; assumption.
  - intros [p [Hin [Hty [Ho [Hs Ht]]]]]; exists p; split; [exact Hin |].
    apply Z.ltb_lt in Ht; rewrite Ht, Hs, andb_true_r, andb_true_r.
    apply andb_true_intro; split;
      [now apply scan_type_eqb_eq | now apply String.eqb_eq].
Qed.

Lemma has_successful_spec :
  forall log order ty,
    has_successful log order ty = true <->
    exists p,
      In p log /\ scan_type p = ty /\ order_id p = order
      /\ scan_success p = true.
Proof.
  intros log order ty; unfold has_successful; rewrite existsb_exists.
  split.
  - intros [p [Hin Hp]].
    apply andb_prop in Hp as [Hp Hs]; apply andb_prop in Hp as [Hty Ho].
    apply scan_type_eqb_eq in Hty; apply String.eqb_eq in Ho.
    exists p; repeat split; assumption.
  - intros [p [Hin [Hty [Ho Hs]]]]; exists p; split; [exact Hin |].
    rewrite Hs, andb_true_r.
    apply andb_true_intro; split;
      [now apply scan_type_eqb_eq | now apply String.eqb_eq].
Qed.

(** A pickup recorded before [t] is a pickup in the log. *)
Lemma has_successful_before_has :
  forall log order ty t,
    has_successful_before log order ty t = true ->
    has_successful log order ty = true.
Proof.
  intros log order ty t Hb.
  apply has_successful_before_spec in Hb as [p [Hin [Hty [Ho [Hs _]]]]].
  apply has_successful_spec; exists p; repeat split; assumption.
Qed.





(** The screen never holds a custody item: every load leaves the list
    empty. *)
Lemma chain_of_custody_stays_empty :
  forall loads : list (option string),
    fold_left (fun chain qr => load_chain_of_custody qr chain) loads [] = [].
Proof.
  induction loads as [| qr loads IH]; [reflexivity |].
  simpl; unfold load_chain_of_custody at 2.
  destruct (truthy qr); exact IH.
Qed.

(** What [getOrderQR] returns is the first QR code of type pickup; it looks
    at no scan. *)
Lemma getOrderQR_returns_pickup :
  forall stringify response r,
    OrderService.getOrderQR stringify response = Returned r ->
    exists code qr,
      OrderService.qr_type code = "pickup"
      /\ Types.data r = Some qr
      /\ OrderService.qr_id qr = OrderService.qr_code_id code.
Proof.
  intros stringify [resp | e] r Hr; [| discriminate Hr].
  unfold OrderService.getOrderQR in Hr.
  destruct (Types.success resp); [| discriminate Hr].
  destruct (Types.data resp) as [d |]; [| discriminate Hr].
  destruct (find _ _) as [code |] eqn:Hfind; [| discriminate Hr].
  apply find_some in Hfind as [_ Hty]; apply String.eqb_eq in Hty.
  injection Hr as <-; exists code; eexists; repeat split; exact Hty.
Qed.


End CustodyFacts.


(** * Further properties *)

(** ** Dashboard metrics *)

Section DashboardFacts.
Import OrderLists.

Variable toDateString : string -> string.
Variable today : string.

Lemma nodup_length_le :
  forall (l : list string), length (nodup string_dec l) <= length l.
Proof.
  induction l as [| x l IH]; simpl; [lia |].
  destruct (in_dec string_dec x l); simpl; lia.
Qed.

Lemma filter_length_mono :
  forall (A : Type) (f g : A -> bool) (l : list A),
    (forall x, In x l -> f x = true -> g x = true) ->
    length (filter f l) <= length (filter g l).
Proof.
  intros A f g l; induction l as [| x l IH]; intros Himp; simpl; [lia |].
  assert (IH' : length (filter f l) <= length (filter g l))
    by (apply IH; intros y Hy; apply Himp; now right).
  destruct (f x) eqn:Hf.
  - rewrite (Himp x (or_introl eq_refl) Hf); simpl; lia.
  - destruct (g x); simpl; lia.
Qed.

(** X1.  In the dashboard metrics the orders in transit split into those
    with a rider and those without: the two counts add up to the number in
    transit.  No count exceeds the number of orders fetched. *)
Theorem dashboard_in_transit_split :
  forall all : list ListedOrder,
    let m := dashboard_metrics toDateString today all in
    with_riders m + pending m = in_transit_now m
    /\ in_transit_now m <= length all
    /\ total_orders_today m <= length all
    /\ completed_deliveries m <= length all
    /\ partner_hospitals m <= length all.
Proof.
  intros all m; unfold m, dashboard_metrics; cbn.
  split; [apply filter_length |].
  repeat split; try apply filter_length_le.
  rewrite <- (length_map lo_hospital_id all); apply nodup_length_le.
Qed.

Lemma ratio_of_counts :
  forall c t : nat,
    0 < t ->
    (c <= t -> (0 <= inject_Z (Z.of_nat c) / inject_Z (Z.of_nat t) <= 1)%Q)
    /\ (2 * t <= c -> (2 <= inject_Z (Z.of_nat c) / inject_Z (Z.of_nat t))%Q).
Proof.
  intros c t Ht.
  assert (Htq : (0 < inject_Z (Z.of_nat t))%Q)
    by (change 0%Q with (inject_Z 0); rewrite <- Zlt_Qlt; lia).
  assert (Hcq : (0 <= inject_Z (Z.of_nat c))%Q)
    by (change 0%Q with (inject_Z 0); rewrite <- Zle_Qle; lia).
  split; intros Hc.
  - assert (Hle : (inject_Z (Z.of_nat c) <= inject_Z (Z.of_nat t))%Q)
      by (rewrite <- Zle_Qle; lia).
    revert Htq Hcq Hle.
    generalize (inject_Z (Z.of_nat c)) (inject_Z (Z.of_nat t)); intros x y Hy Hx Hxy.
    split.
    + apply Qle_shift_div_l; [exact Hy |].
      rewrite Qmult_0_l; exact Hx.
    + apply Qle_shift_div_r; [exact Hy |].
      rewrite Qmult_1_l; exact Hxy.
  - assert (Hle : (inject_Z 2 * inject_Z (Z.of_nat t) <= inject_Z (Z.of_nat c))%Q)
      by (rewrite <- inject_Z_mult, <- Zle_Qle; lia).
    apply Qle_shift_div_l; [exact Htq | exact Hle].
Qed.

Lemma round_ratio_bounds :
  forall c t : nat,
    0 < t -> c <= t ->
    (0 <= Math_round ((inject_Z (Z.of_nat c) / inject_Z (Z.of_nat t)) * 100)%Q
     <= 100)%Z.
Proof.
  intros c t Ht Hc; unfold Math_round.
  destruct (proj1 (ratio_of_counts c t Ht) Hc) as [Hq0 Hq1].
  revert Hq0 Hq1; generalize (inject_Z (Z.of_nat c) / inject_Z (Z.of_nat t))%Q.
  intros q Hq0 Hq1; clear Ht Hc; split.
  - apply (Qfloor_resp_le 0); Lqa.lra.
  - apply (Qfloor_resp_le _ (201 # 2)); Lqa.lra.
Qed.

Lemma round_ratio_large :
  forall c t : nat,
    0 < t -> 2 * t <= c ->
    (200 <= Math_round ((inject_Z (Z.of_nat c) / inject_Z (Z.of_nat t)) * 100)%Q)%Z.
Proof.
  intros c t Ht Hc; unfold Math_round.
  pose proof (proj2 (ratio_of_counts c t Ht) Hc) as Hq.
  revert Hq; generalize (inject_Z (Z.of_nat c) / inject_Z (Z.of_nat t))%Q.
  intros q Hq; clear Ht Hc.
  apply (Qfloor_resp_le 200); Lqa.lra.
Qed.

(** X2.  The completion rate is 100 when no order was created today.  It
    lies between 0 and 100 when every order delivered today was also
    created today.  It is not capped: with at least twice as many orders
    delivered today as created today it is 200 or more. *)
Theorem dashboard_completion_rate :
  forall all : list ListedOrder,
    let m := dashboard_metrics toDateString today all in
    (total_orders_today m = 0 -> completion_rate m = 100%Z)
    /\ ((forall o, In o all ->
           delivered_today toDateString today o = true ->
           created_today toDateString today o = true) ->
        (0 <= completion_rate m <= 100)%Z)
    /\ (0 < total_orders_today m ->
        2 * total_orders_today m <= completed_deliveries m ->
        (200 <= completion_rate m)%Z).
Proof.
  intros all m; unfold m, dashboard_metrics; cbn -[Math_round Nat.ltb].
  split; [| split].
  - intros ->; reflexivity.
  - intros Hsub.
    destruct (Nat.ltb_spec 0 (length (filter (created_today toDateString today) all)))
      as [Hpos | Hzero]; [| lia].
    apply round_ratio_bounds; [exact Hpos |].
    apply filter_length_mono; exact Hsub.
  - intros Hpos Hmany.
    destruct (Nat.ltb_spec 0 (length (filter (created_today toDateString today) all)))
      as [_ | Hzero]; [| lia].
    now apply round_ratio_large.
Qed.

End DashboardFacts.

Lemma dashboard_completion_rate_witness :
  (0 <= OrderLists.completion_rate
          (OrderLists.dashboard_metrics date_part sample_today listed_orders)
   <= 100)%Z.
Proof.
  apply (proj1 (proj2 (dashboard_completion_rate date_part sample_today
                         listed_orders))).
  intros o [<- | [<- | [<- | []]]]; intros H; try discriminate H; reflexivity.
Defined.

(** ** Recent activity, rider contact, QR code *)

Section ActivityFacts.
Import OrderLists.



Lemma replace_first_underscore_none :
  forall s, underscores s = 0 -> replace_first_underscore s = s.
Proof.
  induction s as [| c s IH]; simpl; [reflexivity |].
  destruct (Ascii.eqb c "_"); simpl; [discriminate |].
  intros H; now rewrite IH.
Qed.


End ActivityFacts.


Section ContactFacts.
Import Types OrderLists.

Lemma text_or_nonempty :
  forall a fallback, fallback <> EmptyString -> text_or a fallback <> EmptyString.
Proof.
  intros [s |] fallback Hf; unfold text_or; [| exact Hf].
  destruct (String.eqb_spec s EmptyString); assumption.
Qed.

(** X4.  The rider contact is returned only for a successful response
    whose order has a rider, and then neither name nor phone is empty.  A
    response without success, without data or without a rider is rejected
    with the message that no rider is assigned; a failed request is passed
    on. *)
Theorem contactRider_needs_rider :
  forall (response : Outcome (ApiResponse ActiveDelivery.OrderDetails)),
    (forall r, contactRider response = Returned r ->
       exists resp d c,
         response = Returned resp
         /\ success resp = true /\ data resp = Some d
         /\ truthy (rider_id (ActiveDelivery.order d)) = true
         /\ data r = Some c
         /\ contact_name c <> EmptyString
         /\ contact_phone c <> EmptyString)
    /\ (forall resp,
          response = Returned resp ->
          (success resp = false \/ data resp = None
           \/ exists d, data resp = Some d
                        /\ truthy (rider_id (ActiveDelivery.order d)) = false) ->
          contactRider response = Threw "No rider assigned to this order")
    /\ (forall e, response = Threw e -> contactRider response = Threw e).
Proof.
  intros response; split; [| split].
  - intros r Hr; unfold contactRider in Hr.
    destruct response as [resp | e]; [| discriminate Hr].
    destruct (success resp) eqn:Hs; [| discriminate Hr].
    destruct (data resp) as [d |] eqn:Hd; [| discriminate Hr].
    destruct (truthy (rider_id (ActiveDelivery.order d))) eqn:Hrider;
      [| discriminate Hr].
    injection Hr as <-.
    exists resp, d; eexists; repeat split; try eassumption; try reflexivity;
      cbn; apply text_or_nonempty; discriminate.
  - intros resp -> Hbad; unfold contactRider.
    destruct Hbad as [-> | [Hd | [d [Hd Hr]]]]; [reflexivity | |].
    + rewrite Hd; now destruct (success resp).
    + rewrite Hd; destruct (success resp); [cbn; now rewrite Hr | reflexivity].
  - intros e ->; reflexivity.
Qed.

(** X5.  For the same fetched order the delivery-created screen and the
    rider contact show the same rider name.  The phone is the same when
    there is one; without one the screen holds the empty string while the
    contact reads N/A. *)
Theorem rider_contact_agrees_with_status_screen :
  forall (resp : ApiResponse ActiveDelivery.OrderDetails)
         (st : DeliveryCreated.ScreenState) (r : ApiResponse RiderContact)
         (c : RiderContact),
    contactRider (Returned resp) = Returned r ->
    data r = Some c ->
    exists rider,
      DeliveryCreated.rs_rider
        (DeliveryCreated.riderStatus
           (DeliveryCreated.pollRiderStatus (Returned resp) st)) = Some rider
      /\ DeliveryCreated.r_rider_name rider = contact_name c
      /\ (DeliveryCreated.r_phone rider <> EmptyString ->
          DeliveryCreated.r_phone rider = contact_phone c)
      /\ (DeliveryCreated.r_phone rider = EmptyString ->
          contact_phone c = "N/A").
Proof.
  intros resp st r c Hr Hc.
  unfold contactRider in Hr; unfold DeliveryCreated.pollRiderStatus.
  destruct (success resp); [| discriminate Hr].
  destruct (data resp) as [d |]; [| discriminate Hr].
  destruct (truthy (rider_id (ActiveDelivery.order d))); [| discriminate Hr].
  injection Hr as <-; cbn in Hc; injection Hc as <-; cbn.
  eexists; split; [reflexivity |]; cbn.
  split; [reflexivity |].
  generalize (or_else (rider_info_phone (ActiveDelivery.order d))
                      (rider_phone (ActiveDelivery.order d))).
  intros [s |]; unfold text_or.
  - destruct (String.eqb_spec s EmptyString) as [-> | Hne]; split;
      intros H; try reflexivity; try contradiction; now elim H.
  - split; intros H; [now elim H | reflexivity].
Qed.

End ContactFacts.

Lemma rider_contact_agrees_with_status_screen_witness :
  exists rider,
    DeliveryCreated.rs_rider
      (DeliveryCreated.riderStatus
         (DeliveryCreated.pollRiderStatus (Returned order_with_unnamed_rider)
            DeliveryCreated.initialState)) = Some rider
    /\ DeliveryCreated.r_rider_name rider = "Rider"
    /\ (DeliveryCreated.r_phone rider <> EmptyString ->
        DeliveryCreated.r_phone rider = "N/A")
    /\ (DeliveryCreated.r_phone rider = EmptyString -> "N/A" = "N/A").
Proof.
  apply (rider_contact_agrees_with_status_screen order_with_unnamed_rider
           DeliveryCreated.initialState
           (Types.mkResponse true "Rider contact retrieved successfully"
              (Some (OrderLists.mkContact "Rider" "N/A")))
           (OrderLists.mkContact "Rider" "N/A")); reflexivity.
Defined.

Section QrFacts.
Import Types OrderService.

Lemma find_first :
  forall (A : Type) (p : A -> bool) (pre post : list A) (x : A),
    (forall y, In y pre -> p y = false) -> p x = true ->
    find p (pre ++ x :: post)%list = Some x.
Proof.
  intros A p pre post x; induction pre as [| y pre IH]; intros Hpre Hx; simpl.
  - now rewrite Hx.
  - rewrite (Hpre y (or_introl eq_refl)); apply IH; [| exact Hx].
    intros z Hz; apply Hpre; now right.
Qed.

Lemma find_none_all :
  forall (A : Type) (p : A -> bool) (l : list A),
    (forall y, In y l -> p y = false) -> find p l = None.
Proof.
  intros A p l; induction l as [| y l IH]; intros Hall; simpl; [reflexivity |].
  rewrite (Hall y (or_introl eq_refl)); apply IH.
  intros z Hz; apply Hall; now right.
Qed.

(** X6.  Of the QR codes of an order the first one of type pickup is
    returned, whatever precedes or follows it.  Without any pickup code,
    or without a list, the call is rejected with the message that no pickup
    QR code was found. *)
Theorem getOrderQR_first_pickup :
  forall (stringify : string -> string -> string -> string -> string)
         (msg : string) (d : QrListing),
    let response := Returned (mkResponse true msg (Some d)) in
    (forall pre code post,
       qr_codes d = Some (pre ++ code :: post)%list ->
       (forall c, In c pre -> qr_type c <> "pickup") ->
       qr_type code = "pickup" ->
       getOrderQR stringify response =
         Returned
           {| success := true;
              message := "QR code retrieved successfully";
              data := Some
                {| qr_id := qr_code_id code;
                   qr_data := stringify (qr_code_id code) "pickup"
                                (listing_order_id d) (qr_created_at code) |} |})
    /\ (forall codes,
          qr_codes d = None \/ qr_codes d = Some codes ->
          (forall c, In c codes -> qr_type c <> "pickup") ->
          getOrderQR stringify response = Threw "No pickup QR code found for order").
Proof.
  intros stringify msg d response; unfold response, getOrderQR; cbn.
  split.
  - intros pre code post -> Hpre Hcode.
    rewrite (find_first _ _ pre post code); [reflexivity | | ].
    + intros y Hy; apply String.eqb_neq; now apply Hpre.
    + now apply String.eqb_eq.
  - intros codes [-> | ->] Hall; [reflexivity |].
    rewrite find_none_all; [reflexivity |].
    intros y Hy; apply String.eqb_neq; now apply Hall.
Qed.

End QrFacts.

(** ** Timeline, loading and coordinates *)

Section MoreTimelineFacts.
Import Types Timeline.

Ltac case_status s :=
  destruct (String.eqb_spec s "pending_rider_assignment") as [-> | ?];
  [ | destruct (String.eqb_spec s "assigned") as [-> | ?];
  [ | destruct (String.eqb_spec s "pickup_started") as [-> | ?];
  [ | destruct (String.eqb_spec s "picked_up") as [-> | ?];
  [ | destruct (String.eqb_spec s "delivery_started") as [-> | ?];
  [ | destruct (String.eqb_spec s "delivered") as [-> | ?] ] ] ] ] ].

(** X7.  The timeline never has two current steps.  It has exactly one
    when the status is one of pending_rider_assignment, assigned,
    pickup_started, picked_up and delivery_started, and none when the
    status is outside these and delivered (cancelled, for one). *)
Theorem timeline_at_most_one_current :
  forall (fmt : string -> option string) (H : Type) (o : Order) (h : list H),
    let states := map step_status (buildTimelineFromOrder fmt o h) in
    length (filter is_current states) <= 1
    /\ (includes ["pending_rider_assignment"; "assigned"; "pickup_started";
                  "picked_up"; "delivery_started"] (status o) = true ->
        length (filter is_current states) = 1)
    /\ (includes ["pending_rider_assignment"; "assigned"; "pickup_started";
                  "picked_up"; "delivery_started"; "delivered"] (status o) = false ->
        filter is_current states = []).
Proof.
  intros fmt H o h states; unfold states.
  rewrite statuses_of_timeline; unfold code_state, lookup_step, includes.
  cbn -[String.eqb truthy].
  generalize (status o); intro st.
  case_status st; cbn -[truthy];
    repeat match goal with
           | |- context [truthy ?x] => destruct (truthy x)
           end;
    cbn; repeat split; intros; try discriminate; try lia; reflexivity.
Qed.

End MoreTimelineFacts.

Section LoadFacts.
Import Types.

(** On responses that carry their order the load is that of
    [ActiveDelivery.loadOrderData]. *)
Lemma loadOrderData_with_order :
  forall fmt (r : Outcome (ApiResponse ActiveDelivery.OrderDetails))
         (q : Outcome (ApiResponse OrderService.OrderQR))
         (st : ActiveDelivery.ScreenState),
    ActiveDeliveryRaw.loadOrderData fmt (ActiveDeliveryRaw.with_order r) q st
    = ActiveDelivery.loadOrderData fmt r q st.
Proof.
  intros fmt [resp | e] q st; [| reflexivity].
  unfold ActiveDeliveryRaw.loadOrderData, ActiveDelivery.loadOrderData.
  cbn [ActiveDeliveryRaw.with_order success data].
  destruct (success resp); [| reflexivity].
  destruct (data resp) as [[o h] |]; reflexivity.
Qed.

(** X8.  After a load of the order the loading flag is always off.  A
    load whose request throws, or whose response reports no success or
    carries no data, changes nothing else.  At most one alert is raised,
    and one is raised exactly when the order request throws, when its
    successful response has data without an order (the stored order is then
    cleared and nothing else changes), or when the QR request, made for an
    order with a rider, throws.  On a response that carries its order the
    load is that of [ActiveDelivery.loadOrderData]. *)
Theorem loadOrderData_clears_loading :
  forall fmt (r : Outcome (ApiResponse ActiveDeliveryRaw.OrderDetails))
         (q : Outcome (ApiResponse OrderService.OrderQR))
         (st : ActiveDelivery.ScreenState),
    ActiveDelivery.isLoading (fst (ActiveDeliveryRaw.loadOrderData fmt r q st))
      = false
    /\ (fetch_failed r = true \/ (exists resp, r = Returned resp /\ data resp = None) ->
        fst (ActiveDeliveryRaw.loadOrderData fmt r q st)
          = ActiveDelivery.set_loading false st)
    /\ (snd (ActiveDeliveryRaw.loadOrderData fmt r q st) = []
        \/ snd (ActiveDeliveryRaw.loadOrderData fmt r q st)
           = ["Failed to load delivery details"])
    /\ (snd (ActiveDeliveryRaw.loadOrderData fmt r q st) <> [] <->
        ActiveDeliveryRaw.order_request_fails r
        \/ ActiveDeliveryRaw.qr_request_fails r q)
    /\ (forall resp d,
          r = Returned resp -> success resp = true -> data resp = Some d ->
          ActiveDeliveryRaw.order d = None ->
          ActiveDeliveryRaw.loadOrderData fmt r q st
          = (ActiveDelivery.set_loading false (ActiveDeliveryRaw.clear_order st),
             ["Failed to load delivery details"]))
    /\ (forall r0,
          r = ActiveDeliveryRaw.with_order r0 ->
          ActiveDeliveryRaw.loadOrderData fmt r q st
          = ActiveDelivery.loadOrderData fmt r0 q st).
Proof.
  intros fmt r q st.
  assert (Htyped : forall r0,
            r = ActiveDeliveryRaw.with_order r0 ->
            ActiveDeliveryRaw.loadOrderData fmt r q st
            = ActiveDelivery.loadOrderData fmt r0 q st)
    by (intros r0 ->; apply loadOrderData_with_order).
  unfold ActiveDeliveryRaw.loadOrderData.
  split; [| split; [| split; [| split; [| split; [| exact Htyped]]]]].
  - destruct r as [resp | e]; [| reflexivity].
    destruct (if success resp then data resp else None) as [d |]; [| reflexivity].
    destruct (ActiveDeliveryRaw.order d) as [o |]; [| reflexivity].
    destruct (truthy (rider_id o)); [| reflexivity].
    destruct q as [qr | e]; [| reflexivity].
    destruct (if success qr then data qr else None); reflexivity.
  - intros [Hf | [resp [-> Hd]]].
    + destruct r as [resp | e]; [| reflexivity].
      simpl in Hf; apply negb_true_iff in Hf; now rewrite Hf.
    + rewrite Hd; now destruct (success resp).
  - destruct r as [resp | e]; [| now right].
    destruct (if success resp then data resp else None) as [d |]; [| now left].
    destruct (ActiveDeliveryRaw.order d) as [o |]; [| now right].
    destruct (truthy (rider_id o)); [| now left].
    destruct q as [qr | e]; [| now right].
    destruct (if success qr then data qr else None); now left.
  - unfold ActiveDeliveryRaw.order_request_fails,
      ActiveDeliveryRaw.qr_request_fails.
    destruct r as [resp | e];
      [| split; [intros _; left; left; now exists e | discriminate]].
    destruct (success resp) eqn:Hs.
    + destruct (data resp) as [d |] eqn:Hd.
      * destruct (ActiveDeliveryRaw.order d) as [o |] eqn:Ho.
        -- destruct (truthy (rider_id o)) eqn:Hrider.
           ++ destruct q as [qr | e].
              ** split.
                 --- intros Hne; exfalso; apply Hne.
                     now destruct (if success qr then data qr else None).
                 --- intros [[[e He] | [resp' [d' [Hr [_ [Hd' Ho']]]]]]
                            | [resp' [d' [o' [e [_ [_ [_ [_ [_ Hq]]]]]]]]]];
                       try discriminate.
                     injection Hr as <-; rewrite Hd in Hd'.
                     injection Hd' as <-; congruence.
              ** split; [| discriminate].
                 intros _; right; exists resp, d, o, e; repeat split; assumption.
           ++ split; [intros Hne; now elim Hne |].
              intros [[[e He] | [resp' [d' [Hr [_ [Hd' Ho']]]]]]
                     | [resp' [d' [o' [e [Hr [_ [Hd' [Ho' [Hrider' _]]]]]]]]]];
                try discriminate.
              ** injection Hr as <-; rewrite Hd in Hd'.
                 injection Hd' as <-; congruence.
              ** injection Hr as <-; rewrite Hd in Hd'.
                 injection Hd' as <-; rewrite Ho in Ho'.
                 injection Ho' as <-; congruence.
        -- split; [| discriminate].
           intros _; left; right; exists resp, d; repeat split; assumption.
      * split; [intros Hne; now elim Hne |].
        intros [[[e He] | [resp' [d' [Hr [_ [Hd' _]]]]]]
               | [resp' [d' [o' [e [Hr [_ [Hd' _]]]]]]]];
          try discriminate; injection Hr as <-; congruence.
    + split; [intros Hne; now elim Hne |].
      intros [[[e He] | [resp' [d' [Hr [Hs' _]]]]]
             | [resp' [d' [o' [e [Hr [Hs' _]]]]]]];
        try discriminate; injection Hr as <-; congruence.
  - intros resp d -> Hs Hd Ho; now rewrite Hs, Hd, Ho.
Qed.

End LoadFacts.

Lemma loadOrderData_clears_loading_witness :
  ActiveDeliveryRaw.loadOrderData raw_label response_without_order no_qr
    (ActiveDelivery.apply_order raw_label
       {| ActiveDelivery.order := order_waiting;
          ActiveDelivery.status_history := None |}
       ActiveDelivery.initialState)
  = (ActiveDelivery.set_loading false
       (ActiveDeliveryRaw.clear_order
          (ActiveDelivery.apply_order raw_label
             {| ActiveDelivery.order := order_waiting;
                ActiveDelivery.status_history := None |}
             ActiveDelivery.initialState)),
     ["Failed to load delivery details"]).
Proof.
  destruct (loadOrderData_clears_loading raw_label response_without_order no_qr
              (ActiveDelivery.apply_order raw_label
                 {| ActiveDelivery.order := order_waiting;
                    ActiveDelivery.status_history := None |}
                 ActiveDelivery.initialState))
    as [_ [_ [_ [_ [Hmissing _]]]]].
  exact (Hmissing _ _ eq_refl eq_refl eq_refl eq_refl).
Defined.

Section CoordinateFacts.
Import Types.

Lemma coord_or_nonzero :
  forall v prev, ~ (prev == 0)%Q -> ~ (ActiveDelivery.coord_or v prev == 0)%Q.
Proof.
  intros [[| q] |] prev Hprev; unfold ActiveDelivery.coord_or; try exact Hprev.
  destruct (Qeq_bool q 0) eqn:E; [exact Hprev |].
  now apply Qeq_bool_neq.
Qed.

Lemma truthy_num_nonzero :
  forall q, truthy_opt (Some (Num q)) = true -> ~ (q == 0)%Q.
Proof.
  intros q H; simpl in H; apply negb_true_iff in H; now apply Qeq_bool_neq.
Qed.

Lemma pollRiderLocation_keeps_nonzero :
  forall r ls,
    nonzero_coordinates ls ->
    nonzero_coordinates (ActiveDelivery.pollRiderLocation r ls).
Proof.
  intros r ls Hinv; unfold ActiveDelivery.pollRiderLocation.
  destruct r as [resp | e]; [| exact Hinv].
  destruct (if success resp then data resp else None) as [d |]; [| exact Hinv].
  destruct (truthy_opt (ActiveDelivery.tracked_lat d)) eqn:Hlat; [| exact Hinv].
  destruct (truthy_opt (ActiveDelivery.tracked_lng d)) eqn:Hlng; [| exact Hinv].
  cbn [andb].
  destruct (not_zero (ActiveDelivery.tracked_lat d) && not_zero (ActiveDelivery.tracked_lng d));
    [| exact Hinv].
  destruct (ActiveDelivery.tracked_lat d) as [[| la] |]; try exact Hinv.
  destruct (ActiveDelivery.tracked_lng d) as [[| lo] |]; try exact Hinv.
  destruct Hinv as [Hc [Hh _]].
  split; [exact Hc | split; [exact Hh |]].
  split; cbn; now apply truthy_num_nonzero.
Qed.

Lemma apply_order_keeps_nonzero :
  forall fmt d st,
    nonzero_coordinates (ActiveDelivery.locationState st) ->
    nonzero_coordinates
      (ActiveDelivery.locationState (ActiveDelivery.apply_order fmt d st)).
Proof.
  intros fmt d st [[Hc1 Hc2] [[Hh1 Hh2] Hr]].
  unfold ActiveDelivery.apply_order, nonzero_coordinates, nonzero_pair; cbn.
  repeat split; try (apply coord_or_nonzero; assumption).
  exact Hr.
Qed.

Lemma screen_after_keeps_nonzero :
  forall fmt st e,
    nonzero_coordinates (ActiveDelivery.locationState st) ->
    nonzero_coordinates (ActiveDelivery.locationState (screen_after fmt st e)).
Proof.
  intros fmt st [d | r] Hinv; unfold screen_after.
  - now apply apply_order_keeps_nonzero.
  - cbn; now apply pollRiderLocation_keeps_nonzero.
Qed.

Lemma screen_after_keeps_rider :
  forall fmt st e,
    ActiveDelivery.riderLocation (ActiveDelivery.locationState st) <> None ->
    ActiveDelivery.riderLocation
      (ActiveDelivery.locationState (screen_after fmt st e)) <> None.
Proof.
  intros fmt st [d | r] Hsome; unfold screen_after; [exact Hsome |].
  cbn; unfold ActiveDelivery.pollRiderLocation.
  destruct r as [resp | e]; [| exact Hsome].
  destruct (if success resp then data resp else None) as [t |]; [| exact Hsome].
  destruct (_ && _); [| exact Hsome].
  destruct (ActiveDelivery.tracked_lat t) as [[| la] |]; try exact Hsome.
  destruct (ActiveDelivery.tracked_lng t) as [[| lo] |]; try exact Hsome.
  discriminate.
Qed.

(** X9.  Whatever orders are loaded and tracking answers arrive, in any
    order, no coordinate on the map has a zero latitude or longitude, and a
    rider position once shown is never taken away. *)
Theorem screen_coordinates_stay_nonzero :
  forall fmt (events : list ScreenEvent),
    let final := fold_left (screen_after fmt) events ActiveDelivery.initialState in
    nonzero_coordinates (ActiveDelivery.locationState final)
    /\ forall earlier later,
         events = (earlier ++ later)%list ->
         ActiveDelivery.riderLocation
           (ActiveDelivery.locationState
              (fold_left (screen_after fmt) earlier ActiveDelivery.initialState))
           <> None ->
         ActiveDelivery.riderLocation (ActiveDelivery.locationState final) <> None.
Proof.
  intros fmt events final; unfold final; split.
  - assert (Hgen : forall evs st,
               nonzero_coordinates (ActiveDelivery.locationState st) ->
               nonzero_coordinates
                 (ActiveDelivery.locationState (fold_left (screen_after fmt) evs st))).
    { induction evs as [| e evs IH]; intros st Hinv; [exact Hinv |].
      simpl; apply IH, screen_after_keeps_nonzero, Hinv. }
    apply Hgen; cbn; unfold nonzero_pair; cbn.
    repeat split; try exact I; intros H; discriminate H.
  - intros earlier later ->; rewrite fold_left_app.
    generalize (fold_left (screen_after fmt) earlier ActiveDelivery.initialState).
    induction later as [| e later IH]; intros st Hsome; [exact Hsome |].
    simpl; apply IH, screen_after_keeps_rider, Hsome.
Qed.

End CoordinateFacts.

(** ** Tracking answers, requests in flight, status text *)

Section MoreTrackingFacts.
Import Types OrderService.

Lemma latest_last :
  forall (A : Type) (pts : list A) (p : A), latest (pts ++ [p])%list = Some p.
Proof.
  intros A pts p; unfold latest.
  rewrite length_app; simpl.
  replace (length pts + 1 - 1) with (length pts) by lia.
  destruct (Nat.ltb_spec 0 (length pts + 1)) as [_ | Hbad]; [| lia].
  rewrite nth_error_app2 by lia.
  now rewrite Nat.sub_diag.
Qed.

Lemma or_else_truthy :
  forall a b, truthy b = true -> truthy (or_else a b) = true.
Proof.
  intros a b Hb; unfold or_else.
  destruct (truthy a) eqn:Ha; assumption.
Qed.

(** X10.  When the order has tracking points, the rider location of the
    tracking answer is the last point, its coordinates parsed and its time
    kept, whatever the current rider location of the order says. *)
Theorem tracking_latest_point_wins :
  forall (parse : string -> number) (now msg : string) (o : DetailsOrder)
         (pts : list TrackPoint) (p : TrackPoint),
    exists r d,
      getOrderTracking parse now
        (Returned (mkResponse true msg
           (Some {| d_order := Some o;
                    d_location_tracking := Some (pts ++ [p])%list |})))
        = Returned r
      /\ data r = Some d
      /\ rider_location d =
           Some {| lat := parseFloat parse (location_lat p);
                   lng := parseFloat parse (location_lng p);
                   timestamp := recorded_at p |}
      /\ t_status d = d_status o.
Proof.
  intros parse now msg o pts p.
  unfold getOrderTracking; cbn -[latest]; rewrite latest_last.
  eexists; eexists; repeat split.
Qed.

(** X11.  The estimate in a tracking answer is never empty: it is N/A when
    the order has no estimate.  So when the screen takes the rider position
    of the answer (both coordinates it reads are truthy), the state shows
    that position, marks the rider location active, and shows the estimate
    of the answer in place of the one shown before; when it does not take
    the position, the state is left as it was. *)
Theorem tracking_estimate_replaces_shown_one :
  forall (parse : string -> number) (now : string)
         (response : Outcome (ApiResponse DetailsData))
         (r : ApiResponse TrackingData) (prev : ActiveDelivery.LocationState),
    getOrderTracking parse now response = Returned r ->
    exists d eta,
      data r = Some d
      /\ estimated_arrival d = Some eta
      /\ eta <> EmptyString
      /\ (takes_rider_position d = true ->
          exists la lo,
            ActiveDelivery.tracked_lat d = Some (Num la)
            /\ ActiveDelivery.tracked_lng d = Some (Num lo)
            /\ ActiveDelivery.riderLocation
                 (ActiveDelivery.pollRiderLocation (Returned r) prev)
               = Some {| ActiveDelivery.latitude := la;
                         ActiveDelivery.longitude := lo |}
            /\ ActiveDelivery.isRiderLocationActive
                 (ActiveDelivery.pollRiderLocation (Returned r) prev) = true
            /\ ActiveDelivery.estimatedTimeToDelivery
                 (ActiveDelivery.pollRiderLocation (Returned r) prev) = eta)
      /\ (takes_rider_position d = false ->
          ActiveDelivery.pollRiderLocation (Returned r) prev = prev)
      /\ (forall resp dd o,
            response = Returned resp -> data resp = Some dd ->
            d_order dd = Some o ->
            truthy (d_timing_estimated_delivery_time o) = false ->
            truthy (d_estimated_delivery_time o) = false ->
            eta = "N/A").
Proof.
  intros parse now response r prev Hr.
  unfold getOrderTracking in Hr.
  destruct response as [resp | e]; [| discriminate Hr].
  destruct (success resp) eqn:Hs; [| discriminate Hr].
  destruct (data resp) as [[[o |] tr] |] eqn:Hd; try discriminate Hr.
  injection Hr as <-.
  remember (or_else (or_else (d_timing_estimated_delivery_time o)
                             (d_estimated_delivery_time o)) (Some "N/A"))
    as est eqn:Eest.
  assert (Hest : truthy est = true)
    by (subst est; apply or_else_truthy; reflexivity).
  destruct est as [eta |]; [| discriminate Hest].
  assert (Hne : eta <> EmptyString).
  { simpl in Hest; apply negb_true_iff in Hest; now apply String.eqb_neq. }
  eexists; exists eta; split; [reflexivity |].
  split; [reflexivity |].
  split; [exact Hne |]; split; [| split].
  - unfold takes_rider_position, ActiveDelivery.pollRiderLocation.
    cbn [success data].
    match goal with
    | |- context [ActiveDelivery.tracked_lat ?t] =>
        generalize (ActiveDelivery.tracked_lat t),
                   (ActiveDelivery.tracked_lng t)
    end.
    intros lat lng Htake; apply andb_prop in Htake as [Hla Hlo].
    destruct lat as [[| la] |]; try discriminate Hla.
    destruct lng as [[| lo] |]; try discriminate Hlo.
    exists la, lo; cbn [truthy_opt truthy_num not_zero] in *.
    rewrite Hla, Hlo; cbn.
    repeat split.
    unfold text_or; now destruct (String.eqb_spec eta EmptyString).
  - unfold takes_rider_position, ActiveDelivery.pollRiderLocation.
    cbn [success data].
    intros Htake; now rewrite Htake.
  - intros resp' dd o' Hresp Hdd Ho' H1 H2.
    injection Hresp as <-; rewrite Hd in Hdd; injection Hdd as <-.
    cbn in Ho'; injection Ho' as <-.
    unfold or_else in Eest; rewrite H1, H2 in Eest.
    cbn in Eest; congruence.
Qed.

End MoreTrackingFacts.

Lemma tracking_estimate_replaces_shown_one_witness :
  OrderService.getOrderTracking parse_sample "2025-01-01T09:00:00.000Z"
    details_with_point = Returned tracking_of_point
  /\ ActiveDelivery.estimatedTimeToDelivery state_showing_other_rider = "12 min"
  /\ ActiveDelivery.estimatedTimeToDelivery
       (ActiveDelivery.pollRiderLocation (Returned tracking_of_point)
          state_showing_other_rider) = "N/A"
  /\ ActiveDelivery.riderLocation
       (ActiveDelivery.pollRiderLocation (Returned tracking_of_point)
          state_showing_other_rider)
     = Some {| ActiveDelivery.latitude := 69 # 10;
               ActiveDelivery.longitude := 799 # 10 |}.
Proof.
  assert (Hr : OrderService.getOrderTracking parse_sample
                 "2025-01-01T09:00:00.000Z" details_with_point
               = Returned tracking_of_point) by reflexivity.
  destruct (tracking_estimate_replaces_shown_one parse_sample
              "2025-01-01T09:00:00.000Z" details_with_point
              tracking_of_point state_showing_other_rider Hr)
    as [d [eta [Hd [Heta [_ [Htake _]]]]]].
  injection Hd as <-.
  injection Heta as <-.
  destruct (Htake eq_refl) as [la [lo [Hla [Hlo [Hloc [_ Hest]]]]]].
  injection Hla as <-.
  injection Hlo as <-.
  split; [exact Hr |].
  split; [reflexivity |].
  split; [exact Hest | exact Hloc].
Defined.

Section BacklogFacts.

Variables UI Resp : Type.
Variable on_settled : Outcome Resp -> UI -> UI.

(** Every tick of a registered timer starts one more request. *)
Lemma ticks_pile_up :
  forall (n : nat) (w : Polling.World UI) (h : nat),
    Polling.has_timer UI h w = true ->
    let later := Polling.run UI Resp on_settled w (repeat (Polling.TimerFired h) n) in
    length (Polling.inflight later) = n + length (Polling.inflight w)
    /\ Polling.ui later = Polling.ui w
    /\ Polling.timers later = Polling.timers w.
Proof.
  induction n as [| n IH]; intros w h Hh; [repeat split |].
  cbn [repeat]; unfold Polling.run; cbn [fold_left].
  fold (Polling.run UI Resp on_settled
          (Polling.step UI Resp on_settled w (Polling.TimerFired h))
          (repeat (Polling.TimerFired h) n)).
  assert (Hstep : Polling.step UI Resp on_settled w (Polling.TimerFired h)
                  = Polling.start_request UI w)
    by (unfold Polling.step; now rewrite Hh).
  rewrite Hstep.
  destruct (IH (Polling.start_request UI w) h Hh) as [Hl [Hu Ht]].
  cbv zeta; rewrite Hl, Hu, Ht; cbn; repeat split; lia.
Qed.

End BacklogFacts.

(** X12.  The rider-location timer starts a request on every tick without
    looking at requests still in flight: after n ticks during which nothing
    settled, n + 1 more requests are in flight, and the state on screen is
    as it was. *)
Theorem location_requests_pile_up :
  forall (w0 : location_world) (n : nat),
    let started := fst (Polling.location_effect _ location_period true w0) in
    let later :=
      location_run started (repeat (Polling.TimerFired (Polling.next_id w0)) n) in
    length (Polling.inflight later) = n + 1 + length (Polling.inflight w0)
    /\ Polling.ui later = Polling.ui w0.
Proof.
  intros w0 n started later.
  destruct (ticks_pile_up _ _ ActiveDelivery.pollRiderLocation n started
              (Polling.next_id w0)) as [Hl [Hu _]].
  - unfold started, Polling.has_timer; cbn; now rewrite Nat.eqb_refl.
  - unfold later, location_run; rewrite Hl, Hu; cbn; split; [lia | reflexivity].
Qed.

Section StatusTextFacts.
Import Types DeliveryStatusText.

(** X13.  The status message of the delivery-created screen is the
    fallback text exactly for the statuses outside the seven rider
    statuses; among the order statuses these are the three handover
    statuses. *)
Theorem status_message_covers_rider_statuses :
  forall s : string,
    (getStatusMessage s = "Status unknown" <-> ~ In s RIDER_STATUSES)
    /\ (In s ORDER_STATUSES -> ~ In s RIDER_STATUSES ->
        s = "handover_pending" \/ s = "handover_accepted"
        \/ s = "handover_confirmed").
Proof.
  intros s; split.
  - unfold getStatusMessage, RIDER_STATUSES; simpl.
    repeat match goal with
           | |- context [String.eqb s ?lit] =>
               destruct (String.eqb_spec s lit) as [-> | ?]
           end;
      (split; [intros H; try discriminate H | intros H]);
      try (exfalso; apply H; tauto);
      try reflexivity.
    intros Hin; repeat (destruct Hin as [Hin | Hin]; [congruence |]); exact Hin.
  - unfold ORDER_STATUSES, RIDER_STATUSES; simpl; intros Hin Hnot.
    repeat (destruct Hin as [<- | Hin]; [try tauto |]); try contradiction.
Qed.

End StatusTextFacts.

(** ** Durations *)

Section DurationFacts.
Import OrderDetails.

Variable getTime : string -> option Z.



End DurationFacts.

